(** * psx-ledger: a shallow embedding of the ledger handlers, the spreadsheet
    import and the AI-call wrapper, with the properties of the specification,
    and of the code around them (the price refresh, the chat, the simulation,
    the analysis handler, the forms of the ledger view, the advisor view, the
    overview and the keyboard navigation), with further properties of it.

    Conventions of the embedding.

    - A JavaScript [number] is an exact rational extended with [NaN] and the
      two infinities.  The special values follow IEEE 754 as JavaScript does
      (propagation of [NaN], division by zero, comparisons with [NaN] false);
      rounding and overflow of finite results and the sign of zero are
      abstracted.
    - A JavaScript string is a [string] of 8-bit code units.
    - React state is passed explicitly; the remote service, the clock and the
      parser of JSON text are inputs of the functions that use them. *)

From Stdlib Require Import QArith Qcanon Qfield Ascii.
From Stdlib Require Import Qround Sorting.Sorted.
From stdpp Require Import base option list strings numbers gmap pretty.

Set Warnings "-register-all".

Local Open Scope Qc_scope.

(** ** JavaScript numbers *)

Module JS.

Inductive number : Type :=
| Fin (q : Qc)
| PInf
| NInf
| NaN.

Definition Qc_ltb (a b : Qc) : bool :=
  match a ?= b with Lt => true | _ => false end.

Definition Qc_eqb (a b : Qc) : bool :=
  match a ?= b with Eq => true | _ => false end.

Definition Qc_leb (a b : Qc) : bool :=
  match a ?= b with Gt => false | _ => true end.

Definition zero : number := Fin 0.

Definition isNaN (x : number) : bool :=
  match x with NaN => true | _ => false end.

Definition isFinite (x : number) : bool :=
  match x with Fin _ => true | _ => false end.

Definition neg (x : number) : number :=
  match x with
  | Fin a => Fin (- a)
  | PInf => NInf
  | NInf => PInf
  | NaN => NaN
  end.

(** [x + y] *)
Definition add (x y : number) : number :=
  match x, y with
  | NaN, _ | _, NaN => NaN
  | Fin a, Fin b => Fin (a + b)
  | PInf, NInf | NInf, PInf => NaN
  | PInf, _ | _, PInf => PInf
  | NInf, _ | _, NInf => NInf
  end.

(** [x - y] *)
Definition sub (x y : number) : number := add x (neg y).

(** The sign of a number that is not [NaN]: [Lt] negative, [Eq] zero,
    [Gt] positive. *)
Definition sign (x : number) : comparison :=
  match x with
  | Fin a => a ?= 0
  | PInf => Gt
  | NInf => Lt
  | NaN => Eq
  end.

Definition signed_inf (s t : comparison) : number :=
  match s, t with
  | Eq, _ | _, Eq => NaN
  | Gt, Gt | Lt, Lt => PInf
  | _, _ => NInf
  end.

(** [x * y] *)
Definition mul (x y : number) : number :=
  match x, y with
  | NaN, _ | _, NaN => NaN
  | Fin a, Fin b => Fin (a * b)
  | _, _ => signed_inf (sign x) (sign y)
  end.

(** [x / y]; a zero divisor counts as [+0]. *)
Definition div (x y : number) : number :=
  match x, y with
  | NaN, _ | _, NaN => NaN
  | Fin a, Fin b =>
      if Qc_eqb b 0 then signed_inf (a ?= 0) Gt else Fin (a / b)
  | Fin _, _ => Fin 0
  | _, Fin b => signed_inf (sign x) (if Qc_eqb b 0 then Gt else b ?= 0)
  | _, _ => NaN
  end.

(** [x < y] *)
Definition lt (x y : number) : bool :=
  match x, y with
  | NaN, _ | _, NaN => false
  | Fin a, Fin b => Qc_ltb a b
  | NInf, NInf | PInf, _ | _, NInf => false
  | _, _ => true
  end.

(** [x > y] *)
Definition gt (x y : number) : bool := lt y x.

(** [x <= y] *)
Definition le (x y : number) : bool :=
  match x, y with
  | NaN, _ | _, NaN => false
  | _, _ => negb (lt y x)
  end.

(** [x === y] on numbers. *)
Definition strict_eq (x y : number) : bool :=
  match x, y with
  | Fin a, Fin b => Qc_eqb a b
  | PInf, PInf | NInf, NInf => true
  | _, _ => false
  end.

(** [Math.max(x, y)] *)
Definition Math_max (x y : number) : number :=
  match x, y with
  | NaN, _ | _, NaN => NaN
  | _, _ => if lt x y then y else x
  end.

(** Numeric literals. *)
Definition of_Z (z : Z) : number := Fin (Qc_of_Z z).

(** *** Strings *)

Definition is_white_space (c : ascii) : bool :=
  match c with
  | "009" | "010" | "011" | "012" | "013" | " " | "160" => true
  | _ => false
  end%char.

(** A string is truthy when it is not empty. *)
Definition truthy (s : string) : bool :=
  match s with EmptyString => false | _ => true end.

Definition upper_char (c : ascii) : ascii :=
  let n := nat_of_ascii c in
  if (97 <=? n)%nat && (n <=? 122)%nat then ascii_of_nat (n - 32) else c.

(** [s.toUpperCase()], on the letters of ASCII. *)
Fixpoint toUpperCase (s : string) : string :=
  match s with
  | EmptyString => EmptyString
  | String c s' => String (upper_char c) (toUpperCase s')
  end.

Fixpoint trimStart (s : string) : string :=
  match s with
  | EmptyString => EmptyString
  | String c s' => if is_white_space c then trimStart s' else s
  end.

Fixpoint trimEnd (s : string) : string :=
  match s with
  | EmptyString => EmptyString
  | String c s' =>
      match trimEnd s' with
      | EmptyString => if is_white_space c then EmptyString else String c EmptyString
      | t => String c t
      end
  end.

(** [s.trim()] *)
Definition trim (s : string) : string := trimEnd (trimStart s).

(** [s.startsWith(p)] *)
Fixpoint startsWith (p s : string) : bool :=
  match p, s with
  | EmptyString, _ => true
  | String a p', String b s' => if Ascii.eqb a b then startsWith p' s' else false
  | String _ _, EmptyString => false
  end.

(** [s.includes(p)] *)
Fixpoint includes (s p : string) : bool :=
  startsWith p s ||
  match s with
  | EmptyString => false
  | String _ s' => includes s' p
  end.

(** [s.replace(/p/g, "")] for a literal, non-empty pattern [p]: the matches
    are taken from left to right and do not overlap.  [skip] counts the
    code units of the current match that remain to be dropped. *)
Fixpoint removeAll_from (skip : nat) (p s : string) : string :=
  match s with
  | EmptyString => EmptyString
  | String c s' =>
      match skip with
      | S k => removeAll_from k p s'
      | O =>
          if startsWith p s
          then removeAll_from (String.length p - 1) p s'
          else String c (removeAll_from 0 p s')
      end
  end.

Definition removeAll (p s : string) : string := removeAll_from 0 p s.

(** [s.indexOf(c)] for a one-unit string [c]; [-1] when absent. *)
Fixpoint indexOf (s : string) (c : ascii) : Z :=
  match s with
  | EmptyString => (-1)%Z
  | String a s' =>
      if Ascii.eqb a c then 0%Z
      else
        let i := indexOf s' c in
        if (i <? 0)%Z then (-1)%Z else (i + 1)%Z
  end.

(** [s.lastIndexOf(c)] for a one-unit string [c]; [-1] when absent. *)
Fixpoint lastIndexOf (s : string) (c : ascii) : Z :=
  match s with
  | EmptyString => (-1)%Z
  | String a s' =>
      let i := lastIndexOf s' c in
      if (i <? 0)%Z then (if Ascii.eqb a c then 0%Z else (-1)%Z) else (i + 1)%Z
  end.

Definition clamp (len : nat) (i : Z) : nat :=
  Nat.min (Z.to_nat i) len.

(** [s.substring(start, end)]: both indices are clamped to [0, s.length] and
    swapped when [start > end]. *)
Definition substring (s : string) (start end_ : Z) : string :=
  let a := clamp (String.length s) start in
  let b := clamp (String.length s) end_ in
  let lo := Nat.min a b in
  let hi := Nat.max a b in
  String.substring lo (hi - lo) s.

End JS.

Export JS (number(..)).

(** ** The data model ([types.ts]) *)

Inductive TransactionType : Type := BUY | SELL.

Record Transaction : Type := mkTransaction {
  tx_id : string;
  tx_type : TransactionType;
  tx_shares : number;
  tx_price : number;
  tx_date : string
}.

Record StockPosition : Type := mkStockPosition {
  id : string;
  symbol : string;
  shares : number;
  avgBuyPrice : number;
  currentPrice : option number;
  companyName : option string;
  sector : option string;
  transactions : option (list Transaction)
}.

(** ** The ledger handlers ([App.tsx]) *)

Module App.

Section Handlers.

(** [new Date(s).getTime()]: the time value of a date string, [NaN] when the
    string is not a date. *)
Variable Date_getTime : string -> number.

(** The comparator of both [sort] calls: newest first. *)
Definition byDateDesc (a b : Transaction) : number :=
  JS.sub (Date_getTime (tx_date b)) (Date_getTime (tx_date a)).

(** [Array.prototype.sort] with a comparator, as the stable insertion sort:
    an element moves behind its right neighbour only when the comparator is
    positive ([NaN] counts as zero). *)
Fixpoint sort_insert {A} (cmp : A -> A -> number) (x : A) (l : list A) : list A :=
  match l with
  | [] => [x]
  | y :: l' => if JS.gt (cmp x y) JS.zero then y :: sort_insert cmp x l' else x :: l
  end.

Definition sort {A} (cmp : A -> A -> number) (l : list A) : list A :=
  foldr (sort_insert cmp) [] l.

(** [prev.findIndex(pred)] *)
Fixpoint findIndex {A} (pred : A -> bool) (l : list A) : option nat :=
  match l with
  | [] => None
  | x :: l' => if pred x then Some 0%nat else S <$> findIndex pred l'
  end.

(** The updater that [handleAddStock] passes to [setPortfolio].  [now_ms] is
    [Date.now().toString()] and [now_iso] is [new Date().toISOString()]. *)
Definition addStock (now_ms now_iso : string) (stock : StockPosition)
    (prev : list StockPosition) : list StockPosition :=
  let initialTransaction :=
    {| tx_id := now_ms; tx_type := BUY; tx_shares := shares stock;
       tx_price := avgBuyPrice stock; tx_date := now_iso |} in
  let existingIndex :=
    findIndex (fun p => String.eqb (JS.toUpperCase (symbol p))
                                   (JS.toUpperCase (symbol stock))) prev in
  match existingIndex with
  | Some existingIndex =>
      match prev !! existingIndex with
      | Some existing =>
          let totalCost :=
            JS.add (JS.mul (shares existing) (avgBuyPrice existing))
                   (JS.mul (shares stock) (avgBuyPrice stock)) in
          let totalShares := JS.add (shares existing) (shares stock) in
          let newAvg := JS.div totalCost totalShares in
          let updatedStock :=
            {| id := id existing; symbol := symbol existing;
               shares := totalShares; avgBuyPrice := newAvg;
               currentPrice := currentPrice existing;
               companyName := companyName existing;
               sector := sector existing;
               transactions :=
                 Some (initialTransaction :: default [] (transactions existing)) |} in
          <[existingIndex := updatedStock]> prev
      | None => prev
      end
  | None =>
      let stockWithHistory :=
        {| id := id stock; symbol := symbol stock; shares := shares stock;
           avgBuyPrice := avgBuyPrice stock; currentPrice := currentPrice stock;
           companyName := companyName stock; sector := sector stock;
           transactions := Some [initialTransaction] |} in
      prev ++ [stockWithHistory]
  end.

(** The body of the [map] callback of [handleTransaction], for a position
    whose id is [stockId]. *)
Definition applyTransaction (transaction : Transaction) (stock : StockPosition)
    : StockPosition :=
  let '(newShares, newAvgPrice) :=
    match tx_type transaction with
    | BUY =>
        let totalCost :=
          JS.add (JS.mul (shares stock) (avgBuyPrice stock))
                 (JS.mul (tx_shares transaction) (tx_price transaction)) in
        let newShares := JS.add (shares stock) (tx_shares transaction) in
        (newShares, JS.div totalCost newShares)
    | SELL =>
        let newShares :=
          JS.Math_max JS.zero (JS.sub (shares stock) (tx_shares transaction)) in
        (newShares,
         if JS.strict_eq newShares JS.zero then JS.zero else avgBuyPrice stock)
    end in
  let updatedTransactions :=
    match transactions stock with
    | Some txs => txs ++ [transaction]
    | None => [transaction]
    end in
  {| id := id stock; symbol := symbol stock;
     shares := newShares; avgBuyPrice := newAvgPrice;
     currentPrice := currentPrice stock; companyName := companyName stock;
     sector := sector stock;
     transactions := Some (sort byDateDesc updatedTransactions) |}.

(** The updater that [handleTransaction] passes to [setPortfolio]. *)
Definition transact (stockId : string) (transaction : Transaction)
    (prevPortfolio : list StockPosition) : list StockPosition :=
  map (fun stock =>
         if negb (String.eqb (id stock) stockId) then stock
         else applyTransaction transaction stock)
      prevPortfolio.

(** The updater that [handleTransaction] passes to [setLiquidCash]. *)
Definition adjustCash (transaction : Transaction) (prev : number) : number :=
  let amount := JS.mul (tx_shares transaction) (tx_price transaction) in
  match tx_type transaction with
  | BUY => JS.Math_max JS.zero (JS.sub prev amount)
  | SELL => JS.add prev amount
  end.

(** The part of the component state that the handlers below read or write.
    [portfolioRef] is [portfolioRef.current].  [refreshRequests] is no state
    of the component: it lists the portfolios handed to [updateStockPrices],
    one for each request that was sent. *)
Record State : Type := mkState {
  portfolio : list StockPosition;
  liquidCash : number;
  portfolioRef : list StockPosition;
  isRefreshing : bool;
  refreshRequests : list (list StockPosition)
}.

Definition setPortfolio (f : list StockPosition -> list StockPosition) (st : State) : State :=
  {| portfolio := f (portfolio st); liquidCash := liquidCash st;
     portfolioRef := portfolioRef st; isRefreshing := isRefreshing st;
     refreshRequests := refreshRequests st |}.

Definition setLiquidCash (f : number -> number) (st : State) : State :=
  {| portfolio := portfolio st; liquidCash := f (liquidCash st);
     portfolioRef := portfolioRef st; isRefreshing := isRefreshing st;
     refreshRequests := refreshRequests st |}.

Definition setIsRefreshing (b : bool) (st : State) : State :=
  {| portfolio := portfolio st; liquidCash := liquidCash st;
     portfolioRef := portfolioRef st; isRefreshing := b;
     refreshRequests := refreshRequests st |}.

(** The effect on [[portfolio]]: [portfolioRef.current = portfolio].  React
    runs it when the render that follows an update of [portfolio] is
    committed, before any later task of the event loop resumes. *)
Definition commit (st : State) : State :=
  {| portfolio := portfolio st; liquidCash := liquidCash st;
     portfolioRef := portfolio st; isRefreshing := isRefreshing st;
     refreshRequests := refreshRequests st |}.

(** The refresh that [handleAddStock] and [handleImportStocks] schedule with
    [setTimeout] is the later event [RefreshPrices]. *)
Definition handleAddStock (now_ms now_iso : string) (stock : StockPosition)
    (st : State) : State :=
  commit (setPortfolio (addStock now_ms now_iso stock) st).

Definition handleImportStocks (stocks : list StockPosition) (st : State) : State :=
  commit (setPortfolio (fun _ => stocks) st).

Definition handleTransaction (stockId : string) (transaction : Transaction)
    (st : State) : State :=
  commit (setLiquidCash (adjustCash transaction)
            (setPortfolio (transact stockId transaction) st)).

Definition handleRemoveStock (stockId : string) (st : State) : State :=
  commit (setPortfolio
            (fun _ => filter (fun s => id s ≠ stockId) (portfolio st)) st).

(** [handleReset]; [confirmed] is the answer to [window.confirm]. *)
Definition handleReset (confirmed : bool) (st : State) : State :=
  if confirmed
  then commit (setLiquidCash (fun _ => JS.zero) (setPortfolio (fun _ => []) st))
  else st.

(** [handleRefreshPrices] up to its [await]: the request for the portfolio
    read from the ref is sent, unless that portfolio is empty. *)
Definition handleRefreshPrices_begin (st : State) : State :=
  let currentPortfolio := portfolioRef st in
  if (List.length currentPortfolio =? 0)%nat then st
  else
    let st := setIsRefreshing true st in
    {| portfolio := portfolio st; liquidCash := liquidCash st;
       portfolioRef := portfolioRef st; isRefreshing := isRefreshing st;
       refreshRequests := refreshRequests st ++ [currentPortfolio] |}.

(** [handleRefreshPrices] from its [await] on: [result] is the value the
    promise of [updateStockPrices] settles with, [None] when it rejects. *)
Definition handleRefreshPrices_resume (result : option (list StockPosition))
    (st : State) : State :=
  let st' :=
    match result with
    | Some updatedPortfolio =>
        if (List.length (portfolioRef st) =? 0)%nat then st
        else commit (setPortfolio (fun _ => updatedPortfolio) st)
    | None => st
    end in
  setIsRefreshing false st'.

(** What can happen between two tasks of the event loop. *)
Inductive Event : Type :=
| AddStock (now_ms now_iso : string) (stock : StockPosition)
| ImportStocks (stocks : list StockPosition)
| Transact (stockId : string) (transaction : Transaction)
| RemoveStock (stockId : string)
| Reset (confirmed : bool)
| UpdateLiquidCash (amount : number)
| RefreshPrices
| RefreshSettled (result : option (list StockPosition)).

Definition step (e : Event) (st : State) : State :=
  match e with
  | AddStock now_ms now_iso stock => handleAddStock now_ms now_iso stock st
  | ImportStocks stocks => handleImportStocks stocks st
  | Transact stockId transaction => handleTransaction stockId transaction st
  | RemoveStock stockId => handleRemoveStock stockId st
  | Reset confirmed => handleReset confirmed st
  | UpdateLiquidCash amount => setLiquidCash (fun _ => amount) st
  | RefreshPrices => handleRefreshPrices_begin st
  | RefreshSettled result => handleRefreshPrices_resume result st
  end.

Definition run (es : list Event) (st : State) : State :=
  foldl (fun st e => step e st) st es.

End Handlers.

End App.

(** ** The AI client ([services/geminiService.ts]) *)

Module Gemini.

(** The values [JSON.parse] produces. *)
Inductive json : Type :=
| JNull
| JBool (b : bool)
| JNumber (n : number)
| JString (s : string)
| JArray (items : list json)
| JObject (fields : list (string * json)).

Record WebSource : Type := mkWebSource { title : string; uri : string }.

(** A grounding chunk; [web] is absent for chunks of another kind. *)
Record GroundingChunk : Type := mkGroundingChunk { web : option WebSource }.

(** What the wrapper reads of a response: [response.text] and
    [response.candidates?.[0]?.groundingMetadata?.groundingChunks]. *)
Record Response : Type := mkResponse {
  text : option string;
  groundingChunks : option (list GroundingChunk)
}.

(** What the wrapper reads of a thrown value: [error.status] and
    [error.message]. *)
Record Error : Type := mkError {
  status : option number;
  message : option string
}.

(** [new Error(msg)] *)
Definition new_Error (msg : string) : Error :=
  {| status := None; message := Some msg |}.

(** [AnalysisResult]: an object, as the map from its keys to their values. *)
Abbreviation AnalysisResult := (gmap string json).

(** What a call does to the outside, in the order it happens. *)
Inductive Effect : Type :=
| Request (contents : string)
| Wait (ms : nat)
| ConsoleWarn (msg : string)
| ConsoleError (msg : string)
| Update (partial : AnalysisResult).

Definition World : Type := list Effect.

Definition is_request (e : Effect) : bool :=
  match e with Request _ => true | _ => false end.

(** The number of requests sent so far. *)
Definition requests (w : World) : nat := List.length (List.filter is_request w).

(** How an [async] function ends; [OutOfFuel] is the loop of the model
    stopped by its bound, which no run reaches. *)
Inductive Outcome (A : Type) : Type :=
| Returned (a : A)
| Thrown (e : Error)
| OutOfFuel.
Arguments Returned {A} a.
Arguments Thrown {A} e.
Arguments OutOfFuel {A}.

Definition M (A : Type) : Type := World -> Outcome A * World.

Definition ret {A} (a : A) : M A := fun w => (Returned a, w).
Definition throw {A} (e : Error) : M A := fun w => (Thrown e, w).
Definition emit (e : Effect) : M unit := fun w => (Returned tt, w ++ [e]).

Definition bind {A B} (m : M A) (k : A -> M B) : M B :=
  fun w =>
    match m w with
    | (Returned a, w') => k a w'
    | (Thrown e, w') => (Thrown e, w')
    | (OutOfFuel, w') => (OutOfFuel, w')
    end.

(** [try { m } catch (error) { h error }] *)
Definition try_catch {A} (m : M A) (h : Error -> M A) : M A :=
  fun w =>
    match m w with
    | (Thrown e, w') => h e w'
    | r => r
    end.

Notation "x <- m ;; k" := (bind m (fun x => k))
  (at level 100, m at level 99, right associativity).
Notation "m ;;; k" := (bind m (fun _ => k))
  (at level 100, right associativity).

Definition maxAttempts : nat := 3.

(** The instruction block appended to every prompt; [schema] is
    [JSON.stringify(schema, null, 2)]. *)
Definition detailedPrompt (prompt schema : string) : string :=
  prompt +:+ "
    
    --------------------------------------------------
    IMPORTANT OUTPUT INSTRUCTIONS:
    1. You must return a valid, raw JSON object.
    2. Do NOT wrap the JSON in markdown code blocks (e.g., no ```json).
    3. Do NOT include comments in the JSON (like // or /* */).
    4. Strictly follow this JSON schema structure:
    " +:+ schema +:+ "
    --------------------------------------------------
    ".

(** The clean-up of [response.text] before it is parsed. *)
Definition extractJson (text : option string) : string :=
  let text :=
    match text with
    | Some t => if JS.truthy t then t else "{}"
    | None => "{}"
    end in
  let text := JS.trim (JS.removeAll "```" (JS.removeAll "```json" text)) in
  let firstBrace := JS.indexOf text "{" in
  let lastBrace := JS.lastIndexOf text "}" in
  if negb (firstBrace =? -1)%Z && negb (lastBrace =? -1)%Z
  then JS.substring text firstBrace (lastBrace + 1)
  else text.

Definition includes_opt (s : option string) (p : string) : bool :=
  match s with
  | Some s => JS.includes s p
  | None => false
  end.

Definition isRateLimit (error : Error) : bool :=
  match status error with
  | Some st => JS.strict_eq st (JS.of_Z 429)
  | None => false
  end
  || includes_opt (message error) "429"
  || includes_opt (message error) "quota"
  || includes_opt (message error) "RESOURCE_EXHAUSTED".

Section Service.

(** [process.env.API_KEY] *)
Variable API_KEY : option string.

(** The remote service: what [ai.models.generateContent] settles with for
    the [n]-th request of the run (counted from zero) and its contents. *)
Variable generateContent : nat -> string -> Response + Error.

(** [JSON.parse]; [None] when it throws. *)
Variable JSON_parse : string -> option json.

Definition getAiClient : M unit :=
  match API_KEY with
  | Some apiKey =>
      if JS.truthy apiKey then ret tt else throw (new_Error "API Key not found")
  | None => throw (new_Error "API Key not found")
  end.

(** The [try] block of the loop: one request and the parse of its answer. *)
Definition attempt (contents : string) : M (json * Response) :=
  fun w =>
    let n := requests w in
    let w := w ++ [Request contents] in
    match generateContent n contents with
    | inr error => (Thrown error, w)
    | inl response =>
        let text := extractJson (text response) in
        match JSON_parse text with
        | Some data => (Returned (data, response), w)
        | None =>
            (Thrown (new_Error "Invalid JSON format received from AI"),
             w ++ [ConsoleWarn "JSON Parse failed on attempt"])
        end
    end.

(** The [while (attempts < maxAttempts)] loop with its [catch] block. *)
Fixpoint retryLoop (fuel attempts : nat) (contents : string) : M (json * Response) :=
  if (attempts <? maxAttempts)%nat then
    match fuel with
    | O => fun w => (OutOfFuel, w)
    | S fuel =>
        try_catch (attempt contents) (fun error =>
          let attempts := S attempts in
          if isRateLimit error && (attempts <? maxAttempts)%nat then
            let delay := (3000 * attempts)%nat in
            emit (ConsoleWarn "Gemini Rate Limit hit. Retrying") ;;;
            emit (Wait delay) ;;;
            retryLoop fuel attempts contents
          else
            emit (ConsoleError "Gemini analysis failed") ;;;
            if (attempts =? maxAttempts)%nat then throw error
            else retryLoop fuel attempts contents)
    end
  else throw (new_Error "Gemini API request failed after multiple retries").

Definition fetchGeminiResponse (prompt schema : string) : M (json * Response) :=
  getAiClient ;;;
  retryLoop maxAttempts 0 (detailedPrompt prompt schema).

(** The own enumerable properties that [...data] copies. *)
Definition ownProperties (data : json) : list (string * json) :=
  match data with
  | JObject fields => fields
  | JArray items => imap (fun i v => (pretty i, v)) items
  | JString s =>
      imap (fun i c => (pretty i, JString (String c EmptyString)))
           (String.list_ascii_of_string s)
  | _ => []
  end.

(** [{ ...target, ...data }] *)
Definition spread (target : AnalysisResult) (data : json) : AnalysisResult :=
  foldl (fun m kv => <[kv.1 := kv.2]> m) target (ownProperties data).

Definition sourcesJson (l : list WebSource) : json :=
  JArray (map (fun s => JObject [("title", JString (title s)); ("uri", JString (uri s))]) l).

(** The helper [extractSources], as a function of [allSources]. *)
Definition extractSources (response : Response) (allSources : list WebSource)
    : list WebSource :=
  let chunks := default [] (groundingChunks response) in
  let found := omap web chunks in
  if (0 <? List.length found)%nat then allSources ++ found else allSources.

(** [Array.from(new Map(l.map(item => [item.uri, item])).values())]: one
    source per uri, in the order of the first occurrences, the value of the
    last one. *)
Fixpoint mapSet (item : WebSource) (m : list WebSource) : list WebSource :=
  match m with
  | [] => [item]
  | x :: m' => if String.eqb (uri x) (uri item) then item :: m' else x :: mapSet item m'
  end.

Definition uniqueByUri (l : list WebSource) : list WebSource :=
  foldl (fun m item => mapSet item m) [] l.

(** [generatePortfolioAnalysis]; the two prompts are the texts interpolated
    from the portfolio, the strategy and the liquid cash, [onUpdate] is
    recorded as the effect [Update]. *)
Definition generatePortfolioAnalysis (prompt1 schema1 prompt2 schema2 : string)
    : M unit :=
  let currentResult : AnalysisResult := ∅ in
  let allSources : list WebSource := [] in
  st <- try_catch
          (r <- fetchGeminiResponse prompt1 schema1 ;;
           let '(data, response) := r in
           let allSources := extractSources response allSources in
           let currentResult :=
             <["sources" := sourcesJson allSources]> (spread currentResult data) in
           emit (Update currentResult) ;;;
           ret (currentResult, allSources))
          (fun e =>
             emit (ConsoleError "Phase 1 analysis failed") ;;;
             ret (currentResult, allSources)) ;;
  let '(currentResult, allSources) := st in
  try_catch
    (r <- fetchGeminiResponse prompt2 schema2 ;;
     let '(data, response) := r in
     let allSources := extractSources response allSources in
     let uniqueSources := uniqueByUri allSources in
     let currentResult :=
       <["sources" := sourcesJson uniqueSources]> (spread currentResult data) in
     emit (Update currentResult))
    (fun e => emit (ConsoleWarn "Phase 2 analysis failed")).

End Service.

End Gemini.

(** ** The spreadsheet import ([components/PortfolioView.tsx]) *)

Module PortfolioView.

(** A cell of a row that [XLSX.utils.sheet_to_json(ws, { header: 1 })]
    returns; [CEmpty] is a hole of the row, read as [undefined]. *)
Inductive Cell : Type :=
| CEmpty
| CNull
| CBool (b : bool)
| CNumber (n : number)
| CString (s : string).

(** The [Map<string, StockPosition>] of the import: its entries in insertion
    order, at most one per key. *)
Definition StockMap : Type := list (string * StockPosition).

Fixpoint map_get (key : string) (m : StockMap) : option StockPosition :=
  match m with
  | [] => None
  | (k, v) :: m' => if String.eqb k key then Some v else map_get key m'
  end.

Definition map_has (key : string) (m : StockMap) : bool :=
  match map_get key m with Some _ => true | None => false end.

(** [m.set(key, v)]; also the write through the reference [m.get(key)]. *)
Fixpoint map_set (key : string) (v : StockPosition) (m : StockMap) : StockMap :=
  match m with
  | [] => [(key, v)]
  | (k, x) :: m' =>
      if String.eqb k key then (k, v) :: m' else (k, x) :: map_set key v m'
  end.

(** [Array.from(m.values())] *)
Definition map_values (m : StockMap) : list StockPosition := map snd m.

(** The variables of [handleFileUpload] that the callback of [forEach]
    updates; [reads] counts the readings of the clock and of the random
    generator. *)
Record ImportState : Type := mkImportState {
  stockMap : StockMap;
  importedCount : nat;
  reads : nat
}.

Section Aggregation.

(** [Number(s)] and [String(n)] of the language. *)
Variable StringToNumber : string -> number.
Variable NumberToString : number -> string.

(** [Date.now().toString() + Math.random().toString()] and
    [new Date().toISOString()] at the [n]-th reading. *)
Variable randomId : nat -> string.
Variable isoNow : nat -> string.

Variable Date_getTime : string -> number.

(** [Number(cell)] *)
Definition Number (c : Cell) : number :=
  match c with
  | CEmpty => NaN
  | CNull => JS.zero
  | CBool b => if b then JS.of_Z 1 else JS.zero
  | CNumber n => n
  | CString s => StringToNumber s
  end.

(** [String(cell)] *)
Definition String_ (c : Cell) : string :=
  match c with
  | CEmpty => "undefined"
  | CNull => "null"
  | CBool b => if b then "true" else "false"
  | CNumber n => NumberToString n
  | CString s => s
  end.

(** [row[i]] *)
Definition at_ (row : list Cell) (i : nat) : Cell := nth i row CEmpty.

(** The callback of [jsonData.forEach]. *)
Definition processRow (row : list Cell) (index : nat) (st : ImportState) : ImportState :=
  if (List.length row <? 3)%nat then st
  else
    let symbol_ := JS.trim (JS.toUpperCase (String_ (at_ row 0))) in
    let qty := Number (at_ row 1) in
    let cost := Number (at_ row 2) in
    if (index =? 0)%nat && (JS.isNaN qty || JS.isNaN cost) then st
    else if JS.truthy symbol_ && negb (JS.isNaN qty) && negb (JS.isNaN cost)
            && JS.gt qty JS.zero
    then
      let newTx :=
        {| tx_id := randomId (reads st); tx_type := BUY; tx_shares := qty;
           tx_price := cost; tx_date := isoNow (reads st) |} in
      if map_has symbol_ (stockMap st) then
        match map_get symbol_ (stockMap st) with
        | Some existing =>
            let totalCost :=
              JS.add (JS.mul (shares existing) (avgBuyPrice existing))
                     (JS.mul qty cost) in
            let totalShares := JS.add (shares existing) qty in
            let existing' :=
              {| id := id existing; symbol := symbol existing;
                 shares := totalShares;
                 avgBuyPrice := JS.div totalCost totalShares;
                 currentPrice := currentPrice existing;
                 companyName := companyName existing;
                 sector := sector existing;
                 transactions := Some (default [] (transactions existing) ++ [newTx]) |} in
            {| stockMap := map_set symbol_ existing' (stockMap st);
               importedCount := S (importedCount st);
               reads := S (reads st) |}
        | None => st
        end
      else
        let created :=
          {| id := randomId (S (reads st)); symbol := symbol_; shares := qty;
             avgBuyPrice := cost; currentPrice := Some cost;
             companyName := None; sector := None;
             transactions := Some [newTx] |} in
        {| stockMap := map_set symbol_ created (stockMap st);
           importedCount := S (importedCount st);
           reads := S (S (reads st)) |}
    else st.

(** [jsonData.forEach(callback)], from the row of index [index] on. *)
Fixpoint forEach_from (index : nat) (rows : list (list Cell)) (st : ImportState)
    : ImportState :=
  match rows with
  | [] => st
  | row :: rows' => forEach_from (S index) rows' (processRow row index st)
  end.

Definition sortTransactions (s : StockPosition) : StockPosition :=
  {| id := id s; symbol := symbol s; shares := shares s;
     avgBuyPrice := avgBuyPrice s; currentPrice := currentPrice s;
     companyName := companyName s; sector := sector s;
     transactions := App.sort (App.byDateDesc Date_getTime) <$> transactions s |}.

(** The aggregation of [handleFileUpload]: the positions built from the rows
    of the first sheet, before the test on their number. *)
Definition aggregate (jsonData : list (list Cell)) : list StockPosition :=
  let st := forEach_from 0 jsonData
              {| stockMap := []; importedCount := 0; reads := 0 |} in
  map sortTransactions (map_values (stockMap st)).

(** [handleFileUpload] from the rows on: the argument of [onImportStocks],
    [None] when it is not called. *)
Definition handleFileUpload (jsonData : list (list Cell)) : option (list StockPosition) :=
  let aggregatedStocks := aggregate jsonData in
  if (0 <? List.length aggregatedStocks)%nat then Some aggregatedStocks else None.

End Aggregation.

End PortfolioView.

(** ** The price refresh and the chat ([services/geminiService.ts]) *)

Module GeminiService.

Import Gemini.

(** The truth value of a parsed value in a condition. *)
Definition truthy (v : json) : bool :=
  match v with
  | JNull => false
  | JBool b => b
  | JNumber n => negb (JS.strict_eq n JS.zero || JS.isNaN n)
  | JString s => JS.truthy s
  | JArray _ | JObject _ => true
  end.

(** The value of the last field named [k]. *)
Definition field (k : string) (fields : list (string * json)) : option json :=
  foldl (fun acc kv => if String.eqb kv.1 k then Some kv.2 else acc) None fields.

(** [v.k] for the keys that the service reads ([stocks], [symbol],
    [currentPrice], [companyName], [sector]), none of which is an index, a
    length or a method: [None] is the [TypeError] on [null], [Some None] is
    [undefined]. *)
Definition member (k : string) (v : json) : option (option json) :=
  match v with
  | JNull => None
  | JObject fields => Some (field k fields)
  | _ => Some None
  end.

(** [a || b] on values that may be [undefined]. *)
Definition orElse (a b : option json) : option json :=
  match a with
  | Some v => if truthy v then a else b
  | None => b
  end.

(** A position as [updateStockPrices] returns it: the three fields taken from
    the answer hold whatever value the answer gave. *)
Record PricedPosition : Type := mkPricedPosition {
  pp_id : string;
  pp_symbol : string;
  pp_shares : number;
  pp_avgBuyPrice : number;
  pp_currentPrice : option json;
  pp_companyName : option json;
  pp_sector : option json;
  pp_transactions : option (list Transaction)
}.

(** A position of the portfolio, seen as such an object. *)
Definition unchanged (pos : StockPosition) : PricedPosition :=
  {| pp_id := id pos; pp_symbol := symbol pos; pp_shares := shares pos;
     pp_avgBuyPrice := avgBuyPrice pos;
     pp_currentPrice := JNumber <$> currentPrice pos;
     pp_companyName := JString <$> companyName pos;
     pp_sector := JString <$> sector pos;
     pp_transactions := transactions pos |}.

(** [u.symbol.toUpperCase()]; [None] when it throws. *)
Definition symbolOf (u : json) : option string :=
  match member "symbol" u with
  | Some (Some (JString s)) => Some (JS.toUpperCase s)
  | _ => None
  end.

(** [updates.find(u => u.symbol.toUpperCase() === sym)] on an array; the outer
    [None] is a [TypeError] of the callback. *)
Fixpoint find_update (sym : string) (updates : list json) : option (option json) :=
  match updates with
  | [] => Some None
  | u :: rest =>
      match symbolOf u with
      | None => None
      | Some s => if String.eqb s sym then Some (Some u) else find_update sym rest
      end
  end.

(** The callback of [portfolio.map]. *)
Definition reprice (updates : list json) (pos : StockPosition) : option PricedPosition :=
  match find_update (JS.toUpperCase (symbol pos)) updates with
  | None => None
  | Some None => Some (unchanged pos)
  | Some (Some update) =>
      if truthy update then
        match member "currentPrice" update, member "companyName" update,
              member "sector" update with
        | Some price, Some name, Some sect =>
            Some {| pp_id := id pos; pp_symbol := symbol pos;
                    pp_shares := shares pos; pp_avgBuyPrice := avgBuyPrice pos;
                    pp_currentPrice := orElse price (JNumber <$> currentPrice pos);
                    pp_companyName := orElse name (JString <$> companyName pos);
                    pp_sector := orElse sect (JString <$> sector pos);
                    pp_transactions := transactions pos |}
        | _, _, _ => None
        end
      else Some (unchanged pos)
  end.

(** [const updates = data.stocks || []] and the [map] over a portfolio that
    is not empty; [None] when a [TypeError] is thrown on the way. *)
Definition repriceAll (data : json) (portfolio : list StockPosition)
    : option (list PricedPosition) :=
  match member "stocks" data with
  | None => None
  | Some stocks =>
      match orElse stocks (Some (JArray [])) with
      | Some (JArray updates) => mapM (reprice updates) portfolio
      | _ => None
      end
  end.

Definition pricePrompt (portfolio : list StockPosition) : string :=
  "
    Find the latest market price (in PKR) and company name for the following stocks on the Pakistan Stock Exchange (PSX): "
  +:+ String.concat ", " (map symbol portfolio) +:+ ".
    
    Ensure the data is from the most recent trading session available via Google Search.
  ".

Section Service.

Variable API_KEY : option string.
Variable generateContent : nat -> string -> Response + Error.
Variable JSON_parse : string -> option json.

(** [JSON.stringify(priceSchema, null, 2)] *)
Variable priceSchema : string.

Definition updateStockPrices (portfolio : list StockPosition)
    : M (list PricedPosition) :=
  if (List.length portfolio =? 0)%nat then ret []
  else
    try_catch
      (r <- fetchGeminiResponse API_KEY generateContent JSON_parse
              (pricePrompt portfolio) priceSchema ;;
       match repriceAll r.1 portfolio with
       | Some updated => ret updated
       | None => throw (new_Error "TypeError")
       end)
      (fun e =>
         emit (ConsoleWarn "Failed to update prices") ;;;
         ret (map unchanged portfolio)).

(** [String(n)] for the share counts of the prompt. *)
Variable NumberToString : number -> string.

Definition advisorPrompt (query : string) (portfolio : list StockPosition) : string :=
  "
      User Query: " +:+ String "034" query +:+ String "034" "
      Context: User holds PSX stocks: "
  +:+ String.concat ", "
        (map (fun p => symbol p +:+ " (" +:+ NumberToString (shares p) +:+ " shares)")
             portfolio)
  +:+ ".
      Provide a helpful, concise answer in Markdown.
    ".

(** [askAdvisor]: one request, no retry, every failure answered by a fixed
    sentence. *)
Definition askAdvisor (query : string) (portfolio : list StockPosition) : M string :=
  try_catch
    (getAiClient API_KEY ;;;
     fun w =>
       let contents := advisorPrompt query portfolio in
       match generateContent (requests w) contents with
       | inl response =>
           (Returned
              (match text response with
               | Some t => if JS.truthy t then t else "No response."
               | None => "No response."
               end),
            w ++ [Request contents])
       | inr error => (Thrown error, w ++ [Request contents])
       end)
    (fun error =>
       emit (ConsoleWarn "Gemini Chat failed") ;;;
       ret "I'm having trouble connecting to my knowledge base right now.").

End Service.

End GeminiService.

(** ** The analysis handler ([App.tsx]) *)

Module AppAnalysis.

Import Gemini.

(** The part of the component state that [handleRunAnalysis] writes. *)
Record State : Type := mkState {
  analysisHistory : list AnalysisResult;
  viewingAnalysisId : option string;
  isAnalyzing : bool;
  analysisError : string
}.

Definition setAnalysisHistory (f : list AnalysisResult -> list AnalysisResult)
    (st : State) : State :=
  {| analysisHistory := f (analysisHistory st);
     viewingAnalysisId := viewingAnalysisId st;
     isAnalyzing := isAnalyzing st; analysisError := analysisError st |}.

Definition setViewingAnalysisId (v : option string) (st : State) : State :=
  {| analysisHistory := analysisHistory st; viewingAnalysisId := v;
     isAnalyzing := isAnalyzing st; analysisError := analysisError st |}.

Definition setIsAnalyzing (b : bool) (st : State) : State :=
  {| analysisHistory := analysisHistory st;
     viewingAnalysisId := viewingAnalysisId st;
     isAnalyzing := b; analysisError := analysisError st |}.

Definition setAnalysisError (msg : string) (st : State) : State :=
  {| analysisHistory := analysisHistory st;
     viewingAnalysisId := viewingAnalysisId st;
     isAnalyzing := isAnalyzing st; analysisError := msg |}.

(** [item.id === newId] *)
Definition hasId (newId : string) (item : AnalysisResult) : bool :=
  match item !! "id" with
  | Some (JString s) => String.eqb s newId
  | _ => false
  end.

(** The updater of the [onUpdate] callback: [{ ...item, ...partialData }] for
    the items whose id is [newId]. *)
Definition merge (newId : string) (partialData : AnalysisResult)
    (prev : list AnalysisResult) : list AnalysisResult :=
  map (fun item => if hasId newId item then partialData ∪ item else item) prev.

(** The arguments of the calls of [onUpdate] among the effects [w]. *)
Definition onUpdateCalls (w : World) : list AnalysisResult :=
  omap (fun e => match e with Update partialData => Some partialData | _ => None end) w.

(** [{ id: newId, timestamp: Date.now() }] *)
Definition newEntry (newId : string) (timestamp : number) : AnalysisResult :=
  <["timestamp" := JNumber timestamp]> (<["id" := JString newId]> ∅).

Section Handler.

Variable API_KEY : option string.
Variable generateContent : nat -> string -> Response + Error.
Variable JSON_parse : string -> option json.

(** The two prompts of [generatePortfolioAnalysis], as functions of the
    portfolio and of the liquid cash (the strategy is fixed), and its two
    schemas. *)
Variable prompt1 prompt2 : list StockPosition -> number -> string.
Variable schema1 schema2 : string.

(** [handleRunAnalysis]; [newId] is [Date.now().toString()], [timestamp] the
    second reading of the clock, [w] the effects so far.  The callback runs
    once for each [Update] of the call, in order; [finally] runs when the
    call has settled. *)
Definition handleRunAnalysis (newId : string) (timestamp : number)
    (ledger : App.State) (st : State) (w : World) : State * World :=
  if (List.length (App.portfolio ledger) =? 0)%nat
     && JS.strict_eq (App.liquidCash ledger) JS.zero
  then (setAnalysisError "Please add assets or update liquid cash first." st, w)
  else
    let st := setIsAnalyzing true st in
    let st := setAnalysisError "" st in
    let st := setAnalysisHistory (fun prev => newEntry newId timestamp :: prev) st in
    let st := setViewingAnalysisId (Some newId) st in
    let '(out, w') :=
      generatePortfolioAnalysis API_KEY generateContent JSON_parse
        (prompt1 (App.portfolio ledger) (App.liquidCash ledger)) schema1
        (prompt2 (App.portfolio ledger) (App.liquidCash ledger)) schema2 w in
    let st :=
      foldl (fun st partialData => setAnalysisHistory (merge newId partialData) st)
            st (onUpdateCalls (drop (List.length w) w')) in
    match out with
    | Returned _ => (setIsAnalyzing false st, w')
    | Thrown _ =>
        let st := setAnalysisError "Analysis unavailable. Try again later." st in
        let st :=
          setAnalysisHistory
            (fun prev => List.filter (fun item => negb (hasId newId item)) prev) st in
        let st := setViewingAnalysisId None st in
        (setIsAnalyzing false st, w')
    | OutOfFuel => (st, w')
    end.

(** [currentAnalysis], derived from the state at each render. *)
Definition currentAnalysis (st : State) : option AnalysisResult :=
  match viewingAnalysisId st with
  | Some v =>
      if JS.truthy v then List.find (hasId v) (analysisHistory st)
      else head (analysisHistory st)
  | None => head (analysisHistory st)
  end.

End Handler.

End AppAnalysis.

(** ** The forms of the ledger view ([components/PortfolioView.tsx]) *)

Module LedgerForms.

(** The state [newStock] of the add-stock form: the texts of its inputs. *)
Record NewStock : Type := mkNewStock {
  new_symbol : string;
  new_shares : string;
  new_price : string
}.

(** The state [newTransaction] of the transaction form. *)
Record NewTransaction : Type := mkNewTransaction {
  new_type : TransactionType;
  new_tx_shares : string;
  new_tx_price : string
}.

(** How [handleAddTransactionSubmit] ends: it returns at its first test, it
    raises the alert, or it calls [onUpdateStock]. *)
Inductive Submission : Type :=
| Ignored
| Refused
| Submitted (stockId : string) (transaction : Transaction).

Section Forms.

(** [Number(s)] of the language. *)
Variable StringToNumber : string -> number.

(** [handleAdd]: the argument of [onAddStock], [None] when it is not called;
    [now_ms] is [Date.now().toString()]. *)
Definition handleAdd (newStock : NewStock) (now_ms : string) : option StockPosition :=
  if negb (JS.truthy (new_symbol newStock)) || negb (JS.truthy (new_shares newStock))
     || negb (JS.truthy (new_price newStock))
  then None
  else
    Some {| id := now_ms;
            symbol := JS.toUpperCase (new_symbol newStock);
            shares := StringToNumber (new_shares newStock);
            avgBuyPrice := StringToNumber (new_price newStock);
            currentPrice := Some (StringToNumber (new_price newStock));
            companyName := None; sector := None;
            transactions := Some [] |}.

(** [handleAddTransactionSubmit]; [now_ms] and [now_iso] are the readings of
    the clock. *)
Definition handleAddTransactionSubmit (selectedStock : option StockPosition)
    (newTransaction : NewTransaction) (now_ms now_iso : string) : Submission :=
  match selectedStock with
  | None => Ignored
  | Some selectedStock =>
      if negb (JS.truthy (new_tx_shares newTransaction))
         || negb (JS.truthy (new_tx_price newTransaction))
      then Ignored
      else
        let shares_ := StringToNumber (new_tx_shares newTransaction) in
        let price := StringToNumber (new_tx_price newTransaction) in
        if match new_type newTransaction with SELL => true | BUY => false end
           && JS.gt shares_ (shares selectedStock)
        then Refused
        else
          Submitted (id selectedStock)
            {| tx_id := now_ms; tx_type := new_type newTransaction;
               tx_shares := shares_; tx_price := price; tx_date := now_iso |}
  end.

End Forms.

End LedgerForms.

(** ** The ledger view in the application ([App.tsx]) *)

Module Wiring.

Section Wiring.

Variable StringToNumber : string -> number.
Variable NumberToString : number -> string.
Variable randomId : nat -> string.
Variable isoNow : nat -> string.
Variable Date_getTime : string -> number.

(** [handleFileUpload] of the ledger view with [onImportStocks] bound to
    [handleImportStocks], as [App] renders it. *)
Definition importSheet (jsonData : list (list PortfolioView.Cell)) (st : App.State)
    : App.State :=
  match PortfolioView.handleFileUpload StringToNumber NumberToString randomId isoNow
          Date_getTime jsonData with
  | Some aggregatedStocks => App.handleImportStocks aggregatedStocks st
  | None => st
  end.

(** [handleAdd] with [onAddStock] bound to [handleAddStock]; the clock is
    read by the form, then by the handler. *)
Definition submitAdd (newStock : LedgerForms.NewStock) (form_ms now_ms now_iso : string)
    (st : App.State) : App.State :=
  match LedgerForms.handleAdd StringToNumber newStock form_ms with
  | Some stock => App.handleAddStock now_ms now_iso stock st
  | None => st
  end.

(** [handleAddTransactionSubmit] with [onUpdateStock] bound to
    [handleTransaction]. *)
Definition submitTransaction (selectedStock : option StockPosition)
    (newTransaction : LedgerForms.NewTransaction) (now_ms now_iso : string)
    (st : App.State) : App.State :=
  match LedgerForms.handleAddTransactionSubmit StringToNumber selectedStock
          newTransaction now_ms now_iso with
  | LedgerForms.Submitted stockId transaction =>
      App.handleTransaction Date_getTime stockId transaction st
  | _ => st
  end.

End Wiring.

End Wiring.
(** ** More of the numbers of the language *)

Module JSMath.

(** The truth value of a number in a condition. *)
Definition truthy (n : number) : bool := negb (JS.strict_eq n JS.zero || JS.isNaN n).

(** [a || b] on numbers. *)
Definition orElse (a b : number) : number := if truthy a then a else b.

(** [Math.floor(x)] *)
Definition Math_floor (x : number) : number :=
  match x with
  | Fin q => Fin (Qc_of_Z (Qfloor q))
  | _ => x
  end.

(** [Math.round(x)]: the nearest integer, a tie going up. *)
Definition Math_round (x : number) : number :=
  match x with
  | Fin q => Fin (Qc_of_Z (Qfloor (q + Q2Qc (1 # 2))%Qc))
  | _ => x
  end.

(** [Math.min(x, y)] *)
Definition Math_min (x y : number) : number :=
  match x, y with
  | NaN, _ | _, NaN => NaN
  | _, _ => if JS.lt y x then y else x
  end.

(** [l.reduce((acc, x) => acc + f(x), 0)] *)
Definition sumOf {A} (f : A -> number) (l : list A) : number :=
  foldl (fun acc x => JS.add acc (f x)) JS.zero l.

End JSMath.

(** ** The advisor view ([components/AdvisorView.tsx]) *)

Module AdvisorView.

(** An entry of [analysis.idealAllocation]. *)
Record IdealAllocation : Type := mkIdealAllocation {
  ideal_symbol : string;
  idealWeight : number;
  ideal_reason : string
}.

(** The state [rebalanceInflow]: the text of the input, or a number. *)
Inductive Inflow : Type :=
| InflowText (s : string)
| InflowNumber (n : number).

(** [{ ...stock, value, price }] *)
Record StockDetail : Type := mkStockDetail {
  stock : StockPosition;
  value : number;
  price : number
}.

Record Projection : Type := mkProjection {
  proj_symbol : string;
  currentWeight : number;
  proj_idealWeight : number;
  deficit : number;
  proj_price : number;
  reason : string
}.

(** [{ ...p, allocateAmount, buyShares }] *)
Record Suggestion : Type := mkSuggestion {
  projection : Projection;
  allocateAmount : number;
  buyShares : number
}.

(** [hasAnyData]: [analysis && Object.keys(analysis).length > 1] *)
Definition hasAnyData (analysis : option Gemini.AnalysisResult) : bool :=
  match analysis with
  | Some analysis => (1 <? size analysis)%nat
  | None => false
  end.

(** [sanitizeScore] *)
Definition sanitizeScore (score : number) : number :=
  if JS.le score (JS.of_Z 1) && JS.gt score JS.zero
  then JSMath.Math_round (JS.mul score (JS.of_Z 100))
  else JSMath.Math_round score.

Section Rebalancing.

(** [Number(s)] of the language. *)
Variable StringToNumber : string -> number.

(** The constant [inflow] of [rebalancingData]. *)
Definition inflowOf (rebalanceInflow : Inflow) : number :=
  match rebalanceInflow with
  | InflowText s => JSMath.orElse (StringToNumber s) JS.zero
  | InflowNumber n => n
  end.

Definition stockDetails (portfolio : list StockPosition) : list StockDetail :=
  map (fun stock =>
         let price :=
           match currentPrice stock with
           | Some c => JSMath.orElse c (avgBuyPrice stock)
           | None => avgBuyPrice stock
           end in
         let value := JS.mul price (shares stock) in
         {| stock := stock; value := value; price := price |})
      portfolio.

Definition project (idealAllocation : list IdealAllocation)
    (totalCurrentValue newTotalValue : number) (stock : StockDetail) : Projection :=
  let ideal :=
    List.find (fun i => String.eqb (ideal_symbol i) (symbol (AdvisorView.stock stock)))
              idealAllocation in
  let idealWeight :=
    match ideal with
    | Some ideal => JS.div (idealWeight ideal) (JS.of_Z 100)
    | None => JS.zero
    end in
  let targetValue := JS.mul newTotalValue idealWeight in
  let deficit := JS.Math_max JS.zero (JS.sub targetValue (value stock)) in
  let currentWeight :=
    if JS.gt totalCurrentValue JS.zero
    then JS.mul (JS.div (value stock) totalCurrentValue) (JS.of_Z 100)
    else JS.zero in
  {| proj_symbol := symbol (AdvisorView.stock stock);
     currentWeight := currentWeight;
     proj_idealWeight := JS.mul idealWeight (JS.of_Z 100);
     deficit := deficit;
     proj_price := price stock;
     reason := match ideal with Some ideal => ideal_reason ideal | None => "" end |}.

Definition suggest (inflow totalDeficit : number) (p : Projection) : Suggestion :=
  let allocateAmount :=
    if JS.gt totalDeficit JS.zero
    then JS.mul inflow (JS.div (deficit p) totalDeficit)
    else JS.zero in
  {| projection := p;
     allocateAmount := allocateAmount;
     buyShares :=
       if JS.gt (proj_price p) JS.zero
       then JSMath.Math_floor (JS.div allocateAmount (proj_price p))
       else JS.zero |}.

(** [rebalancingData]; [idealAllocation] is [analysis?.idealAllocation],
    [None] when the analysis or the field is missing. *)
Definition rebalancingData (idealAllocation : option (list IdealAllocation))
    (portfolio : list StockPosition) (rebalanceInflow : Inflow)
    : option (list Suggestion) :=
  match idealAllocation with
  | None => None
  | Some idealAllocation =>
      let inflow := inflowOf rebalanceInflow in
      let stockDetails := stockDetails portfolio in
      let totalCurrentValue := JSMath.sumOf value stockDetails in
      let newTotalValue := JS.add totalCurrentValue inflow in
      let projections :=
        map (project idealAllocation totalCurrentValue newTotalValue) stockDetails in
      let totalDeficit := JSMath.sumOf deficit projections in
      let suggestions := map (suggest inflow totalDeficit) projections in
      Some (App.sort
              (fun a b => JS.sub (proj_idealWeight (projection b))
                                 (proj_idealWeight (projection a)))
              suggestions)
  end.

End Rebalancing.

End AdvisorView.
(** ** The overview ([components/Dashboard.tsx]) *)

Module Dashboard.

(** A slice of the allocation chart. *)
Record Slice : Type := mkSlice {
  name : string;
  value : number
}.

(** [stock.currentPrice || stock.avgBuyPrice] *)
Definition marketPrice (stock : StockPosition) : number :=
  match currentPrice stock with
  | Some c => JSMath.orElse c (avgBuyPrice stock)
  | None => avgBuyPrice stock
  end.

Definition stockValue (portfolio : list StockPosition) : number :=
  JSMath.sumOf (fun stock => JS.mul (shares stock) (marketPrice stock)) portfolio.

Definition totalValue (portfolio : list StockPosition) (liquidCash : number) : number :=
  JS.add (stockValue portfolio) liquidCash.

Definition totalCost (portfolio : list StockPosition) : number :=
  JSMath.sumOf (fun stock => JS.mul (shares stock) (avgBuyPrice stock)) portfolio.

Definition gain (portfolio : list StockPosition) : number :=
  JS.sub (stockValue portfolio) (totalCost portfolio).

Definition gainPercent (portfolio : list StockPosition) : number :=
  if JSMath.truthy (totalCost portfolio)
  then JS.mul (JS.div (gain portfolio) (totalCost portfolio)) (JS.of_Z 100)
  else JS.zero.

(** [stock.sector || 'Uncategorized'] *)
Definition sectorOf (stock : StockPosition) : string :=
  match sector stock with
  | Some s => if JS.truthy s then s else "Uncategorized"
  | None => "Uncategorized"
  end.

(** The body of the callback of [reduce]: the first slice named [sector]
    grows by [v], or a new slice is pushed. *)
Fixpoint addTo (sector : string) (v : number) (acc : list Slice) : list Slice :=
  match acc with
  | [] => [{| name := sector; value := v |}]
  | i :: acc' =>
      if String.eqb (name i) sector
      then {| name := name i; value := JS.add (value i) v |} :: acc'
      else i :: addTo sector v acc'
  end.

(** [sectorData] as [reduce] leaves it. *)
Definition bySector (portfolio : list StockPosition) : list Slice :=
  foldl (fun acc stock =>
           addTo (sectorOf stock) (JS.mul (marketPrice stock) (shares stock)) acc)
        [] portfolio.

(** [sectorData] as the chart reads it, after the [push] of the cash. *)
Definition sectorData (portfolio : list StockPosition) (liquidCash : number)
    : list Slice :=
  if JS.gt liquidCash JS.zero
  then bySector portfolio ++ [{| name := "Liquid Cash"; value := liquidCash |}]
  else bySector portfolio.

Definition diversityScore (portfolio : list StockPosition) (liquidCash : number)
    : number :=
  JSMath.Math_min
    (JS.mul (JS.of_Z (Z.of_nat (List.length (sectorData portfolio liquidCash))))
            (JS.of_Z 20))
    (JS.of_Z 100).

Definition winners (portfolio : list StockPosition) : nat :=
  List.length (List.filter (fun s => JS.gt (marketPrice s) (avgBuyPrice s)) portfolio).

Definition losers (portfolio : list StockPosition) : nat :=
  List.length (List.filter (fun s => JS.lt (marketPrice s) (avgBuyPrice s)) portfolio).

End Dashboard.
(** ** The simulation of an addition ([services/geminiService.ts],
    [components/AdvisorView.tsx]) *)

Module Simulation.

Import Gemini.

(** The state [simStock] of the form: the texts of its inputs. *)
Record SimStock : Type := mkSimStock {
  sim_symbol : string;
  sim_shares : string;
  sim_price : string
}.

(** The part of the state of the view that [handleSimulate] writes. *)
Record State : Type := mkState {
  simulationResult : option json;
  isSimulating : bool
}.

Section Service.

Variable API_KEY : option string.
Variable generateContent : nat -> string -> Response + Error.
Variable JSON_parse : string -> option json.
Variable StringToNumber : string -> number.

(** The prompt of [simulatePortfolioAddition], as a function of the portfolio
    and of the symbol, the shares and the price of the addition (the strategy
    is fixed), and [JSON.stringify(schema, null, 2)]. *)
Variable simulationPrompt : list StockPosition -> string -> number -> number -> string.
Variable simulationSchema : string.

(** [simulatePortfolioAddition] *)
Definition simulatePortfolioAddition (portfolio : list StockPosition)
    (symbol_ : string) (shares_ price : number) : M json :=
  r <- fetchGeminiResponse API_KEY generateContent JSON_parse
         (simulationPrompt portfolio symbol_ shares_ price) simulationSchema ;;
  ret r.1.

(** [handleSimulate]; [w] holds the effects so far. *)
Definition handleSimulate (portfolio : list StockPosition) (simStock : SimStock)
    (st : State) (w : World) : State * World :=
  if negb (JS.truthy (sim_symbol simStock)) || negb (JS.truthy (sim_shares simStock))
     || negb (JS.truthy (sim_price simStock))
  then (st, w)
  else
    let st := {| simulationResult := simulationResult st; isSimulating := true |} in
    match simulatePortfolioAddition portfolio
            (JS.toUpperCase (sim_symbol simStock))
            (StringToNumber (sim_shares simStock))
            (StringToNumber (sim_price simStock)) w with
    | (Returned result, w') =>
        ({| simulationResult := Some result; isSimulating := false |}, w')
    | (Thrown e, w') =>
        ({| simulationResult := simulationResult st; isSimulating := false |},
         w' ++ [ConsoleError (default "" (message e))])
    | (OutOfFuel, w') => (st, w')
    end.

End Service.

End Simulation.

(** ** The keyboard navigation ([App.tsx]) *)

Module Navigation.

Inductive TabView : Type := dashboard | portfolio | advisor | market.

Definition TabView_eqb (a b : TabView) : bool :=
  match a, b with
  | dashboard, dashboard | portfolio, portfolio
  | advisor, advisor | market, market => true
  | _, _ => false
  end.

Definition TABS : list TabView := [dashboard; portfolio; advisor; market].

Inductive Key : Type := ArrowDown | ArrowUp | OtherKey.

(** [TABS.indexOf(tab)] *)
Fixpoint indexOf (l : list TabView) (tab : TabView) : Z :=
  match l with
  | [] => (-1)%Z
  | t :: l' =>
      if TabView_eqb t tab then 0%Z
      else
        let i := indexOf l' tab in
        if (i <? 0)%Z then (-1)%Z else (i + 1)%Z
  end.

(** [l[i]]; [None] is [undefined]. *)
Definition at_ (l : list TabView) (i : Z) : option TabView :=
  if (i <? 0)%Z then None else l !! Z.to_nat i.

(** [handleKeyDown]: the argument of [setActiveTab], [None] when it is not
    called; [tagName] is the tag of the target of the event. *)
Definition handleKeyDown (activeTab : TabView) (tagName : string) (key : Key)
    : option (option TabView) :=
  if String.eqb tagName "INPUT" || String.eqb tagName "TEXTAREA" then None
  else
    let currentIndex := indexOf TABS activeTab in
    match key with
    | ArrowDown =>
        let nextIndex := Z.min (currentIndex + 1) (Z.of_nat (List.length TABS) - 1) in
        Some (at_ TABS nextIndex)
    | ArrowUp =>
        let prevIndex := Z.max (currentIndex - 1) 0 in
        Some (at_ TABS prevIndex)
    | OtherKey => None
    end.

(** The active tab after the event. *)
Definition press (tagName : string) (key : Key) (activeTab : TabView)
    : option TabView :=
  match handleKeyDown activeTab tagName key with
  | Some tab => tab
  | None => Some activeTab
  end.

End Navigation.

(** * Vocabulary of the properties *)

(** *** The ledger *)

(** The rational a finite number stands for. *)
Definition finite (x : number) : Qc :=
  match x with Fin q => q | _ => 0 end.

Definition sumQc (l : list Qc) : Qc := foldr Qcplus 0 l.

(** The ref holds the portfolio of the last committed render. *)
Definition synced (st : App.State) : Prop :=
  App.portfolioRef st = App.portfolio st.

(** [e] is a buy for the position [p]: a BUY transaction for the id of [p], or
    an added stock whose symbol is that of [p] up to case. *)
Definition buyFor (p : StockPosition) (e : App.Event) : Prop :=
  match e with
  | App.Transact stockId t => stockId = id p /\ tx_type t = BUY
  | App.AddStock _ _ stock =>
      JS.toUpperCase (symbol stock) = JS.toUpperCase (symbol p)
  | _ => False
  end.

(** The share count and the price per share that a buy brings. *)
Definition purchase (e : App.Event) : number * number :=
  match e with
  | App.Transact _ t => (tx_shares t, tx_price t)
  | App.AddStock _ _ stock => (shares stock, avgBuyPrice stock)
  | _ => (JS.zero, JS.zero)
  end.

(** The share count and the average cost of a holding once a purchase is
    counted in: the cost of both, over the shares of both. *)
Definition afterPurchase (held bought : number * number) : number * number :=
  (JS.add held.1 bought.1,
   JS.div (JS.add (JS.mul held.1 held.2) (JS.mul bought.1 bought.2))
          (JS.add held.1 bought.1)).

(** No position before index [i] carries the symbol [sym], up to case. *)
Definition firstWithSymbol (sym : string) (i : nat) (l : list StockPosition) : Prop :=
  forall j q, (j < i)%nat -> l !! j = Some q ->
    JS.toUpperCase (symbol q) <> JS.toUpperCase sym.

(** The position at index [i] is the first one of the symbol of [p0], has the
    id of [p0], and holds [held]. *)
Definition tracks (p0 : StockPosition) (i : nat) (held : number * number)
    (st : App.State) : Prop :=
  exists p,
    App.portfolio st !! i = Some p
    /\ id p = id p0 /\ symbol p = symbol p0
    /\ firstWithSymbol (symbol p0) i (App.portfolio st)
    /\ (shares p, avgBuyPrice p) = held.

(** *** The AI client *)

(** An API key is configured. *)
Definition configured (API_KEY : option string) : bool :=
  match API_KEY with Some apiKey => JS.truthy apiKey | None => false end.

(** What the [n]-th request of a run comes to once its answer is parsed: the
    data and the response, or the error that the [catch] block receives. *)
Definition attemptResult (generateContent : nat -> string -> Gemini.Response + Gemini.Error)
    (JSON_parse : string -> option Gemini.json) (n : nat) (contents : string)
    : (Gemini.json * Gemini.Response) + Gemini.Error :=
  match generateContent n contents with
  | inr error => inr error
  | inl response =>
      match JSON_parse (Gemini.extractJson (Gemini.text response)) with
      | Some data => inl (data, response)
      | None => inr (Gemini.new_Error "Invalid JSON format received from AI")
      end
  end.

(** The effects of that attempt. *)
Definition attemptTrace (generateContent : nat -> string -> Gemini.Response + Gemini.Error)
    (JSON_parse : string -> option Gemini.json) (n : nat) (contents : string)
    : list Gemini.Effect :=
  Gemini.Request contents ::
  match generateContent n contents with
  | inr _ => []
  | inl response =>
      match JSON_parse (Gemini.extractJson (Gemini.text response)) with
      | Some _ => []
      | None => [Gemini.ConsoleWarn "JSON Parse failed on attempt"]
      end
  end.

(** What separates a failed attempt, the [attempts]-th, from the next one. *)
Definition gap (attempts : nat) (error : Gemini.Error) : list Gemini.Effect :=
  if Gemini.isRateLimit error
  then [Gemini.ConsoleWarn "Gemini Rate Limit hit. Retrying";
        Gemini.Wait (3000 * attempts)]
  else [Gemini.ConsoleError "Gemini analysis failed"].

(** *** The text of a response *)

(** The code unit [c] occurs in [s]. *)
Fixpoint occurs (c : ascii) (s : string) : bool :=
  match s with
  | EmptyString => false
  | String a s' => Ascii.eqb a c || occurs c s'
  end.

(** The two replacements of the clean-up. *)
Definition stripFences (s : string) : string :=
  JS.removeAll "```" (JS.removeAll "```json" s).

(** *** The analysis *)

(** The results that [onUpdate] received, in order. *)
Definition updates (w : Gemini.World) : list Gemini.AnalysisResult :=
  omap (fun e => match e with Gemini.Update r => Some r | _ => None end) w.

(** The value that [...data] gives the key [k]: that of the last own property
    of [data] with this key, if any. *)
Definition property (k : string) (data : Gemini.json) : option Gemini.json :=
  foldl (fun acc kv => if String.eqb kv.1 k then Some kv.2 else acc)
        None (Gemini.ownProperties data).

(** The value of the key [k] in an object written with the members [fields]:
    that of the last member named [k]. *)
Fixpoint lastNamed (k : string) (fields : list (string * Gemini.json))
    : option Gemini.json :=
  match fields with
  | [] => None
  | (k', v) :: rest =>
      match lastNamed k rest with
      | Some v' => Some v'
      | None => if String.eqb k' k then Some v else None
      end
  end.

(** *** The import *)

Section ImportVocabulary.

Variable StringToNumber : string -> number.
Variable NumberToString : number -> string.

(** The symbol, the quantity and the cost that the import reads in a row. *)
Definition rowSymbol (row : list PortfolioView.Cell) : string :=
  JS.trim (JS.toUpperCase
             (PortfolioView.String_ NumberToString (PortfolioView.at_ row 0))).

Definition rowQty (row : list PortfolioView.Cell) : number :=
  PortfolioView.Number StringToNumber (PortfolioView.at_ row 1).

Definition rowCost (row : list PortfolioView.Cell) : number :=
  PortfolioView.Number StringToNumber (PortfolioView.at_ row 2).

(** The row passes the tests of the import. *)
Definition accepted (row : list PortfolioView.Cell) : bool :=
  (3 <=? List.length row)%nat
  && JS.truthy (rowSymbol row)
  && negb (JS.isNaN (rowQty row)) && negb (JS.isNaN (rowCost row))
  && JS.gt (rowQty row) JS.zero.

(** The row is an accepted row for the symbol [sym]. *)
Definition carries (sym : string) (row : list PortfolioView.Cell) : bool :=
  accepted row && String.eqb (rowSymbol row) sym.

(** The quantity and the cost of each accepted row for [sym], in order. *)
Definition purchases (sym : string) (rows : list (list PortfolioView.Cell))
    : list (Qc * Qc) :=
  map (fun row => (finite (rowQty row), finite (rowCost row)))
      (List.filter (carries sym) rows).

(** The quantity and the cost of the row are finite numbers. *)
Definition finiteRow (row : list PortfolioView.Cell) : bool :=
  JS.isFinite (rowQty row) && JS.isFinite (rowCost row).

End ImportVocabulary.

(** The shares and the cost of a list of purchases. *)
Definition sharesOf (ps : list (Qc * Qc)) : Qc := sumQc (map fst ps).
Definition costOf (ps : list (Qc * Qc)) : Qc := sumQc (map (fun p => p.1 * p.2) ps).

(** The keys of the map are distinct and each position sits under its
    symbol. *)
Definition wellKeyed (m : PortfolioView.StockMap) : Prop :=
  NoDup (map fst m) /\ Forall (fun kv => symbol kv.2 = kv.1) m.

(** What the map holds for the symbol [sym] once the purchases [ps] have
    been read: nothing when there is none, else a position with their shares
    and a cost basis equal to their cost. *)
Definition tallies (sym : string) (ps : list (Qc * Qc)) (m : PortfolioView.StockMap)
    : Prop :=
  match ps with
  | [] => PortfolioView.map_get sym m = None
  | _ =>
      exists v A,
        PortfolioView.map_get sym m = Some v
        /\ shares v = Fin (sharesOf ps) /\ avgBuyPrice v = Fin A
        /\ sharesOf ps * A = costOf ps /\ 0 < sharesOf ps
  end.

(** *** Sample data *)

Module Sample.

(** A clock for which every date string is the same instant. *)
Definition sameInstant (date : string) : number := JS.zero.

Definition engro : StockPosition :=
  {| id := "1"; symbol := "ENGRO"; shares := JS.of_Z 10;
     avgBuyPrice := JS.of_Z 100; currentPrice := Some (JS.of_Z 100);
     companyName := None; sector := None; transactions := Some [] |}.

Definition engroRepriced : StockPosition :=
  {| id := "1"; symbol := "ENGRO"; shares := JS.of_Z 10;
     avgBuyPrice := JS.of_Z 100; currentPrice := Some (JS.of_Z 130);
     companyName := Some "Engro Corporation"; sector := Some "Fertilizer";
     transactions := Some [] |}.

Definition moreEngro : StockPosition :=
  {| id := "3"; symbol := "engro"; shares := JS.of_Z 20;
     avgBuyPrice := JS.of_Z 150; currentPrice := Some (JS.of_Z 150);
     companyName := None; sector := None; transactions := Some [] |}.

Definition buy10at200 : Transaction :=
  {| tx_id := "2"; tx_type := BUY; tx_shares := JS.of_Z 10;
     tx_price := JS.of_Z 200; tx_date := "2024-01-02T00:00:00.000Z" |}.


(** A position sold out, and a purchase of no share. *)
Definition soldOut : StockPosition :=
  {| id := "9"; symbol := "LUCK"; shares := JS.zero; avgBuyPrice := JS.zero;
     currentPrice := None; companyName := None; sector := None;
     transactions := Some [] |}.

Definition buy0at5 : Transaction :=
  {| tx_id := "10"; tx_type := BUY; tx_shares := JS.zero;
     tx_price := JS.of_Z 5; tx_date := "2024-01-05T00:00:00.000Z" |}.

Definition ledger : App.State :=
  {| App.portfolio := [engro]; App.liquidCash := JS.of_Z 100;
     App.portfolioRef := [engro]; App.isRefreshing := false;
     App.refreshRequests := [] |}.

Definition serverError : Gemini.Error :=
  {| Gemini.status := Some (JS.of_Z 500); Gemini.message := Some "Internal error" |}.


Definition emptyAnswer : Gemini.Response :=
  {| Gemini.text := Some "{}"; Gemini.groundingChunks := None |}.

(** A service whose first answer is an error that is no rate limit. *)
Definition failsOnce (n : nat) (contents : string) : Gemini.Response + Gemini.Error :=
  if (n =? 0)%nat then inr serverError else inl emptyAnswer.

(** A service that fails three times before it answers. *)
Definition downThenUp (n : nat) (contents : string) : Gemini.Response + Gemini.Error :=
  if (n <? 3)%nat then inr serverError else inl emptyAnswer.


Definition quote : string := String "034" EmptyString.

Definition scoreBody : string := quote +:+ "score" +:+ quote +:+ ": 85".

Definition fencedAnswer : Gemini.Response :=
  {| Gemini.text :=
       Some ("Here is the analysis: ```json " +:+ ("{" +:+ scoreBody +:+ "}")
             +:+ " ``` Hope this helps.");
     Gemini.groundingChunks := None |}.

Definition fenced (n : nat) (contents : string) : Gemini.Response + Gemini.Error :=
  inl fencedAnswer.

(** A parser that knows the two objects of the samples. *)
Definition parse (s : string) : option Gemini.json :=
  if String.eqb s "{}" then Some (Gemini.JObject [])
  else if String.eqb s ("{" +:+ scoreBody +:+ "}")
       then Some (Gemini.JObject [("score", Gemini.JNumber (JS.of_Z 85))])
       else None.

(** A sheet with a header and two rows for one symbol. *)
Definition sheet : list (list PortfolioView.Cell) :=
  [ [PortfolioView.CString "Symbol"; PortfolioView.CString "Qty";
     PortfolioView.CString "Cost"];
    [PortfolioView.CString "ENGRO"; PortfolioView.CNumber (JS.of_Z 10);
     PortfolioView.CNumber (JS.of_Z 100)];
    [PortfolioView.CString " engro"; PortfolioView.CNumber (JS.of_Z 10);
     PortfolioView.CNumber (JS.of_Z 200)] ].

Definition badRow : list PortfolioView.Cell :=
  [PortfolioView.CString "LUCK"; PortfolioView.CString "ten";
   PortfolioView.CNumber (JS.of_Z 700)].

(** Conversions that know no numeral. *)
Definition noNumber (s : string) : number := NaN.
Definition noText (n : number) : string := "".

Definition ids (n : nat) : string := pretty n.
Definition dates (n : nat) : string := "2024-01-01T00:00:00.000Z".

(** A purchase of ten shares at 100, and a ledger whose only position is sold
    out. *)
Definition buy10at100 : Transaction :=
  {| tx_id := "11"; tx_type := BUY; tx_shares := JS.of_Z 10;
     tx_price := JS.of_Z 100; tx_date := "2024-01-06T00:00:00.000Z" |}.

Definition emptied : App.State :=
  {| App.portfolio := [soldOut]; App.liquidCash := JS.of_Z 2000;
     App.portfolioRef := [soldOut]; App.isRefreshing := false;
     App.refreshRequests := [] |}.

(** A service that answers, with a score, once three requests have failed. *)
Definition lateAnswer (n : nat) (contents : string)
    : Gemini.Response + Gemini.Error :=
  if (n <? 3)%nat then inr serverError else inl fencedAnswer.

(** An answer in a fence whose object names the fence in a text, and a
    parser that knows this object once the markers are removed. *)
Definition noteBody : string :=
  quote +:+ "note" +:+ quote +:+ ": "
  +:+ quote +:+ "no ```json fence" +:+ quote.

Definition notedAnswer : Gemini.Response :=
  {| Gemini.text := Some ("```json " +:+ ("{" +:+ noteBody +:+ "}") +:+ " ```");
     Gemini.groundingChunks := None |}.

Definition answersNoted (n : nat) (contents : string)
    : Gemini.Response + Gemini.Error :=
  inl notedAnswer.

Definition parseNote (s : string) : option Gemini.json :=
  if String.eqb s ("{" +:+ quote +:+ "note" +:+ quote +:+ ": "
                   +:+ quote +:+ "no  fence" +:+ quote +:+ "}")
  then Some (Gemini.JObject [("note", Gemini.JString "no  fence")])
  else None.

(** A row whose quantity is a boolean and a row whose cost is [null]. *)
Definition coercedRows : list (list PortfolioView.Cell) :=
  [ [PortfolioView.CString "OGDC"; PortfolioView.CBool true;
     PortfolioView.CNumber (JS.of_Z 3)];
    [PortfolioView.CString "PSX"; PortfolioView.CNumber (JS.of_Z 3);
     PortfolioView.CNull] ].

End Sample.

(** *** The effects of a call *)

(** The milliseconds spent in [wait]. *)
Definition waited (w : Gemini.World) : nat :=
  foldr (fun e acc => match e with Gemini.Wait ms => (ms + acc)%nat | _ => acc end)
        0%nat w.

(** The sources that [extractSources] finds in a response. *)
Definition found (response : Gemini.Response) : list Gemini.WebSource :=
  omap Gemini.web (default [] (Gemini.groundingChunks response)).

(** What the analysis reports for Phase 1, and for Phase 2 after a Phase 1
    that ended with [out1]. *)
Definition report1 (r1 : Gemini.json * Gemini.Response) : Gemini.AnalysisResult :=
  <["sources" := Gemini.sourcesJson (found r1.2)]> (Gemini.spread ∅ r1.1).

Definition sourcesOf (out1 : Gemini.Outcome (Gemini.json * Gemini.Response))
    : list Gemini.WebSource :=
  match out1 with Gemini.Returned r1 => found r1.2 | _ => [] end.

Definition report2 (out1 : Gemini.Outcome (Gemini.json * Gemini.Response))
    (r2 : Gemini.json * Gemini.Response) : Gemini.AnalysisResult :=
  <["sources" :=
      Gemini.sourcesJson (Gemini.uniqueByUri (sourcesOf out1 ++ found r2.2))]>
    (Gemini.spread
       (match out1 with Gemini.Returned r1 => report1 r1 | _ => ∅ end) r2.1).

Definition mark1 (out1 : Gemini.Outcome (Gemini.json * Gemini.Response))
    : Gemini.Effect :=
  match out1 with
  | Gemini.Returned r1 => Gemini.Update (report1 r1)
  | _ => Gemini.ConsoleError "Phase 1 analysis failed"
  end.

Definition mark2 (out1 out2 : Gemini.Outcome (Gemini.json * Gemini.Response))
    : Gemini.Effect :=
  match out2 with
  | Gemini.Returned r2 => Gemini.Update (report2 out1 r2)
  | _ => Gemini.ConsoleWarn "Phase 2 analysis failed"
  end.

(** *** The price refresh *)

(** [p] holds what [pos] holds: the same id, symbol, shares, average cost and
    transactions. *)
Definition sameHolding (pos : StockPosition) (p : GeminiService.PricedPosition) : Prop :=
  GeminiService.pp_id p = id pos
  /\ GeminiService.pp_symbol p = symbol pos
  /\ GeminiService.pp_shares p = shares pos
  /\ GeminiService.pp_avgBuyPrice p = avgBuyPrice pos
  /\ GeminiService.pp_transactions p = transactions pos.

(** The new value of a field is the old one, or a value of the answer that
    counts as true. *)
Definition keptOrTruthy (old new : option Gemini.json) : Prop :=
  new = old \/ exists v, new = Some v /\ GeminiService.truthy v = true.

Definition sameOrBetterDetails (pos : StockPosition)
    (p : GeminiService.PricedPosition) : Prop :=
  keptOrTruthy (Gemini.JNumber <$> currentPrice pos) (GeminiService.pp_currentPrice p)
  /\ keptOrTruthy (Gemini.JString <$> companyName pos) (GeminiService.pp_companyName p)
  /\ keptOrTruthy (Gemini.JString <$> sector pos) (GeminiService.pp_sector p).

(** The entry [u] of an answer has no text under [symbol]. *)
Definition nameless (u : Gemini.json) : Prop :=
  match u with
  | Gemini.JObject fields =>
      match lastNamed "symbol" fields with
      | Some (Gemini.JString _) => False
      | _ => True
      end
  | _ => True
  end.

(** The answer [data] of the price request cannot be read: it is [null]; or
    it is an object whose [stocks] is a true value and no array; or its
    [stocks] is an array whose first entry has no text under [symbol]. *)
Definition unreadable (data : Gemini.json) : Prop :=
  data = Gemini.JNull
  \/ (exists fields v,
        data = Gemini.JObject fields
        /\ lastNamed "stocks" fields = Some v
        /\ GeminiService.truthy v = true
        /\ forall items, v <> Gemini.JArray items)
  \/ (exists fields u rest,
        data = Gemini.JObject fields
        /\ lastNamed "stocks" fields = Some (Gemini.JArray (u :: rest))
        /\ nameless u).

(** *** The ledger as a whole *)

(** The symbol of a position, up to case. *)
Definition ticker (p : StockPosition) : string := JS.toUpperCase (symbol p).

(** No two positions carry the same symbol, up to case. *)
Definition distinctSymbols (l : list StockPosition) : Prop := NoDup (map ticker l).

(** The portfolios that an event brings from outside have distinct symbols. *)
Definition bringsDistinct (e : App.Event) : Prop :=
  match e with
  | App.ImportStocks stocks => distinctSymbols stocks
  | App.RefreshSettled (Some updated) => distinctSymbols updated
  | _ => True
  end.

(** The time value of the date of a transaction. *)
Definition timeOf (Date_getTime : string -> number) (t : Transaction) : number :=
  Date_getTime (tx_date t).

(** No transaction of the list is older than one that follows it. *)
Definition newestFirst (Date_getTime : string -> number) (l : list Transaction) : Prop :=
  StronglySorted
    (fun a b => JS.le (timeOf Date_getTime b) (timeOf Date_getTime a) = true) l.

(** Every date of the list is a date. *)
Definition dated (Date_getTime : string -> number) (l : list Transaction) : Prop :=
  Forall (fun t => JS.isFinite (timeOf Date_getTime t) = true) l.

(** *** The analysis handler *)

(** The handler refuses to run: there is no position and no cash. *)
Definition nothingToAnalyse (ledger : App.State) : bool :=
  (List.length (App.portfolio ledger) =? 0)%nat
  && JS.strict_eq (App.liquidCash ledger) JS.zero.

(** The entry of a run once the partial results [ps] have reached it. *)
Definition filled (newId : string) (entry : Gemini.AnalysisResult)
    (ps : list Gemini.AnalysisResult) : Gemini.AnalysisResult :=
  foldl (fun item p => if AppAnalysis.hasId newId item then p ∪ item else item)
        entry ps.

(** *** The import as a whole *)

(** The number of transactions that a list of positions holds. *)
Definition txCount (l : list StockPosition) : nat :=
  sum_list (map (fun p => List.length (default [] (transactions p))) l).
(** What holds of every position of the map: its symbol is not empty and is
    its own upper case, its share count is positive. *)
Definition sound (p : StockPosition) : Prop :=
  JS.truthy (symbol p) = true
  /\ JS.toUpperCase (symbol p) = symbol p
  /\ JS.gt (shares p) JS.zero = true.
(** *** The rebalancing *)

(** The numbers of a position are finite. *)
Definition finitePosition (p : StockPosition) : bool :=
  JS.isFinite (shares p) && JS.isFinite (avgBuyPrice p)
  && match currentPrice p with Some c => JS.isFinite c | None => true end.

(** A suggestion for an inflow [a] allocates a part of the inflow, nothing
    when the position has no deficit, and buys a whole number of shares: not
    negative, not above the amount over the price, and zero when nothing is
    allocated or the price is not positive. *)
Definition withinInflow (a : Qc) (s : AdvisorView.Suggestion) : Prop :=
  let price := AdvisorView.proj_price (AdvisorView.projection s) in
  exists (x : Qc) (n : Z),
    AdvisorView.allocateAmount s = Fin x /\ 0 <= x /\ x <= a
    /\ AdvisorView.buyShares s = Fin (Qc_of_Z n) /\ (0 <= n)%Z
    /\ (AdvisorView.deficit (AdvisorView.projection s) = JS.zero -> x = 0)
    /\ (x = 0 -> n = 0%Z)
    /\ (JS.gt price JS.zero = false -> n = 0%Z)
    /\ (JS.gt price JS.zero = true ->
        JS.le (AdvisorView.buyShares s)
              (JS.div (AdvisorView.allocateAmount s) price) = true).

(** No suggestion of the list has a smaller ideal weight than one that
    follows it. *)
Definition largestWeightFirst (l : list AdvisorView.Suggestion) : Prop :=
  StronglySorted
    (fun s t =>
       JS.le (AdvisorView.proj_idealWeight (AdvisorView.projection t))
             (AdvisorView.proj_idealWeight (AdvisorView.projection s)) = true) l.

(** *** The overview *)

(** The value of the positions of the sector [sec]: their market values,
    added one after the other in the order of the portfolio; [None] when the
    sector has no position. *)
Definition sectorValue (sec : string) (portfolio : list StockPosition)
    : option number :=
  match List.filter (fun p => String.eqb (Dashboard.sectorOf p) sec) portfolio with
  | [] => None
  | p :: rest =>
      Some (foldl (fun acc q => JS.add acc (JS.mul (Dashboard.marketPrice q) (shares q)))
                  (JS.mul (Dashboard.marketPrice p) (shares p)) rest)
  end.

(** The slices [slices] group the positions [done] by sector: one slice for
    each sector, with the value of its positions. *)
Definition grouped (done : list StockPosition) (slices : list Dashboard.Slice)
    : Prop :=
  NoDup (map Dashboard.name slices)
  /\ (forall n, n ∈ map Dashboard.name slices <-> n ∈ map Dashboard.sectorOf done)
  /\ forall i, i ∈ slices ->
       sectorValue (Dashboard.name i) done = Some (Dashboard.value i).

(** *** More sample data *)

Module Scenario.

(** A reader of whole numbers written in decimal digits. *)
Fixpoint digits (s : string) (acc : Z) : option Z :=
  match s with
  | EmptyString => Some acc
  | String c s' =>
      let n := Z.of_nat (nat_of_ascii c) in
      if (48 <=? n)%Z && (n <=? 57)%Z then digits s' (10 * acc + (n - 48))%Z
      else None
  end.

Definition wholeNumber (s : string) : number :=
  match digits s 0 with
  | Some z => JS.of_Z z
  | None => NaN
  end.

Definition luck : StockPosition :=
  {| id := "7"; symbol := "luck"; shares := JS.of_Z 5;
     avgBuyPrice := JS.of_Z 700; currentPrice := None;
     companyName := None; sector := None; transactions := Some [] |}.

(** The transaction form filled for a sale of four shares at 120. *)
Definition sellFour : LedgerForms.NewTransaction :=
  {| LedgerForms.new_type := SELL; LedgerForms.new_tx_shares := "4";
     LedgerForms.new_tx_price := "120" |}.

Definition sixtyPercent : AdvisorView.IdealAllocation :=
  {| AdvisorView.ideal_symbol := "ENGRO"; AdvisorView.idealWeight := JS.of_Z 60;
     AdvisorView.ideal_reason := "core holding" |}.

(** No analysis was run yet. *)
Definition noAnalysis : AppAnalysis.State :=
  {| AppAnalysis.analysisHistory := []; AppAnalysis.viewingAnalysisId := None;
     AppAnalysis.isAnalyzing := false; AppAnalysis.analysisError := "" |}.

Definition noPrompt (portfolio : list StockPosition) (liquidCash : number) : string := "".

(** An answer whose only stock has a number for a symbol, and a parser that
    knows it. *)
Definition namelessBody : string :=
  Sample.quote +:+ "stocks" +:+ Sample.quote +:+ ": [{"
  +:+ Sample.quote +:+ "symbol" +:+ Sample.quote +:+ ": 5}]".

Definition namelessAnswer : Gemini.Response :=
  {| Gemini.text := Some ("{" +:+ namelessBody +:+ "}");
     Gemini.groundingChunks := None |}.

Definition answersNameless (n : nat) (contents : string)
    : Gemini.Response + Gemini.Error :=
  inl namelessAnswer.

Definition parseStocks (s : string) : option Gemini.json :=
  if String.eqb s ("{" +:+ namelessBody +:+ "}")
  then Some (Gemini.JObject
               [("stocks",
                 Gemini.JArray
                   [Gemini.JObject [("symbol", Gemini.JNumber (JS.of_Z 5))]])])
  else None.

End Scenario.

(** * Properties *)

(** ** Numbers *)

Section NumberFacts.

Lemma Qc_ltb_lt a b : JS.Qc_ltb a b = true <-> a < b.
Proof. unfold JS.Qc_ltb. rewrite Qclt_alt. destruct (a ?= b); split; congruence. Qed.

Lemma Qc_eqb_eq a b : JS.Qc_eqb a b = true <-> a = b.
Proof.
  unfold JS.Qc_eqb. rewrite Qceq_alt. destruct (a ?= b); split; congruence.
Qed.

Lemma Qc_eqb_neq a b : JS.Qc_eqb a b = false <-> a <> b.
Proof. rewrite <- Qc_eqb_eq. destruct (JS.Qc_eqb a b); split; congruence. Qed.




Lemma div_finite a b : b <> 0 -> JS.div (Fin a) (Fin b) = Fin (a / b).
Proof. intros Hb. simpl. apply Qc_eqb_neq in Hb. now rewrite Hb. Qed.

End NumberFacts.

(** ** The ledger *)

Section LedgerFacts.

Variable Date_getTime : string -> number.

Lemma transact_lookup stockId t prev (i : nat) :
  App.transact Date_getTime stockId t prev !! i =
  (fun stock => if negb (String.eqb (id stock) stockId) then stock
                else App.applyTransaction Date_getTime t stock) <$> prev !! i.
Proof. unfold App.transact. apply list_lookup_fmap. Qed.

Lemma transact_lookup_hit stockId t prev (i : nat) p :
  prev !! i = Some p -> id p = stockId ->
  App.transact Date_getTime stockId t prev !! i =
  Some (App.applyTransaction Date_getTime t p).
Proof.
  intros Hp Hid. rewrite transact_lookup, Hp. simpl.
  subst stockId. now rewrite String.eqb_refl.
Qed.



End LedgerFacts.

(** ** The price refresh and the reset *)

Section RefreshFacts.

Variable Date_getTime : string -> number.

Lemma step_synced e st : synced st -> synced (App.step Date_getTime e st).
Proof.
  unfold synced. intros H. destruct e; simpl; try reflexivity; try exact H.
  - unfold App.handleReset. destruct confirmed; [reflexivity | exact H].
  - unfold App.handleRefreshPrices_begin.
    destruct (_ =? _)%nat; [exact H | exact H].
  - unfold App.handleRefreshPrices_resume. destruct result as [updated|]; simpl.
    + destruct (_ =? _)%nat; simpl; [exact H | reflexivity].
    + exact H.
Qed.

Lemma run_synced es st : synced st -> synced (App.run Date_getTime es st).
Proof.
  revert st. induction es as [|e es IH]; intros st H; [exact H|].
  apply IH, step_synced, H.
Qed.


End RefreshFacts.

(** ** The average cost of a position *)

Section AverageCost.

Variable Date_getTime : string -> number.

Lemma finite_Fin x : JS.isFinite x = true -> x = Fin (finite x).
Proof. destruct x; simpl; congruence. Qed.

Lemma findIndex_first {A} (pred : A -> bool) (l : list A) (i : nat) (x : A) :
  l !! i = Some x -> pred x = true ->
  (forall j y, (j < i)%nat -> l !! j = Some y -> pred y = false) ->
  App.findIndex pred l = Some i.
Proof.
  revert i. induction l as [|a l IH]; intros i Hx Hp Hfirst; [discriminate|].
  destruct i as [|i]; simpl in *.
  - injection Hx as ->. now rewrite Hp.
  - rewrite (Hfirst 0%nat a) by (simpl; auto with lia).
    rewrite (IH i Hx Hp); [reflexivity|].
    intros j y Hj Hy. apply (Hfirst (S j) y); [lia | exact Hy].
Qed.

Lemma applyTransaction_symbol t q :
  symbol (App.applyTransaction Date_getTime t q) = symbol q.
Proof. unfold App.applyTransaction. now destruct (tx_type t). Qed.

Lemma applyTransaction_id t q :
  id (App.applyTransaction Date_getTime t q) = id q.
Proof. unfold App.applyTransaction. now destruct (tx_type t). Qed.

Lemma weighted_mean (S A s pr : Qc) :
  0 <= S -> 0 < s ->
  JS.div (JS.add (JS.mul (Fin S) (Fin A)) (JS.mul (Fin s) (Fin pr)))
         (JS.add (Fin S) (Fin s)) = Fin ((S * A + s * pr) / (S + s))
  /\ (S + s) * ((S * A + s * pr) / (S + s)) = S * A + s * pr
  /\ 0 < S + s.
Proof.
  intros HS Hs.
  assert (Hpos : 0 < S + s).
  { apply Qcle_lt_trans with (S + 0).
    - now rewrite Qcplus_0_r.
    - now apply Qcplus_lt_mono_l. }
  assert (Hne : S + s <> 0).
  { intros E. rewrite E in Hpos. now apply Qclt_not_eq in Hpos. }
  split; [|split; [|exact Hpos]].
  - cbn [JS.mul JS.add]. now apply div_finite.
  - field. exact Hne.
Qed.

Lemma purchase_step p0 i held e st :
  buyFor p0 e -> tracks p0 i held st ->
  tracks p0 i (afterPurchase held (purchase e)) (App.step Date_getTime e st).
Proof.
  intros Hbuy (p & Hp & Hid & Hsym & Hfirst & Hheld).
  destruct e as [ms iso stock| |stockId t| | | | |]; simpl in Hbuy; try contradiction.
  - (* handleAddStock: the merge branch *)
    assert (Hfind : App.findIndex
              (fun q => String.eqb (JS.toUpperCase (symbol q))
                                   (JS.toUpperCase (symbol stock)))
              (App.portfolio st) = Some i).
    { apply findIndex_first with p; [exact Hp| |].
      - rewrite Hsym, Hbuy. apply String.eqb_refl.
      - intros j q Hj Hq. apply String.eqb_neq. rewrite Hbuy.
        now apply (Hfirst j q). }
    unfold tracks. simpl. unfold App.addStock. rewrite Hfind, Hp.
    eexists. split.
    { apply list_lookup_insert_eq. now apply lookup_lt_Some in Hp. }
    cbn [id symbol shares avgBuyPrice]. repeat split; try assumption.
    + intros j q Hj Hq. rewrite list_lookup_insert_ne in Hq by lia.
      now apply (Hfirst j q).
    + rewrite <- Hheld. reflexivity.
  - (* handleTransaction: a BUY *)
    destruct Hbuy as (-> & Hty).
    exists (App.applyTransaction Date_getTime t p). split.
    { simpl. now apply transact_lookup_hit. }
    unfold App.applyTransaction. rewrite Hty.
    cbn [id symbol shares avgBuyPrice]. repeat split; try assumption.
    + intros j q Hj Hq. simpl in Hq. rewrite transact_lookup in Hq.
      destruct (App.portfolio st !! j) as [q0|] eqn:Hq0; [|discriminate].
      simpl in Hq. injection Hq as <-.
      specialize (Hfirst j q0 Hj Hq0).
      destruct (negb _); [exact Hfirst|].
      now rewrite applyTransaction_symbol.
    + rewrite <- Hheld. reflexivity.
Qed.

Lemma purchase_run p0 i es : forall held st,
  Forall (buyFor p0) es -> tracks p0 i held st ->
  tracks p0 i (foldl afterPurchase held (map purchase es))
         (App.run Date_getTime es st).
Proof.
  induction es as [|e es IH]; intros held st Hall Hinv; [exact Hinv|].
  inversion Hall as [|? ? He Hes]; subst.
  cbn [map foldl]. apply (IH _ (App.step Date_getTime e st) Hes).
  now apply purchase_step.
Qed.

Lemma afterPurchase_NaN S buys :
  (foldl afterPurchase (S, NaN) buys).2 = NaN.
Proof.
  revert S. induction buys as [|b buys IH]; intros S; [reflexivity|].
  cbn [foldl]. unfold afterPurchase at 2. cbn [fst snd].
  replace (JS.mul S NaN) with NaN by now destruct S.
  cbn [JS.add JS.div]. apply IH.
Qed.

Lemma afterPurchase_nothing A q pr :
  JS.isFinite A = true -> JS.isFinite pr = true ->
  JS.strict_eq q JS.zero = true ->
  afterPurchase (JS.zero, A) (q, pr) = (JS.zero, NaN).
Proof.
  destruct A as [a| | |], pr as [c| | |], q as [b| | |]; try discriminate.
  intros _ _ Hq. unfold JS.strict_eq, JS.zero, JS.Qc_eqb in Hq.
  destruct (b ?= 0) eqn:E; try discriminate.
  apply Qceq_alt in E. subst b.
  unfold afterPurchase. cbn [fst snd JS.zero JS.mul JS.add].
  replace (0 + 0) with 0 by ring.
  replace (0 * a + 0 * c) with 0 by ring.
  reflexivity.
Qed.

(** C1.  A run of buys made for one position, through the transaction
    handler or merged by the add-stock handler, leaves the position in its
    place with its id and symbol, and takes the purchases in their order:
    each one adds its shares to the share count and sets the average cost to
    the cost of the shares held and bought over their number.  An average
    cost that is not a number stays so whatever is bought, and a purchase of
    no share for a position without shares makes it so. *)
Theorem buys_average_follows_each_purchase
    (st : App.State) (i : nat) (p : StockPosition) (es : list App.Event) :
  App.portfolio st !! i = Some p ->
  firstWithSymbol (symbol p) i (App.portfolio st) ->
  Forall (buyFor p) es ->
  exists p',
    App.portfolio (App.run Date_getTime es st) !! i = Some p'
    /\ id p' = id p /\ symbol p' = symbol p
    /\ (shares p', avgBuyPrice p')
       = foldl afterPurchase (shares p, avgBuyPrice p) (map purchase es)
    /\ (avgBuyPrice p = NaN -> avgBuyPrice p' = NaN)
    /\ (forall e rest,
          es = e :: rest ->
          shares p = JS.zero ->
          JS.isFinite (avgBuyPrice p) = true ->
          JS.isFinite (purchase e).2 = true ->
          JS.strict_eq (purchase e).1 JS.zero = true ->
          avgBuyPrice p' = NaN).
Proof.
  intros Hp Hfirst Hall.
  assert (Hinv : tracks p i (shares p, avgBuyPrice p) st).
  { exists p. repeat split; assumption. }
  destruct (purchase_run p i es _ st Hall Hinv)
    as (p' & Hp' & Hid & Hsym & _ & Hheld).
  exists p'. split; [exact Hp'|]. split; [exact Hid|]. split; [exact Hsym|].
  split; [exact Hheld|]. split.
  { intros Hnan.
    change (avgBuyPrice p') with (shares p', avgBuyPrice p').2.
    rewrite Hheld, Hnan. apply afterPurchase_NaN. }
  intros e rest -> Hs Hfa Hfp Hq.
  change (avgBuyPrice p') with (shares p', avgBuyPrice p').2.
  rewrite Hheld. cbn [map foldl]. rewrite Hs.
  destruct (purchase e) as [q pr]. cbn [fst snd] in Hfp, Hq.
  rewrite (afterPurchase_nothing _ q pr Hfa Hfp Hq).
  apply afterPurchase_NaN.
Qed.

End AverageCost.

(** ** The AI-call wrapper *)

Section WrapperFacts.

Import Gemini.

Variable API_KEY : option string.
Variable generateContent : nat -> string -> Response + Error.
Variable JSON_parse : string -> option json.

Abbreviation result := (attemptResult generateContent JSON_parse).
Abbreviation trace := (attemptTrace generateContent JSON_parse).
Abbreviation fetch := (fetchGeminiResponse API_KEY generateContent JSON_parse).

Lemma requests_app w l : requests (w ++ l) = (requests w + requests l)%nat.
Proof. unfold requests. now rewrite List.filter_app, length_app. Qed.

Lemma requests_gap k e : requests (gap k e) = 0%nat.
Proof. unfold gap. now destruct (isRateLimit e). Qed.

Lemma requests_trace n c : requests (trace n c) = 1%nat.
Proof.
  unfold attemptTrace. destruct (generateContent n c) as [r|]; [|reflexivity].
  now destruct (JSON_parse _).
Qed.

Lemma attempt_spec c w :
  attempt generateContent JSON_parse c w =
  (match result (requests w) c with
   | inl r => Returned r
   | inr e => Thrown e
   end, w ++ trace (requests w) c).
Proof.
  unfold attempt, attemptResult, attemptTrace.
  destruct (generateContent (requests w) c) as [r|e]; [|reflexivity].
  destruct (JSON_parse _); [reflexivity|].
  now rewrite <- app_assoc.
Qed.

Lemma getAiClient_configured w :
  configured API_KEY = true -> getAiClient API_KEY w = (Returned tt, w).
Proof.
  unfold configured, getAiClient. destruct API_KEY as [k|]; [|discriminate].
  now intros ->.
Qed.

Lemma getAiClient_missing w :
  configured API_KEY = false ->
  getAiClient API_KEY w = (Thrown (new_Error "API Key not found"), w).
Proof.
  unfold configured, getAiClient. destruct API_KEY as [k|]; [|reflexivity].
  now intros ->.
Qed.

(** One turn of the loop. *)
Lemma retryLoop_step fuel attempts c w :
  (attempts < maxAttempts)%nat ->
  retryLoop generateContent JSON_parse (S fuel) attempts c w =
  match result (requests w) c with
  | inl r => (Returned r, w ++ trace (requests w) c)
  | inr e =>
      if (S attempts =? maxAttempts)%nat
      then (Thrown e, w ++ trace (requests w) c
                        ++ [ConsoleError "Gemini analysis failed"])
      else retryLoop generateContent JSON_parse fuel (S attempts) c
             (w ++ trace (requests w) c ++ gap (S attempts) e)
  end.
Proof.
  intros Hlt. cbn [retryLoop].
  apply Nat.ltb_lt in Hlt as Hlt'. rewrite Hlt'.
  unfold try_catch. rewrite attempt_spec.
  destruct (result (requests w) c) as [r|e]; [reflexivity|].
  unfold gap, bind, emit, throw.
  destruct (S attempts =? maxAttempts)%nat eqn:E.
  - apply Nat.eqb_eq in E. rewrite E, Nat.ltb_irrefl, andb_false_r.
    now rewrite <- app_assoc.
  - apply Nat.eqb_neq in E.
    assert (Hlt2 : (S attempts <? maxAttempts)%nat = true) by (apply Nat.ltb_lt; lia).
    rewrite Hlt2, andb_true_r.
    destruct (isRateLimit e); now rewrite <- !app_assoc.
Qed.

(** The loop, unrolled: the three attempts in turn, each failure followed by
    its gap, the third failure thrown. *)
Lemma fetch_unrolled prompt schema w :
  configured API_KEY = true ->
  let c := detailedPrompt prompt schema in
  let n := requests w in
  fetch prompt schema w =
  match result n c with
  | inl r => (Returned r, w ++ trace n c)
  | inr e1 =>
      match result (n + 1) c with
      | inl r => (Returned r, w ++ trace n c ++ gap 1 e1 ++ trace (n + 1) c)
      | inr e2 =>
          match result (n + 2) c with
          | inl r =>
              (Returned r,
               w ++ trace n c ++ gap 1 e1 ++ trace (n + 1) c
                 ++ gap 2 e2 ++ trace (n + 2) c)
          | inr e3 =>
              (Thrown e3,
               w ++ trace n c ++ gap 1 e1 ++ trace (n + 1) c
                 ++ gap 2 e2 ++ trace (n + 2) c
                 ++ [ConsoleError "Gemini analysis failed"])
          end
      end
  end.
Proof.
  intros Hkey c n.
  unfold fetchGeminiResponse, bind. rewrite (getAiClient_configured w Hkey).
  fold c. unfold maxAttempts at 1.
  rewrite retryLoop_step by (unfold maxAttempts; lia). fold n.
  destruct (result n c) as [r|e1]; [reflexivity|].
  change (1 =? maxAttempts)%nat with false. cbv iota.
  rewrite retryLoop_step by (unfold maxAttempts; lia).
  replace (requests (w ++ trace n c ++ gap 1 e1)) with (n + 1)%nat
    by (rewrite !requests_app, requests_trace, requests_gap; fold n; lia).
  destruct (result (n + 1) c) as [r|e2].
  { now rewrite <- !app_assoc. }
  change (2 =? maxAttempts)%nat with false. cbv iota.
  rewrite retryLoop_step by (unfold maxAttempts; lia).
  replace (requests ((w ++ trace n c ++ gap 1 e1) ++ trace (n + 1) c ++ gap 2 e2))
    with (n + 2)%nat
    by (rewrite !requests_app, !requests_trace, !requests_gap; fold n; lia).
  destruct (result (n + 2) c) as [r|e3].
  { now rewrite <- !app_assoc. }
  change (3 =? maxAttempts)%nat with true. cbv iota.
  now rewrite <- !app_assoc.
Qed.

Lemma trace_head n c : exists tl, trace n c = Request c :: tl.
Proof. unfold attemptTrace. eauto. Qed.

(** C3 (amended).  With an API key configured the wrapper sends at most three
    requests; it throws only when all three attempts have failed, and then
    the error of the third; the first attempt that succeeds ends the call
    with its parsed result and no further request.  Without an API key it
    throws at once, before any request. *)
Theorem wrapper_attempts_at_most_three (prompt schema : string) (w : World) :
  let c := detailedPrompt prompt schema in
  let n := requests w in
  (configured API_KEY = true ->
   forall out w', fetch prompt schema w = (out, w') ->
     out <> OutOfFuel
     /\ (requests w' <= n + maxAttempts)%nat
     /\ (forall e, out = Thrown e ->
           requests w' = (n + 3)%nat
           /\ result (n + 2) c = inr e
           /\ (exists e1, result n c = inr e1)
           /\ (exists e2, result (n + 1) c = inr e2))
     /\ (forall k r, (k < 3)%nat ->
           (forall j, (j < k)%nat -> exists e, result (n + j) c = inr e) ->
           result (n + k) c = inl r ->
           out = Returned r /\ requests w' = (n + k + 1)%nat))
  /\ (configured API_KEY = false ->
      fetch prompt schema w = (Thrown (new_Error "API Key not found"), w)).
Proof.
  intros c n. split.
  - intros Hkey out w' Hrun.
    rewrite (fetch_unrolled prompt schema w Hkey) in Hrun. fold c n in Hrun.
    assert (Hfirst : forall k r,
              (forall j, (j < k)%nat -> exists e, result (n + j) c = inr e) ->
              result (n + k) c = inl r ->
              forall j r', (j < k)%nat -> result (n + j) c = inl r' -> False).
    { intros k r Hfail _ j r' Hj Hr'. destruct (Hfail j Hj) as [e He]. congruence. }
    destruct (result n c) as [r0|e1] eqn:E0.
    { apply pair_equal_spec in Hrun as [<- <-]. rewrite requests_app, requests_trace. fold n.
      split; [discriminate|]. split; [unfold maxAttempts; lia|].
      split; [discriminate|].
      intros k r Hk Hfail Hr. destruct k as [|k].
      - rewrite Nat.add_0_r in Hr. split; [congruence | lia].
      - exfalso. apply (Hfirst _ _ Hfail Hr 0%nat r0); [lia|].
        now rewrite Nat.add_0_r. }
    destruct (result (n + 1) c) as [r1|e2] eqn:E1.
    { apply pair_equal_spec in Hrun as [<- <-].
      rewrite !requests_app, !requests_trace, requests_gap. fold n.
      split; [discriminate|]. split; [unfold maxAttempts; lia|].
      split; [discriminate|].
      intros k r Hk Hfail Hr. destruct k as [|[|k]].
      - rewrite Nat.add_0_r in Hr. congruence.
      - split; [congruence | lia].
      - exfalso. apply (Hfirst _ _ Hfail Hr 1%nat r1); [lia | exact E1]. }
    destruct (result (n + 2) c) as [r2|e3] eqn:E2.
    { apply pair_equal_spec in Hrun as [<- <-].
      rewrite !requests_app, !requests_trace, !requests_gap. fold n.
      split; [discriminate|]. split; [unfold maxAttempts; lia|].
      split; [discriminate|].
      intros k r Hk Hfail Hr. destruct k as [|[|[|k]]]; [| | |lia].
      - rewrite Nat.add_0_r in Hr. congruence.
      - congruence.
      - split; [congruence | lia]. }
    apply pair_equal_spec in Hrun as [<- <-].
    rewrite !requests_app, !requests_trace, !requests_gap. fold n.
    change (requests [ConsoleError "Gemini analysis failed"]) with 0%nat.
    split; [discriminate|]. split; [unfold maxAttempts; lia|].
    split.
    { intros e [= <-]. split; [lia|]. eauto. }
    intros k r Hk Hfail Hr. destruct k as [|[|[|k]]]; [| | |lia].
    + rewrite Nat.add_0_r in Hr. congruence.
    + congruence.
    + congruence.
  - intros Hkey. unfold fetchGeminiResponse, bind.
    now rewrite (getAiClient_missing w Hkey).
Qed.


End WrapperFacts.

(** ** Strings *)

Section StringFacts.

Lemma sapp_nil_l s : "" +:+ s = s.
Proof. reflexivity. Qed.

Lemma sapp_cons c s t : String c s +:+ t = String c (s +:+ t).
Proof. reflexivity. Qed.

Lemma sapp_nil_r s : s +:+ "" = s.
Proof. induction s as [|c s IH]; [reflexivity|]. now rewrite sapp_cons, IH. Qed.

Lemma sapp_assoc s t u : (s +:+ t) +:+ u = s +:+ t +:+ u.
Proof. induction s as [|c s IH]; [reflexivity|]. now rewrite !sapp_cons, IH. Qed.

Lemma slength_app s t : String.length (s +:+ t) = (String.length s + String.length t)%nat.
Proof. induction s as [|c s IH]; [reflexivity|]. rewrite sapp_cons. simpl. now rewrite IH. Qed.

Lemma occurs_app c s t : occurs c (s +:+ t) = occurs c s || occurs c t.
Proof.
  induction s as [|a s IH]; [reflexivity|].
  rewrite sapp_cons. simpl. now rewrite IH, orb_assoc.
Qed.

(** *** Removal of a pattern *)

Lemma startsWith_app p rest : JS.startsWith p (p +:+ rest) = true.
Proof.
  induction p as [|a p IH]; [reflexivity|].
  rewrite sapp_cons. simpl. now rewrite Ascii.eqb_refl.
Qed.

Lemma startsWith_inv p s : JS.startsWith p s = true -> exists rest, s = p +:+ rest.
Proof.
  revert s. induction p as [|a p IH]; intros s H.
  - now exists s.
  - destruct s as [|b s]; [discriminate|]. simpl in H.
    destruct (Ascii.eqb a b) eqn:E; [|discriminate].
    apply Ascii.eqb_eq in E as ->. destruct (IH s H) as [rest ->].
    now exists rest.
Qed.

Lemma removeAll_from_skip q p s :
  JS.removeAll_from (String.length q) p (q +:+ s) = JS.removeAll_from 0 p s.
Proof. induction q as [|c q IH]; [reflexivity|]. rewrite sapp_cons. simpl. exact IH. Qed.

Lemma removeAll_match a p rest :
  JS.removeAll (String a p) (String a p +:+ rest) = JS.removeAll (String a p) rest.
Proof.
  unfold JS.removeAll. rewrite sapp_cons.
  cbn [JS.removeAll_from]. rewrite <- sapp_cons, startsWith_app.
  replace (String.length (String a p) - 1)%nat with (String.length p)
    by (simpl; lia).
  apply removeAll_from_skip.
Qed.

Lemma removeAll_no_match p c s :
  JS.startsWith p (String c s) = false ->
  JS.removeAll p (String c s) = String c (JS.removeAll p s).
Proof. unfold JS.removeAll. cbn [JS.removeAll_from]. now intros ->. Qed.

Lemma removeAll_nil p : JS.removeAll p "" = "".
Proof. reflexivity. Qed.

Lemma startsWith_within p a x b :
  JS.startsWith p (a +:+ String x b) = true -> occurs x p = false ->
  exists a', a = p +:+ a'.
Proof.
  revert a. induction p as [|c p IH]; intros a H Hx.
  - now exists a.
  - simpl in Hx. apply orb_false_elim in Hx as [Hcx Hp].
    destruct a as [|d a].
    + rewrite sapp_nil_l in H. simpl in H. now rewrite Hcx in H.
    + rewrite sapp_cons in H. simpl in H.
      destruct (Ascii.eqb c d) eqn:E; [|discriminate].
      apply Ascii.eqb_eq in E as ->.
      destruct (IH a H Hp) as [a' ->]. now exists a'.
Qed.

Lemma startsWith_extend p a r :
  JS.startsWith p a = true -> JS.startsWith p (a +:+ r) = true.
Proof.
  intros H. apply startsWith_inv in H as [rest ->].
  rewrite sapp_assoc. apply startsWith_app.
Qed.

(** A code unit that is not in the pattern cuts the text in two parts that
    are cleaned apart. *)
Lemma removeAll_split c p a x b :
  occurs x (String c p) = false ->
  JS.removeAll (String c p) (a +:+ String x b) =
  JS.removeAll (String c p) a +:+ String x (JS.removeAll (String c p) b).
Proof.
  intros Hx.
  assert (Hind : forall n a, (String.length a <= n)%nat ->
    JS.removeAll (String c p) (a +:+ String x b) =
    JS.removeAll (String c p) a +:+ String x (JS.removeAll (String c p) b)).
  { clear a. induction n as [|n IH]; intros a Hlen.
    - destruct a; [|simpl in Hlen; lia].
      rewrite sapp_nil_l, removeAll_nil, sapp_nil_l.
      apply removeAll_no_match. simpl in *.
      apply orb_false_elim in Hx as [-> _]. reflexivity.
    - destruct a as [|d a].
      { apply (IH ""). simpl. lia. }
      destruct (JS.startsWith (String c p) (String d a +:+ String x b)) eqn:E.
      + destruct (startsWith_within _ _ _ _ E Hx) as [a' Ha'].
        rewrite Ha', sapp_assoc, !removeAll_match.
        apply IH.
        assert (String.length (String d a) = String.length (String c p +:+ a'))
          by now rewrite Ha'.
        rewrite slength_app in H. simpl in *. lia.
      + rewrite sapp_cons in E |- *. rewrite (removeAll_no_match _ _ _ E).
        assert (E' : JS.startsWith (String c p) (String d a) = false).
        { destruct (JS.startsWith (String c p) (String d a)) eqn:E'; [|reflexivity].
          apply (startsWith_extend _ _ (String x b)) in E'.
          rewrite sapp_cons in E'. congruence. }
        rewrite (removeAll_no_match _ _ _ E'), sapp_cons. f_equal.
        apply IH. simpl in Hlen. lia. }
  now apply (Hind (String.length a)).
Qed.

(** A text without the pattern is left as it is. *)
Lemma removeAll_absent p s : JS.includes s p = false -> JS.removeAll p s = s.
Proof.
  induction s as [|c s IH]; intros H; [reflexivity|].
  simpl in H. apply orb_false_elim in H as [H1 H2].
  rewrite (removeAll_no_match _ _ _ H1). f_equal. now apply IH.
Qed.

Lemma occurs_removeAll_from c k p s :
  occurs c s = false -> occurs c (JS.removeAll_from k p s) = false.
Proof.
  revert k. induction s as [|a s IH]; intros k H; [reflexivity|].
  simpl in H. apply orb_false_elim in H as [Ha Hs].
  destruct k as [|k]; cbn [JS.removeAll_from].
  - destruct (JS.startsWith p (String a s)); [now apply IH|].
    simpl. rewrite Ha. now apply IH.
  - now apply IH.
Qed.

Lemma includes_longer q r s :
  JS.includes s q = false -> JS.includes s (q +:+ r) = false.
Proof.
  induction s as [|c s IH]; intros H.
  - simpl in *. rewrite orb_false_r in *.
    destruct (JS.startsWith (q +:+ r) "") eqn:E; [|reflexivity].
    destruct q; [discriminate|]. rewrite sapp_cons in E. discriminate.
  - simpl in H. apply orb_false_elim in H as [H1 H2].
    cbn [JS.includes]. rewrite (IH H2), orb_false_r.
    destruct (JS.startsWith (q +:+ r) (String c s)) eqn:E; [|reflexivity].
    apply startsWith_inv in E as [rest E]. rewrite sapp_assoc in E.
    rewrite E, startsWith_app in H1. discriminate.
Qed.

(** *** Trimming *)

Lemma trimStart_app a x b :
  JS.is_white_space x = false ->
  JS.trimStart (a +:+ String x b) = JS.trimStart a +:+ String x b.
Proof.
  intros Hx. induction a as [|c a IH].
  - rewrite !sapp_nil_l. simpl. now rewrite Hx.
  - rewrite sapp_cons. simpl. destruct (JS.is_white_space c); [exact IH|].
    now rewrite sapp_cons.
Qed.

Lemma trimEnd_app a x b :
  JS.is_white_space x = false ->
  JS.trimEnd (a +:+ String x b) = a +:+ String x (JS.trimEnd b).
Proof.
  intros Hx. induction a as [|c a IH].
  - rewrite !sapp_nil_l. simpl. destruct (JS.trimEnd b); [now rewrite Hx | reflexivity].
  - rewrite !sapp_cons. simpl. rewrite IH.
    destruct a; reflexivity.
Qed.

Lemma occurs_trimStart c s : occurs c s = false -> occurs c (JS.trimStart s) = false.
Proof.
  induction s as [|a s IH]; intros H; [reflexivity|].
  simpl. destruct (JS.is_white_space a); [|exact H].
  simpl in H. apply orb_false_elim in H as [_ H]. now apply IH.
Qed.

Lemma occurs_trimEnd c s : occurs c s = false -> occurs c (JS.trimEnd s) = false.
Proof.
  induction s as [|a s IH]; intros H; [reflexivity|].
  simpl in H. apply orb_false_elim in H as [Ha Hs]. specialize (IH Hs).
  simpl. destruct (JS.trimEnd s) as [|b t] eqn:E.
  - destruct (JS.is_white_space a); [reflexivity|]. simpl. now rewrite Ha.
  - cbn [occurs]. rewrite Ha. exact IH.
Qed.

(** *** Search and extraction *)

Lemma indexOf_app c a b :
  occurs c a = false -> JS.indexOf (a +:+ String c b) c = Z.of_nat (String.length a).
Proof.
  induction a as [|d a IH]; intros H.
  - rewrite sapp_nil_l. simpl. now rewrite Ascii.eqb_refl.
  - simpl in H. apply orb_false_elim in H as [Hd Ha].
    rewrite sapp_cons. cbn [JS.indexOf String.length]. rewrite Hd, (IH Ha).
    cbv zeta. destruct (Z.ltb_spec (Z.of_nat (String.length a)) 0); lia.
Qed.

Lemma lastIndexOf_absent c s : occurs c s = false -> JS.lastIndexOf s c = (-1)%Z.
Proof.
  induction s as [|d s IH]; intros H; [reflexivity|].
  simpl in H. apply orb_false_elim in H as [Hd Hs].
  cbn [JS.lastIndexOf]. now rewrite (IH Hs), Hd.
Qed.

Lemma lastIndexOf_app c a b :
  occurs c b = false -> JS.lastIndexOf (a +:+ String c b) c = Z.of_nat (String.length a).
Proof.
  intros H. induction a as [|d a IH].
  - rewrite sapp_nil_l. cbn [JS.lastIndexOf].
    now rewrite (lastIndexOf_absent _ _ H), Ascii.eqb_refl.
  - rewrite sapp_cons. cbn [JS.lastIndexOf String.length]. rewrite IH.
    cbv zeta. destruct (Z.ltb_spec (Z.of_nat (String.length a)) 0); lia.
Qed.

Lemma substring_prefix m b : String.substring 0 (String.length m) (m +:+ b) = m.
Proof.
  induction m as [|c m IH].
  - rewrite sapp_nil_l. destruct b; reflexivity.
  - rewrite sapp_cons. simpl. now rewrite IH.
Qed.

Lemma substring_middle a m b :
  String.substring (String.length a) (String.length m) (a +:+ m +:+ b) = m.
Proof.
  induction a as [|c a IH]; [rewrite sapp_nil_l; apply substring_prefix|].
  rewrite sapp_cons. simpl. exact IH.
Qed.

Lemma JS_substring_middle a m b :
  JS.substring (a +:+ m +:+ b) (Z.of_nat (String.length a))
               (Z.of_nat (String.length a + String.length m)) = m.
Proof.
  unfold JS.substring, JS.clamp. rewrite !Nat2Z.id, !slength_app.
  rewrite (Nat.min_l (String.length a)) by lia.
  rewrite (Nat.min_l (String.length a + String.length m)) by lia.
  rewrite Nat.min_l, Nat.max_r by lia.
  replace (String.length a + String.length m - String.length a)%nat
    with (String.length m) by lia.
  apply substring_middle.
Qed.

End StringFacts.

(** ** The clean-up of the response text *)

Section CleanUp.

Import Gemini.

Variable API_KEY : option string.
Variable generateContent : nat -> string -> Response + Error.
Variable JSON_parse : string -> option json.

Abbreviation fetch := (fetchGeminiResponse API_KEY generateContent JSON_parse).

Lemma truthy_app a x b : JS.truthy (a +:+ String x b) = true.
Proof. destruct a; reflexivity. Qed.

Lemma removeAll_around c p pre mid post :
  occurs "{" (String c p) = false -> occurs "}" (String c p) = false ->
  JS.removeAll (String c p) (pre +:+ String "{" (mid +:+ String "}" post)) =
  JS.removeAll (String c p) pre
    +:+ String "{" (JS.removeAll (String c p) mid
                      +:+ String "}" (JS.removeAll (String c p) post)).
Proof. intros H1 H2. now rewrite (removeAll_split _ _ _ _ _ H1), (removeAll_split _ _ _ _ _ H2). Qed.

(** What [extractJson] keeps of a text made of a braced part between a
    prefix without opening brace and a suffix without closing brace. *)
Lemma extractJson_wrapped pre mid post :
  occurs "{" pre = false -> occurs "}" post = false ->
  extractJson (Some (pre +:+ String "{" (mid +:+ String "}" post))) =
  String "{" (stripFences mid +:+ "}").
Proof.
  intros Hpre Hpost. unfold extractJson. rewrite truthy_app.
  change "```json" with (String "`" "``json").
  change "```" with (String "`" "``").
  rewrite !removeAll_around by reflexivity.
  set (P := JS.removeAll (String "`" "``") (JS.removeAll (String "`" "``json") pre)).
  set (Q := JS.removeAll (String "`" "``") (JS.removeAll (String "`" "``json") post)).
  fold (stripFences mid). set (M := stripFences mid).
  assert (HP : occurs "{" (JS.trimStart P) = false).
  { apply occurs_trimStart. unfold P, JS.removeAll.
    now apply occurs_removeAll_from, occurs_removeAll_from. }
  assert (HQ : occurs "}" (JS.trimEnd Q) = false).
  { apply occurs_trimEnd. unfold Q, JS.removeAll.
    now apply occurs_removeAll_from, occurs_removeAll_from. }
  unfold JS.trim. rewrite trimStart_app by reflexivity.
  replace (JS.trimStart P +:+ String "{" (M +:+ String "}" Q))
    with ((JS.trimStart P +:+ String "{" M) +:+ String "}" Q)
    by now rewrite sapp_assoc.
  rewrite trimEnd_app by reflexivity.
  rewrite (lastIndexOf_app _ _ _ HQ).
  rewrite sapp_assoc, sapp_cons.
  rewrite (indexOf_app _ _ _ HP).
  rewrite slength_app. cbn [String.length].
  replace (Z.of_nat (String.length (JS.trimStart P)) =? -1)%Z with false
    by (symmetry; apply Z.eqb_neq; lia).
  replace (Z.of_nat (String.length (JS.trimStart P) + S (String.length M)) =? -1)%Z
    with false by (symmetry; apply Z.eqb_neq; lia).
  cbn [negb andb].
  replace (JS.trimStart P +:+ String "{" (M +:+ String "}" (JS.trimEnd Q)))
    with (JS.trimStart P +:+ String "{" (M +:+ "}") +:+ JS.trimEnd Q)
    by now rewrite sapp_cons, sapp_assoc.
  replace (Z.of_nat (String.length (JS.trimStart P) + S (String.length M)) + 1)%Z
    with (Z.of_nat (String.length (JS.trimStart P)
                    + String.length (String "{" (M +:+ "}")))).
  - apply JS_substring_middle.
  - cbn [String.length]. rewrite slength_app. simpl String.length. lia.
Qed.

Lemma stripFences_absent s : JS.includes s "```" = false -> stripFences s = s.
Proof.
  intros H. unfold stripFences.
  rewrite (removeAll_absent "```json" s).
  - now apply removeAll_absent.
  - change "```json" with ("```" +:+ "json"). now apply includes_longer.
Qed.

(** What is left of a text once the fences are removed does not start with
    a fence. *)
Lemma removeAll_fence_head s : JS.startsWith "```" (JS.removeAll "```" s) = false.
Proof.
  assert (Hind : forall n s, (String.length s <= n)%nat ->
            JS.startsWith "```" (JS.removeAll "```" s) = false).
  { clear s. induction n as [|n IH]; intros s Hlen.
    { destruct s; [reflexivity | simpl in Hlen; lia]. }
    destruct (JS.startsWith "```" s) eqn:E.
    - apply startsWith_inv in E as [rest ->].
      change "```" with (String "`" "``") at 2 3.
      rewrite removeAll_match. apply IH.
      rewrite slength_app in Hlen. simpl in Hlen. lia.
    - destruct s as [|c s1]; [reflexivity|].
      rewrite (removeAll_no_match _ _ _ E).
      cbn [JS.startsWith] in E |- *.
      destruct (Ascii.eqb "`" c) eqn:Ec; [|reflexivity].
      destruct s1 as [|d s2]; [reflexivity|].
      cbn [JS.startsWith] in E.
      destruct (Ascii.eqb "`" d) eqn:Ed.
      + assert (E1 : JS.startsWith "```" (String d s2) = false).
        { cbn [JS.startsWith]. rewrite Ed.
          destruct s2 as [|e s3]; [reflexivity|].
          cbn [JS.startsWith] in E |- *.
          destruct (Ascii.eqb "`" e) eqn:Ee; [|reflexivity].
          destruct s3; discriminate E. }
        rewrite (removeAll_no_match _ _ _ E1). cbn [JS.startsWith]. rewrite Ed.
        destruct s2 as [|e s3]; [reflexivity|].
        cbn [JS.startsWith] in E.
        destruct (Ascii.eqb "`" e) eqn:Ee; [discriminate E|].
        assert (E2 : JS.startsWith "```" (String e s3) = false).
        { cbn [JS.startsWith]. now rewrite Ee. }
        rewrite (removeAll_no_match _ _ _ E2). cbn [JS.startsWith]. now rewrite Ee.
      + assert (E1 : JS.startsWith "```" (String d s2) = false).
        { cbn [JS.startsWith]. now rewrite Ed. }
        rewrite (removeAll_no_match _ _ _ E1). cbn [JS.startsWith]. now rewrite Ed. }
  now apply (Hind (String.length s)).
Qed.

(** No fence is left once the fences are removed. *)
Lemma removeAll_fence_clean s : JS.includes (JS.removeAll "```" s) "```" = false.
Proof.
  assert (Hind : forall n s, (String.length s <= n)%nat ->
            JS.includes (JS.removeAll "```" s) "```" = false).
  { clear s. induction n as [|n IH]; intros s Hlen.
    { destruct s; [reflexivity | simpl in Hlen; lia]. }
    destruct (JS.startsWith "```" s) eqn:E.
    - apply startsWith_inv in E as [rest ->].
      change "```" with (String "`" "``") at 1 2.
      rewrite removeAll_match. apply IH.
      rewrite slength_app in Hlen. simpl in Hlen. lia.
    - destruct s as [|c s1]; [reflexivity|].
      pose proof (removeAll_fence_head (String c s1)) as Hhead.
      rewrite (removeAll_no_match _ _ _ E) in Hhead |- *.
      cbn [JS.includes]. rewrite Hhead. cbn [orb].
      apply IH. simpl in Hlen. lia. }
  now apply (Hind (String.length s)).
Qed.

Lemma stripFences_clean s : JS.includes (stripFences s) "```" = false.
Proof. unfold stripFences. apply removeAll_fence_clean. Qed.

(** A code unit that is not in the pattern, put after a text, adds no
    occurrence of the pattern. *)
Lemma includes_snoc c p x s :
  occurs x (String c p) = false ->
  JS.includes s (String c p) = false ->
  JS.includes (s +:+ String x "") (String c p) = false.
Proof.
  intros Hx. induction s as [|a s IH]; intros H.
  - rewrite sapp_nil_l. simpl in Hx |- *.
    apply orb_false_elim in Hx as [Hcx _]. rewrite Hcx. reflexivity.
  - cbn [JS.includes] in H. apply orb_false_elim in H as [H1 H2].
    rewrite sapp_cons. cbn [JS.includes]. rewrite (IH H2), orb_false_r.
    destruct (JS.startsWith (String c p) (String a (s +:+ String x ""))) eqn:E;
      [|reflexivity].
    rewrite <- sapp_cons in E.
    destruct (startsWith_within _ _ _ _ E Hx) as [a' Ha'].
    rewrite Ha', startsWith_app in H1. discriminate.
Qed.

Lemma braced_clean m :
  JS.includes m "```" = false -> JS.includes ("{" +:+ m +:+ "}") "```" = false.
Proof.
  intros H. change ("{" +:+ m +:+ "}") with (String "{" (m +:+ "}")).
  cbn [JS.includes JS.startsWith Ascii.eqb Bool.eqb andb orb].
  change "```" with (String "`" "``"). now apply includes_snoc.
Qed.

(** C5.  A response whose text holds a braced part between a prefix without
    opening brace and a suffix without closing brace (prose, code fences) is
    cleaned to this part, from its first opening brace to its last closing
    brace, with every fence marker removed: the text handed to the parser
    holds no fence, it is the braced part itself when this part holds none,
    and when the parser accepts it the wrapper returns its parse after a
    single request. *)
Theorem fenced_json_is_parsed (prompt schema : string) (w : World)
    (response : Response) (pre mid post : string) :
  let c := detailedPrompt prompt schema in
  let kept := "{" +:+ stripFences mid +:+ "}" in
  configured API_KEY = true ->
  generateContent (requests w) c = inl response ->
  text response = Some (pre +:+ ("{" +:+ mid +:+ "}") +:+ post) ->
  occurs "{" pre = false ->
  occurs "}" post = false ->
  extractJson (text response) = kept
  /\ JS.includes (extractJson (text response)) "```" = false
  /\ (JS.includes mid "```" = false -> kept = "{" +:+ mid +:+ "}")
  /\ forall data,
       JSON_parse kept = Some data ->
       fetch prompt schema w = (Returned (data, response), w ++ [Request c]).
Proof.
  intros c kept Hkey Hresp Htext Hpre Hpost.
  assert (Hclean : extractJson (text response) = kept).
  { rewrite Htext. subst kept.
    replace (pre +:+ ("{" +:+ mid +:+ "}") +:+ post)
      with (pre +:+ String "{" (mid +:+ String "}" post)).
    - now rewrite (extractJson_wrapped _ _ _ Hpre Hpost).
    - change ("{" +:+ mid +:+ "}") with (String "{" (mid +:+ "}")).
      now rewrite sapp_cons, sapp_assoc. }
  split; [exact Hclean|]. split.
  { rewrite Hclean. apply braced_clean, stripFences_clean. }
  split.
  { intros Hmid. subst kept. now rewrite (stripFences_absent _ Hmid). }
  intros data Hparse.
  rewrite (fetch_unrolled API_KEY generateContent JSON_parse prompt schema w Hkey).
  fold c. unfold attemptResult, attemptTrace.
  now rewrite Hresp, Hclean, Hparse.
Qed.

End CleanUp.

(** ** The two phases of the analysis *)

Section AnalysisFacts.

Import Gemini.

Variable API_KEY : option string.
Variable generateContent : nat -> string -> Response + Error.
Variable JSON_parse : string -> option json.

Abbreviation fetch := (fetchGeminiResponse API_KEY generateContent JSON_parse).
Abbreviation analyse :=
  (generatePortfolioAnalysis API_KEY generateContent JSON_parse).

Lemma updates_app w l : updates (w ++ l) = updates w ++ updates l.
Proof. unfold updates. apply omap_app. Qed.

Lemma updates_trace n c : updates (attemptTrace generateContent JSON_parse n c) = [].
Proof.
  unfold attemptTrace. destruct (generateContent n c); [|reflexivity].
  now destruct (JSON_parse _).
Qed.

Lemma updates_gap k e : updates (gap k e) = [].
Proof. unfold gap. now destruct (isRateLimit e). Qed.

(** The wrapper ends by a return or a throw; it only adds effects, none of
    them a report, and the first of them is its request when an API key is
    configured. *)
Lemma fetch_total prompt schema w :
  exists out tl,
    fetch prompt schema w = (out, w ++ tl)
    /\ out <> OutOfFuel
    /\ updates tl = []
    /\ (configured API_KEY = true ->
        exists tl', tl = Request (detailedPrompt prompt schema) :: tl').
Proof.
  destruct (configured API_KEY) eqn:Hkey.
  - rewrite (fetch_unrolled API_KEY generateContent JSON_parse prompt schema w Hkey).
    destruct (trace_head generateContent JSON_parse (requests w)
                (detailedPrompt prompt schema)) as [tl0 Htl0].
    repeat match goal with
           | |- context [match ?x with inl _ => _ | inr _ => _ end] => destruct x
           end;
      eexists; eexists; (split; [reflexivity|]); (split; [discriminate|]);
      (split; [rewrite ?updates_app, ?updates_trace, ?updates_gap; reflexivity|]);
      intros _; rewrite Htl0; eexists; reflexivity.
  - unfold fetchGeminiResponse, bind. rewrite (getAiClient_missing API_KEY w Hkey).
    exists (Thrown (new_Error "API Key not found")), [].
    rewrite app_nil_r. split; [reflexivity|]. split; [discriminate|].
    split; [reflexivity | discriminate].
Qed.

Lemma spread_lookup k data (m : AnalysisResult) :
  spread m data !! k = match property k data with Some v => Some v | None => m !! k end.
Proof.
  unfold spread, property.
  induction (ownProperties data) as [|[k' v'] l IH] using rev_ind; [reflexivity|].
  rewrite !foldl_app. cbn [foldl fst snd].
  destruct (String.eqb_spec k' k) as [->|Hne].
  - apply lookup_insert_eq.
  - now rewrite lookup_insert_ne.
Qed.

Lemma property_object k fields : property k (JObject fields) = lastNamed k fields.
Proof.
  unfold property. cbn [ownProperties].
  assert (H : forall acc,
            foldl (fun acc kv => if String.eqb kv.1 k then Some kv.2 else acc) acc fields
            = match lastNamed k fields with Some v => Some v | None => acc end).
  { induction fields as [|[k' v] rest IH]; intros acc; [reflexivity|].
    cbn [foldl lastNamed fst snd]. rewrite IH.
    destruct (lastNamed k rest); [reflexivity|].
    now destruct (String.eqb k' k). }
  rewrite H. now destruct (lastNamed k fields).
Qed.

(** C6.  The analysis always returns normally.  Its effects are those of the
    first call of the wrapper, then those of the second, which is issued once
    the first has ended whatever its outcome; each phase that succeeds is
    reported through the callback as soon as it ends, and a phase that fails
    is not.  Apart from [sources], the result reported for Phase 1 carries
    the members of the object that is its data, and the result reported for
    Phase 2 carries the members of its data over what Phase 1 reported. *)
Theorem partial_analysis_is_kept (prompt1 schema1 prompt2 schema2 : string) (w : World) :
  exists out1 t1 mark1 out2 t2 mark2,
    fetch prompt1 schema1 w = (out1, w ++ t1)
    /\ fetch prompt2 schema2 (w ++ t1 ++ [mark1]) = (out2, w ++ t1 ++ [mark1] ++ t2)
    /\ analyse prompt1 schema1 prompt2 schema2 w
       = (Returned tt, w ++ t1 ++ [mark1] ++ t2 ++ [mark2])
    /\ (configured API_KEY = true ->
        (exists tl, t1 = Request (detailedPrompt prompt1 schema1) :: tl)
        /\ (exists tl, t2 = Request (detailedPrompt prompt2 schema2) :: tl))
    /\ match out1, out2 with
       | Returned (data1, _), Returned (data2, _) =>
           exists res1 res2,
             mark1 = Update res1 /\ mark2 = Update res2
             /\ updates (t1 ++ [mark1] ++ t2 ++ [mark2]) = [res1; res2]
             /\ forall k, k <> "sources" ->
                  (forall fields1, data1 = JObject fields1 ->
                     res1 !! k = lastNamed k fields1)
                  /\ (forall fields2, data2 = JObject fields2 ->
                        res2 !! k = match lastNamed k fields2 with
                                    | Some v => Some v
                                    | None => res1 !! k
                                    end)
       | Returned (data1, _), _ =>
           exists res1,
             mark1 = Update res1
             /\ updates (t1 ++ [mark1] ++ t2 ++ [mark2]) = [res1]
             /\ forall k fields1, k <> "sources" -> data1 = JObject fields1 ->
                  res1 !! k = lastNamed k fields1
       | _, Returned (data2, _) =>
           exists res2,
             mark2 = Update res2
             /\ updates (t1 ++ [mark1] ++ t2 ++ [mark2]) = [res2]
             /\ forall k fields2, k <> "sources" -> data2 = JObject fields2 ->
                  res2 !! k = lastNamed k fields2
       | _, _ => updates (t1 ++ [mark1] ++ t2 ++ [mark2]) = []
       end.
Proof.
  destruct (fetch_total prompt1 schema1 w)
    as (out1 & t1 & H1 & Hf1 & Hu1 & Hr1).
  exists out1, t1.
  unfold generatePortfolioAnalysis.
  unfold bind at 1. unfold try_catch at 1. unfold bind at 1. rewrite H1.
  destruct out1 as [[data1 resp1]|e1|]; [| |congruence].
  - (* Phase 1 succeeded *)
    set (res1 := <["sources" := sourcesJson (extractSources resp1 [])]> (spread ∅ data1)).
    exists (Update res1).
    destruct (fetch_total prompt2 schema2
                ((w ++ t1) ++ [Update res1]))
      as (out2 & t2 & H2 & Hf2 & Hu2 & Hr2).
    exists out2, t2.
    unfold bind at 1, emit at 1. unfold bind at 1, ret at 1.
    unfold try_catch, bind. rewrite H2.
    rewrite <- !app_assoc in H2.
    assert (Hres1 : forall k fields1, k <> "sources" -> data1 = JObject fields1 ->
              res1 !! k = lastNamed k fields1).
    { intros k fields1 Hk ->. unfold res1. rewrite lookup_insert_ne by congruence.
      rewrite spread_lookup, lookup_empty, property_object.
      now destruct (lastNamed k fields1). }
    assert (Hreq : configured API_KEY = true ->
              (exists tl, t1 = Request (detailedPrompt prompt1 schema1) :: tl)
              /\ (exists tl, t2 = Request (detailedPrompt prompt2 schema2) :: tl))
      by auto.
    destruct out2 as [[data2 resp2]|e2|]; [| |congruence].
    + eexists. split; [reflexivity|]. split; [exact H2|].
      split; [unfold emit; now rewrite <- !app_assoc|]. split; [exact Hreq|].
      eexists; eexists. split; [reflexivity|]. split; [reflexivity|].
      split.
      { rewrite !updates_app, Hu1, Hu2. reflexivity. }
      intros k Hk. split; [intros fields1; now apply Hres1|].
      intros fields2 ->.
      rewrite lookup_insert_ne by congruence.
      now rewrite spread_lookup, property_object.
    + eexists. split; [reflexivity|]. split; [exact H2|].
      split; [unfold emit; now rewrite <- !app_assoc|]. split; [exact Hreq|].
      exists res1. split; [reflexivity|]. split; [|exact Hres1].
      rewrite !updates_app, Hu1, Hu2. reflexivity.
  - (* Phase 1 failed *)
    exists (ConsoleError "Phase 1 analysis failed").
    destruct (fetch_total prompt2 schema2
                ((w ++ t1) ++ [ConsoleError "Phase 1 analysis failed"]))
      as (out2 & t2 & H2 & Hf2 & Hu2 & Hr2).
    exists out2, t2.
    unfold bind at 1, emit at 1. unfold ret at 1.
    unfold try_catch, bind. rewrite H2.
    rewrite <- !app_assoc in H2.
    assert (Hreq : configured API_KEY = true ->
              (exists tl, t1 = Request (detailedPrompt prompt1 schema1) :: tl)
              /\ (exists tl, t2 = Request (detailedPrompt prompt2 schema2) :: tl))
      by auto.
    destruct out2 as [[data2 resp2]|e2|]; [| |congruence].
    + eexists. split; [reflexivity|]. split; [exact H2|].
      split; [unfold emit; now rewrite <- !app_assoc|]. split; [exact Hreq|].
      eexists. split; [reflexivity|]. split.
      { rewrite !updates_app, Hu1, Hu2. reflexivity. }
      intros k fields2 Hk ->. rewrite lookup_insert_ne by congruence.
      rewrite spread_lookup, lookup_empty, property_object.
      now destruct (lastNamed k fields2).
    + eexists. split; [reflexivity|]. split; [exact H2|].
      split; [unfold emit; now rewrite <- !app_assoc|]. split; [exact Hreq|].
      rewrite !updates_app, Hu1, Hu2. reflexivity.
Qed.

End AnalysisFacts.

(** ** The spreadsheet import *)

Section ImportFacts.

Import PortfolioView.

Variable StringToNumber : string -> number.
Variable NumberToString : number -> string.
Variable randomId : nat -> string.
Variable isoNow : nat -> string.
Variable Date_getTime : string -> number.

Abbreviation process := (processRow StringToNumber NumberToString randomId isoNow).
Abbreviation each := (forEach_from StringToNumber NumberToString randomId isoNow).
Abbreviation aggregated :=
  (aggregate StringToNumber NumberToString randomId isoNow Date_getTime).
Abbreviation sym_of := (rowSymbol NumberToString).
Abbreviation qty_of := (rowQty StringToNumber).
Abbreviation cost_of := (rowCost StringToNumber).
Abbreviation ok := (accepted StringToNumber NumberToString).

Lemma le_zero_not_gt x : JS.le x JS.zero = true -> JS.gt x JS.zero = false.
Proof.
  unfold JS.gt, JS.le, JS.zero. destruct x as [q| | |]; try discriminate.
  - intros H. now apply negb_true_iff in H.
  - reflexivity.
Qed.

(** A row that is not accepted leaves the state of the import as it is,
    whatever its index. *)
Lemma processRow_rejected row index st : ok row = false -> process row index st = st.
Proof.
  unfold accepted, processRow. fold (sym_of row) (qty_of row) (cost_of row).
  destruct (Nat.ltb_spec (List.length row) 3) as [Hlt|Hge]; [reflexivity|].
  assert (E : (3 <=? List.length row)%nat = true) by now apply Nat.leb_le.
  rewrite E. cbn [andb]. intros ->.
  now destruct ((index =? 0)%nat && _).
Qed.

Lemma accepted_numeric row :
  ok row = true ->
  JS.isNaN (qty_of row) = false /\ JS.isNaN (cost_of row) = false
  /\ JS.gt (qty_of row) JS.zero = true /\ JS.truthy (sym_of row) = true
  /\ (List.length row <? 3)%nat = false.
Proof.
  unfold accepted. rewrite !andb_true_iff, !negb_true_iff.
  intros ((((Hlen & Hs) & Hq) & Hc) & Hg). repeat split; try assumption.
  apply Nat.ltb_ge. now apply Nat.leb_le.
Qed.

Lemma processRow_index row i j st : process row i st = process row j st.
Proof.
  destruct (ok row) eqn:E.
  - destruct (accepted_numeric row E) as (Hq & Hc & Hg & Hs & Hlen).
    unfold processRow. fold (sym_of row) (qty_of row) (cost_of row).
    now rewrite Hlen, Hq, Hc, !andb_false_r.
  - now rewrite !processRow_rejected.
Qed.

Lemma forEach_index rows : forall i j st, each i rows st = each j rows st.
Proof.
  induction rows as [|row rows IH]; intros i j st; [reflexivity|].
  simpl. rewrite (processRow_index row i j). apply IH.
Qed.

Lemma forEach_app rows1 rows2 i st :
  each i (rows1 ++ rows2) st = each 0 rows2 (each i rows1 st).
Proof.
  revert i st. induction rows1 as [|row rows1 IH]; intros i st.
  - simpl. apply forEach_index.
  - simpl. apply IH.
Qed.

(** C8.  A row whose quantity or cost converts to no number ([Number] of the
    cell is [NaN]), or whose quantity is zero or less, changes nothing in the
    import: the callback leaves its state untouched, and the positions
    aggregated from the sheet are those of the sheet without the row. *)
Theorem invalid_row_is_excluded (rows1 rows2 : list (list Cell)) (row : list Cell) :
  JS.isNaN (qty_of row) = true \/ JS.isNaN (cost_of row) = true
    \/ JS.le (qty_of row) JS.zero = true ->
  (forall index st, process row index st = st)
  /\ aggregated (rows1 ++ row :: rows2) = aggregated (rows1 ++ rows2)
  /\ handleFileUpload StringToNumber NumberToString randomId isoNow Date_getTime
       (rows1 ++ row :: rows2)
     = handleFileUpload StringToNumber NumberToString randomId isoNow Date_getTime
         (rows1 ++ rows2).
Proof.
  intros Hbad.
  assert (Hrej : ok row = false).
  { unfold accepted. fold (sym_of row) (qty_of row) (cost_of row).
    destruct Hbad as [H|[H|H]].
    - rewrite H. cbn [negb]. now rewrite andb_false_r.
    - rewrite H. cbn [negb]. now rewrite !andb_false_r.
    - rewrite (le_zero_not_gt _ H). now rewrite andb_false_r. }
  assert (Hagg : aggregated (rows1 ++ row :: rows2) = aggregated (rows1 ++ rows2)).
  { unfold aggregate. rewrite !forEach_app. simpl.
    rewrite (processRow_rejected _ _ _ Hrej).
    now rewrite (forEach_index rows2 1 0). }
  split; [intros index st; now apply processRow_rejected|].
  split; [exact Hagg|].
  unfold handleFileUpload. now rewrite Hagg.
Qed.

Lemma map_get_set_eq k v m : map_get k (map_set k v m) = Some v.
Proof.
  induction m as [|[k' x] m IH]; simpl.
  - now rewrite String.eqb_refl.
  - destruct (String.eqb_spec k' k) as [->|Hne]; simpl.
    + now rewrite String.eqb_refl.
    + apply String.eqb_neq in Hne. now rewrite Hne.
Qed.

Lemma map_get_set_ne k k' v m : k <> k' -> map_get k' (map_set k v m) = map_get k' m.
Proof.
  intros Hne. induction m as [|[k0 x] m IH]; simpl.
  - apply String.eqb_neq in Hne. now rewrite Hne.
  - destruct (String.eqb_spec k0 k) as [->|Hne0]; simpl.
    + apply String.eqb_neq in Hne. now rewrite Hne.
    + now rewrite IH.
Qed.

Lemma map_set_keys k v m :
  map fst (map_set k v m) =
  if map_has k m then map fst m else map fst m ++ [k].
Proof.
  unfold map_has. induction m as [|[k' x] m IH]; simpl; [reflexivity|].
  destruct (String.eqb_spec k' k) as [->|Hne]; simpl; [reflexivity|].
  rewrite IH. now destruct (map_get k m).
Qed.

Lemma map_get_None_keys k m : map_get k m = None -> k ∉ map fst m.
Proof.
  induction m as [|[k' x] m IH]; simpl; intros H.
  - apply not_elem_of_nil.
  - destruct (String.eqb_spec k' k) as [->|Hne]; [discriminate|].
    apply not_elem_of_cons. split; [congruence | now apply IH].
Qed.

Lemma map_set_wellKeyed k v m :
  symbol v = k -> wellKeyed m -> wellKeyed (map_set k v m).
Proof.
  intros Hv [Hnd Hall]. split.
  - rewrite map_set_keys. unfold map_has.
    destruct (map_get k m) eqn:E; [exact Hnd|].
    apply NoDup_app. split; [exact Hnd|]. split.
    + intros x Hx Hin. apply list_elem_of_singleton in Hin as ->.
      now apply (map_get_None_keys _ _ E).
    + apply NoDup_singleton.
  - clear Hnd. induction m as [|[k' x] m IH]; simpl.
    + repeat constructor. exact Hv.
    + apply Forall_cons in Hall as [Hx Hm].
      destruct (String.eqb_spec k' k) as [->|Hne].
      * constructor; [exact Hv | exact Hm].
      * constructor; [exact Hx | now apply IH].
Qed.

(** What an accepted row does to the map. *)
Lemma processRow_accepted row index st :
  ok row = true ->
  exists v,
    stockMap (process row index st) = map_set (sym_of row) v (stockMap st)
    /\ symbol v =
         match map_get (sym_of row) (stockMap st) with
         | Some existing => symbol existing
         | None => sym_of row
         end
    /\ shares v =
         match map_get (sym_of row) (stockMap st) with
         | Some existing => JS.add (shares existing) (qty_of row)
         | None => qty_of row
         end
    /\ avgBuyPrice v =
         match map_get (sym_of row) (stockMap st) with
         | Some existing =>
             JS.div (JS.add (JS.mul (shares existing) (avgBuyPrice existing))
                            (JS.mul (qty_of row) (cost_of row)))
                    (JS.add (shares existing) (qty_of row))
         | None => cost_of row
         end.
Proof.
  intros E. destruct (accepted_numeric row E) as (Hq & Hc & Hg & Hs & Hlen).
  unfold processRow. fold (sym_of row) (qty_of row) (cost_of row).
  rewrite Hlen, Hq, Hc, Hs, Hg, !andb_false_r. cbn [negb andb].
  unfold map_has. destruct (map_get (sym_of row) (stockMap st)) as [existing|];
    eexists; (split; [reflexivity|]); cbn [symbol shares avgBuyPrice]; auto.
Qed.

Lemma map_get_wellKeyed k v m : wellKeyed m -> map_get k m = Some v -> symbol v = k.
Proof.
  intros [_ Hall]. induction m as [|[k' x] m IH]; simpl; [discriminate|].
  apply Forall_cons in Hall as [Hx Hm].
  destruct (String.eqb_spec k' k) as [->|Hne].
  - now intros [= <-].
  - now apply IH.
Qed.

Lemma processRow_wellKeyed row index st :
  wellKeyed (stockMap st) -> wellKeyed (stockMap (process row index st)).
Proof.
  intros Hwf. destruct (ok row) eqn:E.
  - destruct (processRow_accepted row index st E) as (v & -> & Hsym & _).
    apply map_set_wellKeyed; [|exact Hwf].
    destruct (map_get (sym_of row) (stockMap st)) eqn:G; [|exact Hsym].
    rewrite Hsym. now apply (map_get_wellKeyed _ _ _ Hwf G).
  - now rewrite processRow_rejected.
Qed.

Lemma forEach_wellKeyed rows : forall index st,
  wellKeyed (stockMap st) -> wellKeyed (stockMap (each index rows st)).
Proof.
  induction rows as [|row rows IH]; intros index st H; [exact H|].
  simpl. apply IH. now apply processRow_wellKeyed.
Qed.

Abbreviation bought := (purchases StringToNumber NumberToString).
Abbreviation has_symbol := (carries StringToNumber NumberToString).
Abbreviation is_finite := (finiteRow StringToNumber).

Lemma sharesOf_snoc ps q c : sharesOf (ps ++ [(q, c)]) = sharesOf ps + q.
Proof.
  unfold sharesOf, sumQc. induction ps as [|[q' c'] ps IH]; simpl.
  - ring.
  - rewrite IH. ring.
Qed.

Lemma costOf_snoc ps q c : costOf (ps ++ [(q, c)]) = costOf ps + q * c.
Proof.
  unfold costOf, sumQc. induction ps as [|[q' c'] ps IH]; simpl.
  - ring.
  - rewrite IH. ring.
Qed.

Lemma gt_zero_finite x : JS.gt (Fin x) JS.zero = true -> 0 < x.
Proof. unfold JS.gt, JS.zero, JS.lt. apply Qc_ltb_lt. Qed.

Lemma tallies_ext sym ps m m' :
  map_get sym m' = map_get sym m -> tallies sym ps m -> tallies sym ps m'.
Proof. unfold tallies. intros ->. auto. Qed.

Lemma processRow_tallies sym row index st ps :
  tallies sym ps (stockMap st) ->
  (has_symbol sym row = true -> is_finite row = true) ->
  tallies sym (ps ++ bought sym [row]) (stockMap (process row index st)).
Proof.
  intros Ht Hfin. unfold purchases. cbn [List.filter].
  destruct (has_symbol sym row) eqn:Hc.
  - (* the row is one of the symbol *)
    unfold carries in Hc. apply andb_true_iff in Hc as [Hok Hsym].
    apply String.eqb_eq in Hsym.
    specialize (Hfin eq_refl). unfold finiteRow in Hfin.
    apply andb_true_iff in Hfin as [Hfq Hfc].
    destruct (accepted_numeric row Hok) as (_ & _ & Hg & _ & _).
    destruct (processRow_accepted row index st Hok) as (v & -> & _ & Hsh & Havg).
    rewrite Hsym in *. cbn [map].
    rewrite (finite_Fin _ Hfq) in Hsh, Havg, Hg.
    rewrite (finite_Fin _ Hfc) in Havg.
    apply gt_zero_finite in Hg.
    set (q := finite (qty_of row)) in *. set (c := finite (cost_of row)) in *.
    destruct ps as [|p ps].
    + simpl in Ht. rewrite Ht in Hsh, Havg.
      exists v, c. rewrite map_get_set_eq.
      unfold sharesOf, costOf, sumQc. cbn [app map foldr fst snd].
      rewrite Qcplus_0_r. repeat split; try assumption. ring.
    + destruct Ht as (v0 & A0 & Hget & Hsh0 & Havg0 & Hcost & Hpos).
      rewrite Hget, Hsh0 in Hsh. rewrite Hget, Hsh0, Havg0 in Havg.
      destruct (weighted_mean (sharesOf (p :: ps)) A0 q c
                  (Qclt_le_weak _ _ Hpos) Hg) as (Hdiv & Hmean & Htot).
      rewrite Hdiv in Havg.
      change ((p :: ps) ++ [(q, c)]) with (p :: (ps ++ [(q, c)])).
      cbn [tallies]. change (p :: (ps ++ [(q, c)])) with ((p :: ps) ++ [(q, c)]).
      eexists v, _. rewrite map_get_set_eq, sharesOf_snoc, costOf_snoc.
      split; [reflexivity|]. split; [exact Hsh|]. split; [exact Havg|].
      split; [|exact Htot]. now rewrite Hmean, Hcost.
  - (* another row *)
    cbn [map]. rewrite app_nil_r.
    destruct (ok row) eqn:Hok.
    + destruct (processRow_accepted row index st Hok) as (v & -> & _).
      apply (tallies_ext _ _ (stockMap st)); [|exact Ht].
      apply map_get_set_ne. unfold carries in Hc. rewrite Hok in Hc.
      now apply String.eqb_neq in Hc.
    + now rewrite processRow_rejected.
Qed.

Lemma forEach_tallies sym rows : forall index st ps,
  tallies sym ps (stockMap st) ->
  (forall row, In row rows -> has_symbol sym row = true -> is_finite row = true) ->
  tallies sym (ps ++ bought sym rows) (stockMap (each index rows st)).
Proof.
  induction rows as [|row rows IH]; intros index st ps Ht Hfin.
  - simpl. unfold purchases. simpl. now rewrite app_nil_r.
  - simpl.
    replace (ps ++ bought sym (row :: rows))
      with ((ps ++ bought sym [row]) ++ bought sym rows).
    + apply IH.
      * apply processRow_tallies; [exact Ht|]. apply Hfin. now left.
      * intros r Hr. apply Hfin. now right.
    + rewrite <- app_assoc. f_equal. unfold purchases. cbn [List.filter].
      now destruct (has_symbol sym row).
Qed.

Lemma sortTransactions_fields v :
  symbol (sortTransactions Date_getTime v) = symbol v
  /\ shares (sortTransactions Date_getTime v) = shares v
  /\ avgBuyPrice (sortTransactions Date_getTime v) = avgBuyPrice v.
Proof. now unfold sortTransactions. Qed.

Lemma filter_symbol_absent sym m :
  sym ∉ map fst m -> Forall (fun kv => symbol kv.2 = kv.1) m ->
  List.filter (fun p => String.eqb (symbol p) sym)
    (map (sortTransactions Date_getTime) (map_values m)) = [].
Proof.
  induction m as [|[k x] m IH]; intros Hnot Hall; [reflexivity|].
  apply Forall_cons in Hall as [Hx Hm]. simpl in *.
  apply not_elem_of_cons in Hnot as [Hk Hnot].
  rewrite Hx. apply not_eq_sym, String.eqb_neq in Hk. rewrite Hk.
  now apply IH.
Qed.

Lemma filter_symbol_present sym v m :
  wellKeyed m -> map_get sym m = Some v ->
  List.filter (fun p => String.eqb (symbol p) sym)
    (map (sortTransactions Date_getTime) (map_values m))
  = [sortTransactions Date_getTime v].
Proof.
  intros [Hnd Hall]. induction m as [|[k x] m IH]; [discriminate|].
  apply Forall_cons in Hall as [Hx Hm]. simpl in Hx.
  apply NoDup_cons in Hnd as [Hk Hnd].
  cbn [map_get map_values map List.filter fst snd].
  change (symbol (sortTransactions Date_getTime x)) with (symbol x).
  rewrite Hx.
  destruct (String.eqb_spec k sym) as [->|Hne].
  - intros [= ->]. f_equal. now apply filter_symbol_absent.
  - intros Hget. now apply IH.
Qed.

(** The positions of a symbol after the import: one, with the shares of the
    accepted rows of the symbol and their cost over their shares. *)
Lemma import_aggregates_symbol (rows : list (list Cell)) (sym : string) :
  bought sym rows <> [] ->
  (forall row, In row rows -> has_symbol sym row = true -> is_finite row = true) ->
  exists p,
    List.filter (fun p => String.eqb (symbol p) sym) (aggregated rows) = [p]
    /\ shares p = Fin (sharesOf (bought sym rows))
    /\ avgBuyPrice p = Fin (costOf (bought sym rows) / sharesOf (bought sym rows)).
Proof.
  intros Hne Hfin.
  set (st0 := {| stockMap := []; importedCount := 0; reads := 0 |}).
  assert (Ht : tallies sym ([] ++ bought sym rows) (stockMap (each 0%nat rows st0))).
  { apply forEach_tallies; [reflexivity | exact Hfin]. }
  assert (Hwf : wellKeyed (stockMap (each 0%nat rows st0))).
  { apply forEach_wellKeyed. split; [apply NoDup_nil_2 | constructor]. }
  rewrite app_nil_l in Ht. unfold tallies in Ht.
  destruct (bought sym rows) as [|p ps] eqn:E; [congruence|].
  destruct Ht as (v & A & Hget & Hsh & Havg & Hcost & Hpos).
  exists (sortTransactions Date_getTime v). split.
  { unfold aggregate. now apply filter_symbol_present. }
  split; [exact Hsh|]. cbn [avgBuyPrice sortTransactions]. rewrite Havg.
  f_equal. rewrite <- Hcost. field.
  intros E0. rewrite E0 in Hpos. now apply Qclt_not_eq in Hpos.
Qed.

(** C7.  When two accepted rows of a sheet carry the same symbol, the import
    yields exactly one position for this symbol; its share count is the sum
    of the two quantities and its average cost is the total cost divided by
    the total of the shares. *)
Theorem two_rows_one_position (rows : list (list Cell)) (sym : string)
    (q1 c1 q2 c2 : Qc) :
  bought sym rows = [(q1, c1); (q2, c2)] ->
  (forall row, In row rows -> has_symbol sym row = true -> is_finite row = true) ->
  exists p,
    List.filter (fun p => String.eqb (symbol p) sym) (aggregated rows) = [p]
    /\ shares p = Fin (q1 + q2)
    /\ avgBuyPrice p = Fin ((q1 * c1 + q2 * c2) / (q1 + q2)).
Proof.
  intros Hrows Hfin.
  destruct (import_aggregates_symbol rows sym) as (p & Hp & Hsh & Havg);
    [rewrite Hrows; discriminate | exact Hfin |].
  rewrite Hrows in Hsh, Havg. exists p. split; [exact Hp|].
  unfold sharesOf, costOf, sumQc in Hsh, Havg. cbn [map foldr fst snd] in Hsh, Havg.
  rewrite Hsh, Havg. split; f_equal.
  - ring.
  - f_equal; ring.
Qed.

End ImportFacts.

(** ** The effects of the wrapper and of the analysis *)

Section EffectFacts.

Import Gemini.

Variable API_KEY : option string.
Variable generateContent : nat -> string -> Response + Error.
Variable JSON_parse : string -> option json.

Abbreviation result := (attemptResult generateContent JSON_parse).
Abbreviation trace := (attemptTrace generateContent JSON_parse).
Abbreviation fetch := (fetchGeminiResponse API_KEY generateContent JSON_parse).
Abbreviation analyse :=
  (generatePortfolioAnalysis API_KEY generateContent JSON_parse).

Lemma waited_app w l : waited (w ++ l) = (waited w + waited l)%nat.
Proof.
  unfold waited. induction w as [|e w IH]; [reflexivity|].
  simpl. rewrite IH. destruct e; lia.
Qed.

Lemma waited_trace n c : waited (trace n c) = 0%nat.
Proof.
  unfold attemptTrace. destruct (generateContent n c); [|reflexivity].
  now destruct (JSON_parse _).
Qed.

Lemma waited_gap k e :
  waited (gap k e) = if isRateLimit e then (3000 * k)%nat else 0%nat.
Proof. unfold gap. destruct (isRateLimit e); simpl; lia. Qed.

(** What a call of the wrapper adds to the world. *)
Lemma fetch_effects (prompt schema : string) (w : World) :
  exists out tl,
    fetch prompt schema w = (out, w ++ tl)
    /\ out <> OutOfFuel
    /\ (requests tl <= 3)%nat
    /\ (waited tl <= 3000 * 3)%nat
    /\ updates tl = []
    /\ ((forall k e, (k < 2)%nat ->
           result (requests w + k) (detailedPrompt prompt schema) = inr e ->
           isRateLimit e = false) ->
        waited tl = 0%nat)
    /\ (configured API_KEY = false -> tl = []).
Proof.
  destruct (configured API_KEY) eqn:Hkey.
  - rewrite (fetch_unrolled API_KEY generateContent JSON_parse prompt schema w Hkey).
    set (c := detailedPrompt prompt schema). set (n := requests w).
    destruct (result n c) as [r0|e1] eqn:E0;
      [|destruct (result (n + 1) c) as [r1|e2] eqn:E1;
        [|destruct (result (n + 2) c) as [r2|e3] eqn:E2]];
      eexists; eexists; (split; [reflexivity|]); (split; [discriminate|]);
      rewrite ?requests_app, ?waited_app, ?updates_app,
        ?(requests_trace generateContent JSON_parse),
        ?requests_gap, ?waited_trace, ?(updates_trace generateContent JSON_parse),
        ?updates_gap, ?waited_gap;
      change (requests [ConsoleError "Gemini analysis failed"]) with 0%nat;
      change (waited [ConsoleError "Gemini analysis failed"]) with 0%nat;
      change (updates [ConsoleError "Gemini analysis failed"]) with (@nil AnalysisResult);
      (split; [lia|]);
      (split; [repeat match goal with
                      | |- context [isRateLimit ?e] => destruct (isRateLimit e)
                      end; lia|]);
      (split; [reflexivity|]);
      (split; [|discriminate]);
      intros Hno;
      try (rewrite (Hno 0%nat e1) by (rewrite ?Nat.add_0_r; auto with lia));
      try (rewrite (Hno 1%nat e2) by auto with lia);
      reflexivity.
  - unfold fetchGeminiResponse, bind. rewrite (getAiClient_missing API_KEY w Hkey).
    exists (Thrown (new_Error "API Key not found")), []. rewrite app_nil_r.
    change (requests []) with 0%nat. change (waited []) with 0%nat.
    split; [reflexivity|]. split; [discriminate|]. split; [lia|]. split; [lia|]. split; [reflexivity|].
    split; reflexivity.
Qed.

(** X1.  One call of the wrapper sends at most three requests and waits at
    most nine seconds in all; it waits only after an attempt that failed with
    a rate limit, and it has no effect at all without an API key. *)
Theorem wrapper_effects_are_bounded (prompt schema : string) (w : World) :
  exists tl,
    snd (fetch prompt schema w) = w ++ tl
    /\ (requests tl <= 3)%nat
    /\ (waited tl <= 3000 * 3)%nat
    /\ updates tl = []
    /\ ((forall k e, (k < 2)%nat ->
           result (requests w + k) (detailedPrompt prompt schema) = inr e ->
           isRateLimit e = false) ->
        waited tl = 0%nat)
    /\ (configured API_KEY = false -> tl = []).
Proof.
  destruct (fetch_effects prompt schema w) as (out & tl & -> & _ & H).
  now exists tl.
Qed.

Lemma extractSources_found response l : extractSources response l = l ++ found response.
Proof.
  unfold extractSources, found.
  destruct (omap web (default [] (groundingChunks response))); simpl;
    [now rewrite app_nil_r | reflexivity].
Qed.

(** The analysis, unfolded: the effects of the first call, the mark of
    Phase 1, the effects of the second call, the mark of Phase 2. *)
Lemma analysis_unfolded (prompt1 schema1 prompt2 schema2 : string) (w : World) :
  exists out1 t1 out2 t2,
    fetch prompt1 schema1 w = (out1, w ++ t1)
    /\ fetch prompt2 schema2 (w ++ t1 ++ [mark1 out1])
       = (out2, w ++ t1 ++ [mark1 out1] ++ t2)
    /\ analyse prompt1 schema1 prompt2 schema2 w
       = (Returned tt, w ++ t1 ++ [mark1 out1] ++ t2 ++ [mark2 out1 out2])
    /\ (requests t1 <= 3)%nat /\ (waited t1 <= 3000 * 3)%nat /\ updates t1 = []
    /\ (requests t2 <= 3)%nat /\ (waited t2 <= 3000 * 3)%nat /\ updates t2 = []
    /\ (configured API_KEY = false -> t1 = [] /\ t2 = []).
Proof.
  destruct (fetch_effects prompt1 schema1 w)
    as (out1 & t1 & H1 & Hf1 & Hr1 & Hw1 & Hu1 & _ & Hk1).
  destruct (fetch_effects prompt2 schema2 (w ++ t1 ++ [mark1 out1]))
    as (out2 & t2 & H2 & Hf2 & Hr2 & Hw2 & Hu2 & _ & Hk2).
  exists out1, t1, out2, t2. rewrite <- !app_assoc in H2.
  split; [exact H1|]. split; [exact H2|].
  split; [|repeat split; auto].
  unfold generatePortfolioAnalysis.
  unfold bind at 1. unfold try_catch at 1. unfold bind at 1. rewrite H1.
  destruct out1 as [[data1 resp1]|e1|]; [| |congruence].
  - unfold bind at 1, emit at 1. unfold bind at 1, ret at 1.
    rewrite extractSources_found, app_nil_l.
    change (<["sources" := sourcesJson (found resp1)]> (spread ∅ data1))
      with (report1 (data1, resp1)).
    change (Update (report1 (data1, resp1))) with (mark1 (Returned (data1, resp1))).
    unfold try_catch, bind. rewrite <- app_assoc, H2.
    destruct out2 as [[data2 resp2]|e2|]; [| |congruence].
    + unfold emit. rewrite extractSources_found. rewrite <- !app_assoc. reflexivity.
    + unfold emit. rewrite <- !app_assoc. reflexivity.
  - unfold bind at 1, emit at 1. unfold ret at 1.
    change (ConsoleError "Phase 1 analysis failed") with (mark1 (@Thrown (json * Response) e1)).
    unfold try_catch, bind. rewrite <- app_assoc, H2.
    destruct out2 as [[data2 resp2]|e2|]; [| |congruence].
    + unfold emit. rewrite extractSources_found. rewrite <- !app_assoc. reflexivity.
    + unfold emit. rewrite <- !app_assoc. reflexivity.
Qed.

(** Without a key both phases fail at once. *)
Lemma analysis_silent (prompt1 schema1 prompt2 schema2 : string) (w : World) :
  configured API_KEY = false ->
  analyse prompt1 schema1 prompt2 schema2 w
  = (Returned tt,
     w ++ [ConsoleError "Phase 1 analysis failed";
           ConsoleWarn "Phase 2 analysis failed"]).
Proof.
  intros Hkey.
  assert (Hthrown : forall p s w0,
            fetch p s w0 = (Thrown (new_Error "API Key not found"), w0)).
  { intros p s w0. unfold fetchGeminiResponse, bind.
    now rewrite (getAiClient_missing API_KEY w0 Hkey). }
  unfold generatePortfolioAnalysis.
  unfold bind at 1. unfold try_catch at 1. unfold bind at 1. rewrite Hthrown.
  unfold bind at 1, emit at 1. unfold ret at 1.
  unfold try_catch, bind. rewrite Hthrown. unfold emit.
  now rewrite <- app_assoc.
Qed.

(** X2.  One run of the analysis sends at most six requests, waits at most
    eighteen seconds in all and calls the callback at most twice; without an
    API key it sends nothing and reports nothing. *)
Theorem analysis_effects_are_bounded (prompt1 schema1 prompt2 schema2 : string)
    (w : World) :
  exists tl,
    analyse prompt1 schema1 prompt2 schema2 w = (Returned tt, w ++ tl)
    /\ (requests tl <= 6)%nat
    /\ (waited tl <= 3000 * 6)%nat
    /\ (List.length (updates tl) <= 2)%nat
    /\ (configured API_KEY = false ->
        requests tl = 0%nat /\ updates tl = []).
Proof.
  destruct (analysis_unfolded prompt1 schema1 prompt2 schema2 w)
    as (out1 & t1 & out2 & t2 & H1 & H2 & H & Hr1 & Hw1 & Hu1 & Hr2 & Hw2 & Hu2 & Hk).
  exists (t1 ++ [mark1 out1] ++ t2 ++ [mark2 out1 out2]).
  split; [exact H|].
  rewrite !requests_app, !waited_app, !updates_app, Hu1, Hu2.
  assert (Hm1 : requests [mark1 out1] = 0%nat /\ waited [mark1 out1] = 0%nat
                /\ (List.length (updates [mark1 out1]) <= 1)%nat)
    by (destruct out1; simpl; auto).
  assert (Hm2 : requests [mark2 out1 out2] = 0%nat /\ waited [mark2 out1 out2] = 0%nat
                /\ (List.length (updates [mark2 out1 out2]) <= 1)%nat)
    by (destruct out2; simpl; auto).
  destruct Hm1 as (-> & -> & Hl1). destruct Hm2 as (-> & -> & Hl2).
  rewrite !length_app. cbn [List.length app].
  split; [lia|]. split; [lia|]. split; [lia|].
  intros Hkey. destruct (Hk Hkey) as [-> ->].
  assert (Hthrown : forall p s w0, exists e, fetch p s w0 = (Thrown e, w0)).
  { intros p s w0. unfold fetchGeminiResponse, bind.
    rewrite (getAiClient_missing API_KEY w0 Hkey). eauto. }
  destruct (Hthrown prompt1 schema1 w) as [e1 He1].
  rewrite app_nil_r in H1. rewrite He1 in H1. injection H1 as <-.
  destruct (Hthrown prompt2 schema2 (w ++ [] ++ [mark1 (Thrown e1)])) as [e2 He2].
  rewrite app_nil_r in H2. rewrite He2 in H2. injection H2 as <-.
  split; reflexivity.
Qed.

End EffectFacts.

(** ** The sources of an analysis *)

Section SourceFacts.

Import Gemini.

Lemma mapSet_uris item m :
  map uri (mapSet item m) =
  if bool_decide (uri item ∈ map uri m) then map uri m else map uri m ++ [uri item].
Proof.
  induction m as [|x m IH]; [reflexivity|]. simpl.
  destruct (String.eqb_spec (uri x) (uri item)) as [E|E]; simpl.
  - rewrite bool_decide_eq_true_2 by (rewrite E; left). now rewrite E.
  - rewrite IH. destruct (bool_decide (uri item ∈ map uri m)) eqn:B.
    + apply bool_decide_eq_true_1 in B.
      now rewrite bool_decide_eq_true_2 by now right.
    + apply bool_decide_eq_false_1 in B.
      rewrite bool_decide_eq_false_2; [reflexivity|].
      intros [H|H]%elem_of_cons; [congruence | contradiction].
Qed.

Lemma mapSet_NoDup item m : NoDup (map uri m) -> NoDup (map uri (mapSet item m)).
Proof.
  intros H. rewrite mapSet_uris. case_bool_decide as B; [exact H|].
  apply NoDup_app. split; [exact H|]. split; [|apply NoDup_singleton].
  intros u Hu ->%list_elem_of_singleton. contradiction.
Qed.

Lemma mapSet_elem x item m : x ∈ mapSet item m -> x = item \/ x ∈ m.
Proof.
  induction m as [|y m IH]; simpl.
  - intros ->%list_elem_of_singleton. now left.
  - destruct (String.eqb (uri y) (uri item)).
    + intros [->|H]%elem_of_cons; [now left | right; now right].
    + intros [->|H]%elem_of_cons; [right; now left|].
      destruct (IH H) as [->|H']; [now left | right; now right].
Qed.

Lemma mapSet_fresh item m : uri item ∉ map uri m -> mapSet item m = m ++ [item].
Proof.
  induction m as [|y m IH]; [reflexivity|]. simpl. intros H.
  apply not_elem_of_cons in H as [H1 H2].
  apply not_eq_sym, String.eqb_neq in H1. rewrite H1. now rewrite IH.
Qed.

Lemma uniqueByUri_from m l :
  NoDup (map uri m) ->
  let r := foldl (fun m item => mapSet item m) m l in
  NoDup (map uri r)
  /\ (forall u, u ∈ map uri r <-> u ∈ map uri m \/ u ∈ map uri l)
  /\ (forall x, x ∈ r -> x ∈ m \/ x ∈ l)
  /\ (NoDup (map uri (m ++ l)) -> r = m ++ l).
Proof.
  revert m. induction l as [|item l IH]; intros m Hm; simpl.
  - split; [exact Hm|]. split.
    + intros u. split; [now left|]. intros [H|H]; [exact H|]. inversion H.
    + split; [now left|]. now rewrite app_nil_r.
  - destruct (IH (mapSet item m) (mapSet_NoDup item m Hm)) as (Hnd & Hin & Hel & Hid).
    split; [exact Hnd|]. split; [|split].
    + intros u. rewrite Hin, mapSet_uris.
      case_bool_decide as B.
      * rewrite elem_of_cons. split; [tauto|]. intros [H|[->|H]]; auto.
      * rewrite elem_of_app, list_elem_of_singleton, elem_of_cons. tauto.
    + intros x Hx. destruct (Hel x Hx) as [H|H].
      * destruct (mapSet_elem _ _ _ H) as [->|H']; [right; now left | now left].
      * right; now right.
    + intros Hall. rewrite map_app in Hall. simpl in Hall.
      assert (Hfresh : uri item ∉ map uri m).
      { apply NoDup_app in Hall as (_ & Hdisj & _).
        intros Hin'. apply (Hdisj _ Hin'). now left. }
      rewrite (mapSet_fresh _ _ Hfresh) in Hid |- *.
      rewrite <- app_assoc in Hid. apply Hid.
      rewrite map_app. simpl. exact Hall.
Qed.

(** X3.  The duplicate removal of the sources keeps one source for each
    address: the addresses of the result are distinct and are those of the
    list, every source kept comes from the list, and a list without repeated
    address is returned as it is. *)
Theorem uniqueByUri_keeps_one_per_uri (l : list WebSource) :
  NoDup (map uri (uniqueByUri l))
  /\ (forall u, u ∈ map uri (uniqueByUri l) <-> u ∈ map uri l)
  /\ (forall x, x ∈ uniqueByUri l -> x ∈ l)
  /\ (NoDup (map uri l) -> uniqueByUri l = l).
Proof.
  destruct (uniqueByUri_from [] l (NoDup_nil_2)) as (Hnd & Hin & Hel & Hid).
  split; [exact Hnd|]. split; [|split].
  - intros u. rewrite (Hin u). split; [|now right].
    intros [H|H]; [inversion H | exact H].
  - intros x Hx. destruct (Hel x Hx) as [H|H]; [inversion H | exact H].
  - exact Hid.
Qed.

End SourceFacts.

Section ReportedSources.

Import Gemini.

Variable API_KEY : option string.
Variable generateContent : nat -> string -> Response + Error.
Variable JSON_parse : string -> option json.

(** X4.  The [sources] of a reported result never come from the data of the
    model: Phase 1 reports the sources found in its response, and Phase 2
    reports, without repeated address, those found in the responses of the
    phases that succeeded. *)
Theorem reported_sources_come_from_grounding
    (prompt1 schema1 prompt2 schema2 : string) (w : World) :
  exists out1 t1 m1 out2 t2 m2,
    fetchGeminiResponse API_KEY generateContent JSON_parse prompt1 schema1 w
      = (out1, w ++ t1)
    /\ fetchGeminiResponse API_KEY generateContent JSON_parse prompt2 schema2
         (w ++ t1 ++ [m1]) = (out2, w ++ t1 ++ [m1] ++ t2)
    /\ generatePortfolioAnalysis API_KEY generateContent JSON_parse
         prompt1 schema1 prompt2 schema2 w
       = (Returned tt, w ++ t1 ++ [m1] ++ t2 ++ [m2])
    /\ match out1 with
       | Returned (_, response1) =>
           exists res1,
             m1 = Update res1
             /\ res1 !! "sources" = Some (sourcesJson (found response1))
       | _ => True
       end
    /\ match out2 with
       | Returned (_, response2) =>
           exists res2 l,
             m2 = Update res2
             /\ res2 !! "sources" = Some (sourcesJson l)
             /\ NoDup (map uri l)
             /\ forall u, u ∈ map uri l <->
                  u ∈ map uri (sourcesOf out1) \/ u ∈ map uri (found response2)
       | _ => True
       end.
Proof.
  destruct (analysis_unfolded API_KEY generateContent JSON_parse
              prompt1 schema1 prompt2 schema2 w)
    as (out1 & t1 & out2 & t2 & H1 & H2 & H & _).
  exists out1, t1, (mark1 out1), out2, t2, (mark2 out1 out2).
  split; [exact H1|]. split; [exact H2|]. split; [exact H|]. split.
  - destruct out1 as [[data1 response1]|e1|]; [|exact I|exact I].
    eexists. split; [reflexivity|]. unfold report1. apply lookup_insert_eq.
  - destruct out2 as [[data2 response2]|e2|]; [|exact I|exact I].
    destruct (uniqueByUri_from [] (sourcesOf out1 ++ found response2) NoDup_nil_2)
      as (Hnd & Hin & _).
    eexists; eexists. split; [reflexivity|].
    split; [unfold report2; apply lookup_insert_eq|].
    split; [exact Hnd|].
    intros u. cbn [snd]. unfold uniqueByUri. rewrite (Hin u), map_app, elem_of_app.
    split; [|now right]. intros [Hn|Hu]; [inversion Hn | exact Hu].
Qed.

End ReportedSources.

(** ** The price refresh *)

Section PriceFacts.

Import Gemini GeminiService.

Variable API_KEY : option string.
Variable generateContent : nat -> string -> Response + Error.
Variable JSON_parse : string -> option json.
Variable priceSchema : string.

Abbreviation refresh :=
  (updateStockPrices API_KEY generateContent JSON_parse priceSchema).

Lemma orElse_keptOrTruthy a b : keptOrTruthy b (orElse a b).
Proof.
  unfold orElse, keptOrTruthy. destruct a as [v|]; [|now left].
  destruct (truthy v) eqn:E; [right; eauto | now left].
Qed.

Lemma unchanged_spec pos :
  sameHolding pos (unchanged pos) /\ sameOrBetterDetails pos (unchanged pos).
Proof. repeat split; now left. Qed.

Lemma reprice_spec updates pos p :
  reprice updates pos = Some p -> sameHolding pos p /\ sameOrBetterDetails pos p.
Proof.
  unfold reprice.
  destruct (find_update _ updates) as [[update|]|]; [| |discriminate].
  - destruct (truthy update).
    + destruct (member "currentPrice" update) as [price|]; [|discriminate].
      destruct (member "companyName" update) as [name|]; [|discriminate].
      destruct (member "sector" update) as [sect|]; [|discriminate].
      intros [= <-]. split; [repeat split|].
      repeat split; apply orElse_keptOrTruthy.
    + intros [= <-]. apply unchanged_spec.
  - intros [= <-]. apply unchanged_spec.
Qed.

Lemma repriceAll_spec data portfolio updated :
  repriceAll data portfolio = Some updated ->
  Forall2 (fun pos p => sameHolding pos p /\ sameOrBetterDetails pos p)
          portfolio updated.
Proof.
  unfold repriceAll. destruct (member "stocks" data) as [stocks|]; [|discriminate].
  destruct (orElse stocks (Some (JArray []))) as [[| | | |updates|]|]; try discriminate.
  intros H. apply mapM_Some in H.
  eapply Forall2_impl; [exact H|]. intros pos p. apply reprice_spec.
Qed.

Lemma unchanged_all portfolio :
  Forall2 (fun pos p => sameHolding pos p /\ sameOrBetterDetails pos p)
          portfolio (map unchanged portfolio).
Proof.
  induction portfolio as [|pos l IH]; constructor; [apply unchanged_spec | exact IH].
Qed.

(** The refresh, unfolded. *)
Lemma refresh_unfolded portfolio w :
  exists updated tl,
    refresh portfolio w = (Returned updated, w ++ tl)
    /\ (requests tl <= 3)%nat
    /\ (waited tl <= 3000 * 3)%nat
    /\ (portfolio = [] -> tl = [])
    /\ Forall2 (fun pos p => sameHolding pos p /\ sameOrBetterDetails pos p)
               portfolio updated.
Proof.
  unfold updateStockPrices.
  destruct (List.length portfolio =? 0)%nat eqn:Hlen.
  { apply Nat.eqb_eq, nil_length_inv in Hlen as ->.
    exists [], []. rewrite app_nil_r.
    change (requests []) with 0%nat. change (waited []) with 0%nat.
    split; [reflexivity|]. split; [lia|]. split; [lia|]. split; [reflexivity|].
    constructor. }
  assert (Hne : portfolio <> []) by (intros ->; discriminate).
  destruct (fetch_effects API_KEY generateContent JSON_parse
              (pricePrompt portfolio) priceSchema w)
    as (out & tl & Hf & Hnf & Hr & Hw & _).
  unfold try_catch. unfold bind at 1. rewrite Hf.
  assert (Hfail : exists updated tl',
            (emit (ConsoleWarn "Failed to update prices") ;;;
             ret (map unchanged portfolio)) (w ++ tl) = (Returned updated, w ++ tl')
            /\ (requests tl' <= 3)%nat /\ (waited tl' <= 3000 * 3)%nat
            /\ Forall2 (fun pos p => sameHolding pos p /\ sameOrBetterDetails pos p)
                       portfolio updated).
  { exists (map unchanged portfolio), (tl ++ [ConsoleWarn "Failed to update prices"]).
    unfold bind, emit, ret. rewrite <- app_assoc. split; [reflexivity|].
    rewrite requests_app, waited_app.
    change (requests [ConsoleWarn "Failed to update prices"]) with 0%nat.
    change (waited [ConsoleWarn "Failed to update prices"]) with 0%nat.
    split; [lia|]. split; [lia|]. apply unchanged_all. }
  destruct out as [[data response]|e|]; [| |congruence].
  - cbn [fst]. destruct (repriceAll data portfolio) as [updated|] eqn:E.
    + exists updated, tl. unfold ret. split; [reflexivity|].
      split; [exact Hr|]. split; [exact Hw|]. split; [contradiction|].
      now apply (repriceAll_spec data).
    + unfold throw. destruct Hfail as (updated & tl' & H & Hr' & Hw' & Hall).
      exists updated, tl'. rewrite H.
      split; [reflexivity|]. split; [exact Hr'|]. split; [exact Hw'|].
      split; [contradiction | exact Hall].
  - destruct Hfail as (updated & tl' & H & Hr' & Hw' & Hall).
    exists updated, tl'. rewrite H.
      split; [reflexivity|]. split; [exact Hr'|]. split; [exact Hw'|].
      split; [contradiction | exact Hall].
Qed.

(** X5.  The price refresh never throws and never touches the holdings: it
    returns as many positions as it was given, in the same order, each with
    the id, symbol, shares, average cost and transactions it had, after at
    most three requests, and none for an empty portfolio. *)
Theorem refresh_keeps_holdings (portfolio : list StockPosition) (w : World) :
  exists updated tl,
    refresh portfolio w = (Returned updated, w ++ tl)
    /\ (requests tl <= 3)%nat
    /\ (portfolio = [] -> updated = [] /\ tl = [])
    /\ List.length updated = List.length portfolio
    /\ forall i pos, portfolio !! i = Some pos ->
         exists p, updated !! i = Some p /\ sameHolding pos p.
Proof.
  destruct (refresh_unfolded portfolio w) as (updated & tl & H & Hr & _ & He & Hall).
  exists updated, tl. split; [exact H|]. split; [exact Hr|]. split.
  { intros ->. split; [|now apply He]. now inversion Hall. }
  split; [symmetry; now apply (Forall2_length _ _ _ Hall)|].
  intros i pos Hi. destruct (Forall2_lookup_l _ _ _ _ _ Hall Hi) as (p & Hp & Hs & _).
  eauto.
Qed.

(** X6.  The price refresh never replaces a price, a company name or a sector
    by a value that counts as false (zero, an empty string, [null], a missing
    field): each of the three is the one the position had or a value of the
    answer that counts as true. *)
Theorem refresh_never_blanks_a_detail (portfolio : list StockPosition) (w : World)
    (i : nat) (pos : StockPosition) :
  portfolio !! i = Some pos ->
  exists updated w' p,
    refresh portfolio w = (Returned updated, w')
    /\ updated !! i = Some p
    /\ sameOrBetterDetails pos p.
Proof.
  intros Hi.
  destruct (refresh_unfolded portfolio w) as (updated & tl & H & _ & _ & _ & Hall).
  destruct (Forall2_lookup_l _ _ _ _ _ Hall Hi) as (p & Hp & _ & Hd).
  eauto 6.
Qed.

Lemma field_lastNamed k fields : field k fields = lastNamed k fields.
Proof. rewrite <- property_object. reflexivity. Qed.

Lemma nameless_symbolOf u : nameless u -> symbolOf u = None.
Proof.
  unfold nameless, symbolOf, member.
  destruct u as [| | | | |fields]; try reflexivity.
  rewrite field_lastNamed.
  destruct (lastNamed "symbol" fields) as [[| | |s| |]|]; try reflexivity.
  contradiction.
Qed.

Lemma unreadable_repriceAll data pos portfolio :
  unreadable data -> repriceAll data (pos :: portfolio) = None.
Proof.
  intros [->|[(fields & v & -> & Hv & Ht & Hna)|(fields & u & rest & -> & Hv & Hu)]].
  - reflexivity.
  - unfold repriceAll, member. rewrite field_lastNamed, Hv.
    unfold orElse. rewrite Ht.
    destruct v as [| | | |items|]; try reflexivity.
    now destruct (Hna items).
  - unfold repriceAll, member. rewrite field_lastNamed, Hv.
    unfold orElse. cbn [truthy].
    assert (Hr : reprice (u :: rest) pos = None).
    { unfold reprice. cbn [find_update]. now rewrite (nameless_symbolOf u Hu). }
    cbn [mapM]. now rewrite Hr.
Qed.

(** X7.  When the wrapper throws, or when its answer cannot be read (the data
    is null, its stocks are a true value and no array, or the first entry of
    the stocks has no text for a symbol), the price refresh returns the
    portfolio as it was given. *)
Theorem refresh_failure_returns_the_portfolio (portfolio : list StockPosition)
    (w : World) :
  let call :=
    fetchGeminiResponse API_KEY generateContent JSON_parse
      (pricePrompt portfolio) priceSchema w in
  (exists e, fst call = Thrown e)
  \/ (exists data response,
        fst call = Returned (data, response) /\ unreadable data) ->
  fst (refresh portfolio w) = Returned (map unchanged portfolio).
Proof.
  intros call H. unfold updateStockPrices.
  destruct portfolio as [|pos portfolio]; [reflexivity|].
  cbn [List.length Nat.eqb].
  unfold try_catch. unfold bind at 1. fold call.
  destruct call as [out w'] eqn:Hcall. cbn [fst] in H.
  destruct H as [[e ->]|(data & response & -> & Hbad)]; [reflexivity|].
  cbn [fst]. now rewrite (unreadable_repriceAll data pos portfolio Hbad).
Qed.

End PriceFacts.

(** ** The chat *)

Section AdvisorFacts.

Import Gemini GeminiService.

Variable API_KEY : option string.
Variable generateContent : nat -> string -> Response + Error.
Variable JSON_parse : string -> option json.
Variable priceSchema : string.
Variable NumberToString : number -> string.

Abbreviation ask :=
  (askAdvisor API_KEY generateContent NumberToString).

(** X8.  The chat never throws and never answers with an empty string: it
    sends at most one request, answers with the text of the response when that
    is a non-empty string, and without a key sends nothing and answers with
    its fixed sentence. *)
Theorem advisor_always_answers (query : string) (portfolio : list StockPosition)
    (w : World) :
  exists answer tl,
    ask query portfolio w = (Returned answer, w ++ tl)
    /\ (requests tl <= 1)%nat
    /\ answer <> ""
    /\ (configured API_KEY = false ->
        requests tl = 0%nat
        /\ answer = "I'm having trouble connecting to my knowledge base right now.")
    /\ (forall response t,
          configured API_KEY = true ->
          generateContent (requests w) (advisorPrompt NumberToString query portfolio)
            = inl response ->
          text response = Some t -> t <> "" ->
          answer = t).
Proof.
  unfold askAdvisor, try_catch. unfold bind at 1.
  destruct (configured API_KEY) eqn:Hkey.
  - rewrite (getAiClient_configured _ _ Hkey).
    destruct (generateContent _ _) as [response|error] eqn:Hg.
    + eexists _, [Request _]. split; [reflexivity|].
      split; [reflexivity|]. split.
      { destruct (text response) as [[|c t]|]; discriminate. }
      split; [discriminate|].
      intros response' t _ [= <-] -> Ht. now destruct t.
    + eexists _, [Request _; ConsoleWarn _]. split.
      { unfold bind, emit, ret. now rewrite <- app_assoc. }
      split; [reflexivity|]. split; [discriminate|].
      split; [discriminate|]. intros response t _ [=].
  - rewrite (getAiClient_missing _ _ Hkey).
    eexists _, [ConsoleWarn _]. split; [reflexivity|].
    split; [cbn; lia|]. split; [discriminate|].
    split; [now split|]. discriminate.
Qed.

End AdvisorFacts.

(** ** The ledger as a whole *)

Section PortfolioFacts.

Variable Date_getTime : string -> number.

Lemma findIndex_None {A} (pred : A -> bool) (l : list A) :
  App.findIndex pred l = None -> Forall (fun x => pred x = false) l.
Proof.
  induction l as [|a l IH]; simpl; [constructor|].
  destruct (pred a) eqn:E; [discriminate|].
  destruct (App.findIndex pred l); [discriminate|]. intros _. constructor; auto.
Qed.

Lemma findIndex_Some {A} (pred : A -> bool) (l : list A) (i : nat) :
  App.findIndex pred l = Some i -> exists x, l !! i = Some x /\ pred x = true.
Proof.
  revert i. induction l as [|a l IH]; intros i; simpl; [discriminate|].
  destruct (pred a) eqn:E.
  - intros [= <-]. eauto.
  - destruct (App.findIndex pred l) as [j|]; [|discriminate].
    intros [= <-]. destruct (IH j eq_refl) as (x & Hx & Hp). eauto.
Qed.

Lemma addStock_tickers now_ms now_iso stock prev :
  map ticker (App.addStock now_ms now_iso stock prev) = map ticker prev
  \/ (map ticker (App.addStock now_ms now_iso stock prev)
        = map ticker prev ++ [ticker stock]
      /\ ticker stock ∉ map ticker prev).
Proof.
  unfold App.addStock.
  destruct (App.findIndex _ prev) as [i|] eqn:E.
  - left. destruct (prev !! i) as [existing|] eqn:Hi; [|reflexivity].
    rewrite list_fmap_insert. apply list_insert_id.
    rewrite list_lookup_fmap, Hi. reflexivity.
  - right. rewrite fmap_app. split; [reflexivity|].
    apply findIndex_None in E. intros Hin.
    apply list_elem_of_fmap in Hin as (q & Hq & Hin).
    rewrite Forall_forall in E. specialize (E q Hin). simpl in E.
    unfold ticker in Hq. rewrite Hq, String.eqb_refl in E. discriminate.
Qed.

Lemma addStock_distinct now_ms now_iso stock prev :
  distinctSymbols prev -> distinctSymbols (App.addStock now_ms now_iso stock prev).
Proof.
  unfold distinctSymbols. intros H.
  destruct (addStock_tickers now_ms now_iso stock prev) as [->|[-> Hnew]]; [exact H|].
  apply NoDup_app. split; [exact H|]. split; [|apply NoDup_singleton].
  intros x Hx Hx'. apply list_elem_of_singleton in Hx'. now subst x.
Qed.

Lemma transact_tickers stockId t prev :
  map ticker (App.transact Date_getTime stockId t prev) = map ticker prev.
Proof.
  unfold App.transact. rewrite <- list_fmap_compose. apply list_fmap_ext.
  intros i p _. simpl. destruct (negb _); [reflexivity|].
  unfold ticker. now rewrite applyTransaction_symbol.
Qed.

Lemma filter_distinct (P : StockPosition -> Prop) `{!forall x, Decision (P x)} l :
  distinctSymbols l -> distinctSymbols (filter P l).
Proof.
  unfold distinctSymbols. intros Hl. eapply sublist_NoDup; [exact Hl|].
  apply fmap_sublist, sublist_filter.
Qed.

Lemma step_distinct e st :
  bringsDistinct e -> distinctSymbols (App.portfolio st) ->
  distinctSymbols (App.portfolio (App.step Date_getTime e st)).
Proof.
  intros He H. destruct e; simpl in *; try exact H.
  - now apply addStock_distinct.
  - exact He.
  - unfold distinctSymbols. now rewrite transact_tickers.
  - now apply filter_distinct.
  - unfold App.handleReset. destruct confirmed; [apply NoDup_nil_2 | exact H].
  - unfold App.handleRefreshPrices_begin. now destruct (_ =? _)%nat.
  - unfold App.handleRefreshPrices_resume. destruct result as [updated|]; simpl.
    + now destruct (_ =? _)%nat.
    + exact H.
Qed.

(** X9.  The handlers never make a second position for a symbol: when the
    portfolio has distinct symbols, up to case, and so has each portfolio that
    an import or a settled refresh brings, the portfolio has distinct symbols
    after any run of events. *)
Theorem symbols_stay_distinct (es : list App.Event) (st : App.State) :
  distinctSymbols (App.portfolio st) ->
  Forall bringsDistinct es ->
  distinctSymbols (App.portfolio (App.run Date_getTime es st)).
Proof.
  revert st. induction es as [|e es IH]; intros st H Hes; [exact H|].
  apply Forall_cons in Hes as [He Hes]. simpl. apply IH; [|exact Hes].
  now apply step_distinct.
Qed.

Lemma findIndex_absent {A} (pred : A -> bool) (l : list A) :
  Forall (fun x => pred x = false) l -> App.findIndex pred l = None.
Proof.
  induction 1 as [|a l Ha _ IH]; simpl; [reflexivity|]. now rewrite Ha, IH.
Qed.

(** X10.  Adding a stock whose symbol and id are new and removing it again
    gives the portfolio back. *)
Theorem added_stock_can_be_removed (now_ms now_iso : string) (stock : StockPosition)
    (st : App.State) :
  Forall (fun p => ticker p <> ticker stock) (App.portfolio st) ->
  Forall (fun p => id p <> id stock) (App.portfolio st) ->
  App.portfolio
    (App.handleRemoveStock (id stock) (App.handleAddStock now_ms now_iso stock st))
  = App.portfolio st.
Proof.
  intros Hsym Hid. simpl. unfold App.addStock.
  rewrite findIndex_absent.
  2:{ eapply Forall_impl; [exact Hsym|]. intros p Hp. simpl.
      apply String.eqb_neq. exact Hp. }
  rewrite filter_app, filter_cons_False, filter_nil, app_nil_r by (simpl; auto).
  clear Hsym. induction Hid as [|p l Hp _ IH]; [reflexivity|].
  rewrite filter_cons_True by exact Hp. now rewrite IH.
Qed.

(** *** The transaction history *)

Lemma sort_insert_perm {A} (cmp : A -> A -> number) x l :
  App.sort_insert cmp x l ≡ₚ x :: l.
Proof.
  induction l as [|y l IH]; cbn [App.sort_insert]; [reflexivity|].
  destruct (JS.gt (cmp x y) JS.zero); [|reflexivity].
  rewrite IH. apply Permutation_swap.
Qed.

Lemma sort_perm {A} (cmp : A -> A -> number) (l : list A) : App.sort cmp l ≡ₚ l.
Proof.
  unfold App.sort. induction l as [|x l IH]; simpl; [reflexivity|].
  now rewrite sort_insert_perm, IH.
Qed.

Lemma later_spec a b :
  JS.isFinite (timeOf Date_getTime a) = true ->
  JS.isFinite (timeOf Date_getTime b) = true ->
  JS.gt (App.byDateDesc Date_getTime a b) JS.zero
  = negb (JS.le (timeOf Date_getTime b) (timeOf Date_getTime a)).
Proof.
  unfold App.byDateDesc, timeOf.
  destruct (Date_getTime (tx_date a)) as [x| | |]; try discriminate.
  destruct (Date_getTime (tx_date b)) as [y| | |]; try discriminate.
  intros _ _. cbn. rewrite negb_involutive.
  destruct (JS.Qc_ltb x y) eqn:E.
  - apply Qc_ltb_lt. apply Qc_ltb_lt in E.
    apply (Qcplus_lt_mono_r _ _ x). ring_simplify. exact E.
  - destruct (JS.Qc_ltb 0 (y + - x)) eqn:E'; [|reflexivity].
    apply Qc_ltb_lt in E'. apply (Qcplus_lt_mono_r _ _ x) in E'.
    ring_simplify in E'. apply Qc_ltb_lt in E'. congruence.
Qed.

Lemma le_trans_finite a b c :
  dated Date_getTime [a; b; c] ->
  JS.le (timeOf Date_getTime b) (timeOf Date_getTime a) = true ->
  JS.le (timeOf Date_getTime c) (timeOf Date_getTime b) = true ->
  JS.le (timeOf Date_getTime c) (timeOf Date_getTime a) = true.
Proof.
  unfold dated. rewrite !Forall_cons. intros (Ha & Hb & Hc & _).
  destruct (timeOf Date_getTime a) as [x| | |]; try discriminate.
  destruct (timeOf Date_getTime b) as [y| | |]; try discriminate.
  destruct (timeOf Date_getTime c) as [z| | |]; try discriminate.
  cbn. rewrite !negb_true_iff. intros H1 H2.
  destruct (JS.Qc_ltb x z) eqn:E; [|reflexivity].
  apply Qc_ltb_lt in E.
  assert (Hyx : y <= x).
  { apply Qcnot_lt_le. intros H. apply Qc_ltb_lt in H. congruence. }
  assert (Hzy : z <= y).
  { apply Qcnot_lt_le. intros H. apply Qc_ltb_lt in H. congruence. }
  exfalso. apply (Qclt_not_le _ _ E). now apply Qcle_trans with y.
Qed.

Lemma le_total_finite a b :
  JS.isFinite (timeOf Date_getTime a) = true ->
  JS.isFinite (timeOf Date_getTime b) = true ->
  JS.le (timeOf Date_getTime b) (timeOf Date_getTime a) = false ->
  JS.le (timeOf Date_getTime a) (timeOf Date_getTime b) = true.
Proof.
  destruct (timeOf Date_getTime a) as [x| | |]; try discriminate.
  destruct (timeOf Date_getTime b) as [y| | |]; try discriminate.
  intros _ _. cbn. rewrite negb_false_iff, negb_true_iff. intros H.
  apply Qc_ltb_lt in H.
  destruct (JS.Qc_ltb y x) eqn:E; [|reflexivity].
  apply Qc_ltb_lt in E. exfalso. apply (Qclt_not_le _ _ E), Qclt_le_weak, H.
Qed.

Lemma Forall_sort_insert {A} (P : A -> Prop) (cmp : A -> A -> number) x l :
  P x -> Forall P l -> Forall P (App.sort_insert cmp x l).
Proof.
  intros Hx Hl.
  induction Hl as [|y l Hy Hl IH]; cbn [App.sort_insert]; [now constructor|].
  destruct (JS.gt (cmp x y) JS.zero); repeat constructor; auto.
Qed.

Lemma sort_insert_newestFirst x l :
  dated Date_getTime (x :: l) ->
  newestFirst Date_getTime l ->
  newestFirst Date_getTime (App.sort_insert (App.byDateDesc Date_getTime) x l).
Proof.
  unfold newestFirst. intros Hd Hs. apply Forall_cons in Hd as [Hx Hd].
  induction Hs as [|y l Hs IH Hy]; cbn [App.sort_insert].
  { constructor; constructor. }
  apply Forall_cons in Hd as [Hy' Hd].
  rewrite (later_spec x y Hx Hy').
  destruct (JS.le _ _) eqn:E; simpl.
  - constructor; [now constructor|]. constructor; [exact E|].
    rewrite Forall_forall in Hy, Hd. apply Forall_forall. intros z Hz.
    apply (le_trans_finite x y z); [|exact E|now apply Hy].
    repeat constructor; auto.
  - constructor; [now apply IH|].
    apply Forall_sort_insert; [|exact Hy].
    now apply le_total_finite.
Qed.

Lemma sort_newestFirst l :
  dated Date_getTime l ->
  newestFirst Date_getTime (App.sort (App.byDateDesc Date_getTime) l).
Proof.
  unfold App.sort. induction l as [|x l IH]; intros Hd; simpl; [constructor|].
  pose proof Hd as Hd'. apply Forall_cons in Hd' as [Hx Hl].
  apply sort_insert_newestFirst; [|now apply IH].
  constructor; [exact Hx|].
  unfold dated. fold (App.sort (App.byDateDesc Date_getTime) l).
  now rewrite sort_perm.
Qed.

(** X11.  [handleTransaction] loses no transaction and keeps the history in
    order: the history of the position becomes a rearrangement of its earlier
    history and the new transaction, newest first when every date of it is a
    date. *)
Theorem history_is_kept_newest_first (stockId : string) (t : Transaction)
    (st : App.State) (i : nat) (p : StockPosition) :
  App.portfolio st !! i = Some p ->
  id p = stockId ->
  exists p' history,
    App.portfolio (App.handleTransaction Date_getTime stockId t st) !! i = Some p'
    /\ transactions p' = Some history
    /\ history ≡ₚ default [] (transactions p) ++ [t]
    /\ (dated Date_getTime (default [] (transactions p) ++ [t]) ->
        newestFirst Date_getTime history).
Proof.
  intros Hp Hid.
  exists (App.applyTransaction Date_getTime t p). eexists. split.
  { simpl. now apply transact_lookup_hit. }
  unfold App.applyTransaction.
  destruct (match tx_type t with BUY => _ | SELL => _ end) as [newShares newAvg].
  cbn [transactions]. split; [reflexivity|].
  assert (Heq : match transactions p with
                | Some txs => txs ++ [t] | None => [t] end
                = default [] (transactions p) ++ [t]) by now destruct (transactions p).
  rewrite Heq. split; [apply sort_perm | apply sort_newestFirst].
Qed.

End PortfolioFacts.

(** ** A refresh that settles late *)

Section LateRefresh.

Variable Date_getTime : string -> number.

(** X12.  A refresh that settles on a portfolio that is not empty overwrites
    it: whatever the events between the request and its answer did to the
    portfolio, the portfolio becomes the refreshed one, and the flag is
    lowered. *)
Theorem settled_refresh_overwrites (st : App.State) (es : list App.Event)
    (updated : list StockPosition) :
  synced st ->
  let later := App.run Date_getTime es (App.handleRefreshPrices_begin st) in
  let settled := App.handleRefreshPrices_resume (Some updated) later in
  App.portfolio later <> [] ->
  App.portfolio settled = updated
  /\ App.portfolioRef settled = updated
  /\ App.isRefreshing settled = false
  /\ App.liquidCash settled = App.liquidCash later.
Proof.
  intros Hs later settled Hne.
  assert (Hlater : synced later).
  { apply run_synced.
    apply (step_synced Date_getTime App.RefreshPrices st Hs). }
  subst settled. unfold App.handleRefreshPrices_resume. rewrite Hlater.
  destruct (App.portfolio later) eqn:E; [congruence|]. simpl. auto.
Qed.

End LateRefresh.

(** ** The analysis handler *)

Section AnalysisHandlerFacts.

Import Gemini AppAnalysis.

Variable API_KEY : option string.
Variable generateContent : nat -> string -> Response + Error.
Variable JSON_parse : string -> option json.
Variable prompt1 prompt2 : list StockPosition -> number -> string.
Variable schema1 schema2 : string.

Abbreviation runAnalysis :=
  (handleRunAnalysis API_KEY generateContent JSON_parse
     prompt1 prompt2 schema1 schema2).

Lemma merge_untouched newId p l :
  Forall (fun item => hasId newId item = false) l -> merge newId p l = l.
Proof.
  unfold merge. induction 1 as [|x l Hx _ IH]; simpl; [reflexivity|].
  now rewrite Hx, IH.
Qed.

Lemma merged_history newId entry prev st ps :
  analysisHistory st = entry :: prev ->
  Forall (fun item => hasId newId item = false) prev ->
  let st' :=
    foldl (fun st p => setAnalysisHistory (merge newId p) st) st ps in
  analysisHistory st' = filled newId entry ps :: prev
  /\ viewingAnalysisId st' = viewingAnalysisId st
  /\ isAnalyzing st' = isAnalyzing st
  /\ analysisError st' = analysisError st.
Proof.
  intros Hh Hprev. revert st entry Hh.
  induction ps as [|p ps IH]; intros st entry Hh; simpl.
  { now rewrite Hh. }
  destruct (IH (setAnalysisHistory (merge newId p) st)
              (if hasId newId entry then p ∪ entry else entry)) as (H1 & H2 & H3 & H4).
  { simpl. rewrite Hh. simpl. now rewrite merge_untouched. }
  rewrite H1, H2, H3, H4. auto.
Qed.

Lemma merged_length newId st ps :
  let st' :=
    foldl (fun st p => setAnalysisHistory (merge newId p) st) st ps in
  List.length (analysisHistory st') = List.length (analysisHistory st)
  /\ viewingAnalysisId st' = viewingAnalysisId st
  /\ isAnalyzing st' = isAnalyzing st
  /\ analysisError st' = analysisError st.
Proof.
  revert st. induction ps as [|p ps IH]; intros st; simpl; [auto|].
  destruct (IH (setAnalysisHistory (merge newId p) st)) as (H1 & H2 & H3 & H4).
  rewrite H1, H2, H3, H4. simpl. unfold merge. now rewrite length_map.
Qed.

(** The handler, unfolded. *)
Lemma runAnalysis_unfolded newId timestamp ledger st w :
  nothingToAnalyse ledger = false ->
  exists tl,
    generatePortfolioAnalysis API_KEY generateContent JSON_parse
      (prompt1 (App.portfolio ledger) (App.liquidCash ledger)) schema1
      (prompt2 (App.portfolio ledger) (App.liquidCash ledger)) schema2 w
    = (Returned tt, w ++ tl)
    /\ (requests tl <= 6)%nat
    /\ (configured API_KEY = false -> updates tl = [])
    /\ runAnalysis newId timestamp ledger st w
       = (setIsAnalyzing false
            (foldl (fun st p => setAnalysisHistory (merge newId p) st)
                   (mkState (newEntry newId timestamp :: analysisHistory st)
                            (Some newId) true "")
                   (updates tl)),
          w ++ tl).
Proof.
  intros Hg.
  destruct (analysis_unfolded API_KEY generateContent JSON_parse
              (prompt1 (App.portfolio ledger) (App.liquidCash ledger)) schema1
              (prompt2 (App.portfolio ledger) (App.liquidCash ledger)) schema2 w)
    as (out1 & t1 & out2 & t2 & _ & _ & Ha & Hr1 & _ & Hu1 & Hr2 & _ & Hu2 & Hk).
  eexists. split; [exact Ha|]. split.
  { rewrite !requests_app.
    assert (requests [mark1 out1] = 0)%nat by now destruct out1.
    assert (requests [mark2 out1 out2] = 0)%nat by now destruct out2.
    lia. }
  split.
  { intros Hkey.
    rewrite (analysis_silent API_KEY generateContent JSON_parse _ _ _ _ w Hkey) in Ha.
    apply pair_equal_spec in Ha as [_ Ha]. apply app_inv_head in Ha.
    now rewrite <- Ha. }
  unfold handleRunAnalysis. fold (nothingToAnalyse ledger). rewrite Hg, Ha.
  rewrite drop_app_length. reflexivity.
Qed.

Lemma newEntry_hasId newId timestamp : hasId newId (newEntry newId timestamp) = true.
Proof.
  unfold hasId, newEntry.
  rewrite lookup_insert_ne by discriminate. rewrite lookup_insert.
  apply String.eqb_refl.
Qed.

Lemma filled_spec newId entry ps :
  hasId newId entry = true ->
  Forall (fun p : AnalysisResult => p !! "id" = None) ps ->
  hasId newId (filled newId entry ps) = true
  /\ forall p, last ps = Some p -> p ⊆ filled newId entry ps.
Proof.
  intros He Hps. revert entry He.
  induction Hps as [|p ps Hp _ IH]; intros entry He; simpl.
  { split; [exact He | discriminate]. }
  rewrite He.
  assert (He' : hasId newId (p ∪ entry) = true).
  { unfold hasId in *. now rewrite lookup_union_r. }
  destruct (IH _ He') as [H1 H2]. split; [exact H1|].
  intros q Hq. destruct ps as [|p' ps].
  - injection Hq as <-. simpl. apply map_union_subseteq_l.
  - apply H2. exact Hq.
Qed.

(** X13.  [handleRunAnalysis] always settles, after at most six requests, and
    never reports the analysis as unavailable: with no position and no cash it
    sends nothing, keeps the history and asks for assets; otherwise it lowers
    the flag, clears the error, selects the new entry and leaves the history
    one entry longer. *)
Theorem analysis_run_settles (newId : string) (timestamp : number)
    (ledger : App.State) (st : State) (w : World) :
  exists st' tl,
    runAnalysis newId timestamp ledger st w = (st', w ++ tl)
    /\ (requests tl <= 6)%nat
    /\ analysisError st' <> "Analysis unavailable. Try again later."
    /\ if nothingToAnalyse ledger
       then tl = []
            /\ analysisHistory st' = analysisHistory st
            /\ viewingAnalysisId st' = viewingAnalysisId st
            /\ isAnalyzing st' = isAnalyzing st
            /\ analysisError st' = "Please add assets or update liquid cash first."
       else isAnalyzing st' = false
            /\ analysisError st' = ""
            /\ viewingAnalysisId st' = Some newId
            /\ List.length (analysisHistory st')
               = S (List.length (analysisHistory st)).
Proof.
  destruct (nothingToAnalyse ledger) eqn:Hg.
  - exists (setAnalysisError "Please add assets or update liquid cash first." st), [].
    unfold handleRunAnalysis. fold (nothingToAnalyse ledger). rewrite Hg, app_nil_r.
    split; [reflexivity|]. split; [cbn; lia|]. split; [discriminate|].
    repeat split.
  - destruct (runAnalysis_unfolded newId timestamp ledger st w Hg)
      as (tl & _ & Hr & _ & H).
    eexists _, tl. split; [exact H|]. split; [exact Hr|].
    destruct (merged_length newId
                (mkState (newEntry newId timestamp :: analysisHistory st)
                         (Some newId) true "") (updates tl)) as (H1 & H2 & H3 & H4).
    cbn [analysisError setIsAnalyzing isAnalyzing viewingAnalysisId analysisHistory].
    rewrite H1, H2, H4. cbn. split; [discriminate|]. repeat split.
Qed.

(** X14.  A run of the analysis touches no older entry: when there is
    something to analyse and no entry of the history carries the new id, the
    history becomes one new entry followed by the history as it was; without
    an API key that entry holds the id and the timestamp only and no error is
    set; and when no partial result carries an id, the entry keeps the new id,
    is the analysis on display and holds every field of the last partial
    result. *)
Theorem analysis_run_fills_one_entry (newId : string) (timestamp : number)
    (ledger : App.State) (st : State) (w : World) :
  nothingToAnalyse ledger = false ->
  Forall (fun item => hasId newId item = false) (analysisHistory st) ->
  exists st' tl entry,
    runAnalysis newId timestamp ledger st w = (st', w ++ tl)
    /\ analysisHistory st' = entry :: analysisHistory st
    /\ (configured API_KEY = false ->
        entry = newEntry newId timestamp /\ analysisError st' = "")
    /\ (Forall (fun p : AnalysisResult => p !! "id" = None) (updates tl) ->
        entry !! "id" = Some (JString newId)
        /\ currentAnalysis st' = Some entry
        /\ forall p, last (updates tl) = Some p -> p ⊆ entry).
Proof.
  intros Hg Hold.
  destruct (runAnalysis_unfolded newId timestamp ledger st w Hg)
    as (tl & _ & _ & Hk & H).
  destruct (merged_history newId (newEntry newId timestamp) (analysisHistory st)
              (mkState (newEntry newId timestamp :: analysisHistory st)
                       (Some newId) true "") (updates tl) eq_refl Hold)
    as (H1 & H2 & H3 & H4).
  eexists _, tl, (filled newId (newEntry newId timestamp) (updates tl)).
  split; [exact H|]. split; [exact H1|]. split.
  - intros Hkey. split; [now rewrite (Hk Hkey)|].
    cbn [analysisError setIsAnalyzing]. now rewrite H4.
  - intros Hid.
    destruct (filled_spec newId _ _ (newEntry_hasId newId timestamp) Hid) as [Hh Hlast].
    split; [|split; [|exact Hlast]].
    + unfold hasId in Hh.
      destruct (filled _ _ _ !! "id") as [[| | |s| |]|]; try discriminate.
      apply String.eqb_eq in Hh. now subst s.
    + unfold currentAnalysis.
      cbn [viewingAnalysisId analysisHistory setIsAnalyzing]. rewrite H1, H2.
      cbn [viewingAnalysisId]. destruct (JS.truthy newId); [|reflexivity].
      cbn [List.find]. now rewrite Hh.
Qed.

End AnalysisHandlerFacts.

(** ** The import as a whole *)

Section ImportTotals.

Import PortfolioView.

Variable StringToNumber : string -> number.
Variable NumberToString : number -> string.
Variable randomId : nat -> string.
Variable isoNow : nat -> string.
Variable Date_getTime : string -> number.

Abbreviation process := (processRow StringToNumber NumberToString randomId isoNow).
Abbreviation each := (forEach_from StringToNumber NumberToString randomId isoNow).
Abbreviation aggregated :=
  (aggregate StringToNumber NumberToString randomId isoNow Date_getTime).
Abbreviation upload :=
  (handleFileUpload StringToNumber NumberToString randomId isoNow Date_getTime).
Abbreviation sym_of := (rowSymbol NumberToString).
Abbreviation qty_of := (rowQty StringToNumber).
Abbreviation cost_of := (rowCost StringToNumber).
Abbreviation ok := (accepted StringToNumber NumberToString).

(** *** Upper case and trimming *)

Lemma upper_char_idem c : JS.upper_char (JS.upper_char c) = JS.upper_char c.
Proof. destruct c as [[] [] [] [] [] [] [] []]; reflexivity. Qed.

Lemma upper_char_white c : JS.is_white_space (JS.upper_char c) = JS.is_white_space c.
Proof. destruct c as [[] [] [] [] [] [] [] []]; reflexivity. Qed.

Lemma toUpperCase_idem s : JS.toUpperCase (JS.toUpperCase s) = JS.toUpperCase s.
Proof. induction s as [|c s IH]; simpl; [reflexivity|]. now rewrite upper_char_idem, IH. Qed.

Lemma toUpperCase_trimStart s :
  JS.toUpperCase (JS.trimStart s) = JS.trimStart (JS.toUpperCase s).
Proof.
  induction s as [|c s IH]; simpl; [reflexivity|].
  rewrite upper_char_white. now destruct (JS.is_white_space c).
Qed.

Lemma toUpperCase_trimEnd s :
  JS.toUpperCase (JS.trimEnd s) = JS.trimEnd (JS.toUpperCase s).
Proof.
  induction s as [|c s IH]; simpl; [reflexivity|].
  rewrite <- IH, upper_char_white.
  destruct (JS.trimEnd s); simpl; [now destruct (JS.is_white_space c) | reflexivity].
Qed.

Lemma rowSymbol_upper row : JS.toUpperCase (sym_of row) = sym_of row.
Proof.
  unfold rowSymbol, JS.trim.
  now rewrite toUpperCase_trimEnd, toUpperCase_trimStart, toUpperCase_idem.
Qed.

(** *** The positions of the map *)

Lemma add_positive x y :
  JS.gt x JS.zero = true -> JS.gt y JS.zero = true -> JS.gt (JS.add x y) JS.zero = true.
Proof.
  unfold JS.gt, JS.zero.
  destruct x as [a| | |], y as [b| | |]; simpl; try discriminate; try reflexivity.
  rewrite !Qc_ltb_lt. intros Ha Hb.
  apply Qclt_trans with a; [exact Ha|].
  rewrite <- (Qcplus_0_r a) at 1. now apply Qcplus_lt_mono_l.
Qed.

Lemma map_get_elem k v (m : StockMap) : map_get k m = Some v -> (k, v) ∈ m.
Proof.
  induction m as [|[k' x] m IH]; simpl; [discriminate|].
  destruct (String.eqb_spec k' k) as [->|Hne].
  - intros [= ->]. apply list_elem_of_here.
  - intros H. apply list_elem_of_further. now apply IH.
Qed.

Lemma map_set_Forall (P : StockPosition -> Prop) k v (m : StockMap) :
  P v -> Forall (fun kv => P kv.2) m -> Forall (fun kv => P kv.2) (map_set k v m).
Proof.
  intros Hv. induction 1 as [|[k' x] m Hx Hm IH]; simpl.
  - now repeat constructor.
  - destruct (String.eqb k' k); constructor; auto.
Qed.

Lemma processRow_sound row index st :
  Forall (fun kv => sound kv.2) (stockMap st) ->
  Forall (fun kv => sound kv.2) (stockMap (process row index st)).
Proof.
  intros Hall. destruct (ok row) eqn:E; [|now rewrite processRow_rejected].
  destruct (accepted_numeric StringToNumber NumberToString row E)
    as (_ & _ & Hg & Hs & _).
  destruct (processRow_accepted StringToNumber NumberToString randomId isoNow
              row index st E) as (v & -> & Hsym & Hsh & _).
  apply map_set_Forall; [|exact Hall].
  destruct (map_get (sym_of row) (stockMap st)) as [existing|] eqn:G.
  - apply map_get_elem in G. rewrite Forall_forall in Hall.
    destruct (Hall _ G) as (H1 & H2 & H3). simpl in *.
    unfold sound. rewrite Hsym, Hsh. split; [exact H1|]. split; [exact H2|].
    now apply add_positive.
  - unfold sound. rewrite Hsym, Hsh. split; [exact Hs|].
    split; [apply rowSymbol_upper | exact Hg].
Qed.

Lemma forEach_sound rows : forall index st,
  Forall (fun kv => sound kv.2) (stockMap st) ->
  Forall (fun kv => sound kv.2) (stockMap (each index rows st)).
Proof.
  induction rows as [|row rows IH]; intros index st H; [exact H|].
  simpl. apply IH. now apply processRow_sound.
Qed.

(** *** The count of the import *)

Lemma map_set_count k v (m : StockMap) :
  txCount (map_values (map_set k v m))
  = match map_get k m with
    | Some existing =>
        (txCount (map_values m) + List.length (default [] (transactions v))
         - List.length (default [] (transactions existing)))%nat
    | None => (txCount (map_values m) + List.length (default [] (transactions v)))%nat
    end.
Proof.
  induction m as [|[k' x] m IH]; simpl.
  - unfold txCount. simpl. lia.
  - destruct (String.eqb_spec k' k) as [->|Hne]; simpl.
    + unfold txCount. simpl. lia.
    + unfold txCount in *. simpl. rewrite IH.
      destruct (map_get k m) as [existing|] eqn:G; [|lia].
      assert (List.length (default [] (transactions existing))
              <= sum_list (map (fun p => List.length (default [] (transactions p)))
                               (map_values m)))%nat; [|lia].
      clear IH. induction m as [|[k0 y] m IH]; simpl in *; [discriminate|].
      destruct (String.eqb k0 k).
      * injection G as ->. lia.
      * specialize (IH G). lia.
Qed.

Lemma processRow_count row index st :
  txCount (map_values (stockMap (process row index st)))
  = (txCount (map_values (stockMap st)) + if ok row then 1 else 0)%nat
  /\ importedCount (process row index st)
     = (importedCount st + if ok row then 1 else 0)%nat.
Proof.
  destruct (ok row) eqn:E; [|rewrite processRow_rejected by exact E; lia].
  destruct (accepted_numeric StringToNumber NumberToString row E)
    as (Hq & Hc & Hg & Hs & Hlen).
  unfold processRow. fold (sym_of row) (qty_of row) (cost_of row).
  rewrite Hlen, Hq, Hc, Hs, Hg, !andb_false_r. cbn [negb andb].
  unfold map_has. destruct (map_get (sym_of row) (stockMap st)) as [existing|] eqn:G;
    cbn [stockMap importedCount]; rewrite map_set_count, G;
    simpl; rewrite ?length_app; simpl; lia.
Qed.

Lemma forEach_count rows : forall index st,
  txCount (map_values (stockMap (each index rows st)))
  = (txCount (map_values (stockMap st)) + List.length (List.filter ok rows))%nat
  /\ importedCount (each index rows st)
     = (importedCount st + List.length (List.filter ok rows))%nat.
Proof.
  induction rows as [|row rows IH]; intros index st; simpl; [lia|].
  destruct (IH (S index) (process row index st)) as [-> ->].
  destruct (processRow_count row index st) as [-> ->].
  destruct (ok row); simpl; lia.
Qed.

Lemma sortTransactions_count l :
  txCount (map (sortTransactions Date_getTime) l) = txCount l.
Proof.
  unfold txCount. rewrite <- list_fmap_compose. f_equal. apply list_fmap_ext.
  intros i p _. simpl. destruct (transactions p) as [txs|]; simpl; [|reflexivity].
  now rewrite sort_perm.
Qed.

(** X15.  The import counts one transaction for each row that passes its
    tests: the count it reports and the number of transactions of the
    positions it builds are both the number of these rows. *)
Theorem import_counts_the_accepted_rows (rows : list (list Cell)) :
  importedCount (each 0%nat rows {| stockMap := []; importedCount := 0; reads := 0 |})
  = List.length (List.filter ok rows)
  /\ txCount (aggregated rows) = List.length (List.filter ok rows).
Proof.
  unfold aggregate. rewrite sortTransactions_count.
  destruct (forEach_count rows 0%nat
              {| stockMap := []; importedCount := 0; reads := 0 |}) as [-> ->].
  split; reflexivity.
Qed.

(** *** The symbols of the import *)

Lemma processRow_keys row index st k :
  k ∈ map fst (stockMap (process row index st))
  <-> k ∈ map fst (stockMap st) \/ (ok row = true /\ sym_of row = k).
Proof.
  destruct (ok row) eqn:E.
  - destruct (processRow_accepted StringToNumber NumberToString randomId isoNow
                row index st E) as (v & -> & _).
    rewrite map_set_keys. unfold map_has.
    destruct (map_get (sym_of row) (stockMap st)) as [existing|] eqn:G.
    + split; [now left|]. intros [H|[_ <-]]; [exact H|].
      apply map_get_elem in G. apply list_elem_of_fmap. now exists (sym_of row, existing).
    + rewrite elem_of_app, list_elem_of_singleton. split.
      * intros [H| ->]; [now left | now right].
      * intros [H|[_ <-]]; [now left | now right].
  - rewrite processRow_rejected by exact E. split; [now left|].
    intros [H|[H _]]; [exact H | discriminate].
Qed.

Lemma forEach_keys rows : forall index st k,
  k ∈ map fst (stockMap (each index rows st))
  <-> k ∈ map fst (stockMap st)
      \/ exists row, row ∈ rows /\ ok row = true /\ sym_of row = k.
Proof.
  induction rows as [|row rows IH]; intros index st k; simpl.
  - split; [now left|]. intros [H|(row & Hin & _)]; [exact H|].
    now apply elem_of_nil in Hin.
  - rewrite IH, processRow_keys. split.
    + intros [[H|[Hok Hs]]|(r & Hin & Hok & Hs)].
      * now left.
      * right. exists row. split; [apply list_elem_of_here | auto].
      * right. exists r. split; [now apply list_elem_of_further | auto].
    + intros [H|(r & Hin & Hok & Hs)]; [now left; left|].
      apply elem_of_cons in Hin as [->|Hin]; [left; right; auto|].
      right. exists r. auto.
Qed.

Lemma aggregated_symbols rows :
  map symbol (aggregated rows)
  = map fst (stockMap (each 0%nat rows
                         {| stockMap := []; importedCount := 0; reads := 0 |})).
Proof.
  unfold aggregate, map_values.
  assert (Hwf : wellKeyed (stockMap (each 0%nat rows
                   {| stockMap := []; importedCount := 0; reads := 0 |}))).
  { apply forEach_wellKeyed. split; [apply NoDup_nil_2 | constructor]. }
  destruct Hwf as [_ Hall]. revert Hall.
  generalize (stockMap (each 0%nat rows
                {| stockMap := []; importedCount := 0; reads := 0 |})).
  induction 1 as [|[k x] m Hx _ IH]; simpl; [reflexivity|].
  simpl in Hx. now rewrite Hx, IH.
Qed.

Lemma aggregated_sound rows : Forall sound (aggregated rows).
Proof.
  unfold aggregate, map_values.
  assert (Hs : Forall (fun kv => sound kv.2) (stockMap (each 0%nat rows
                   {| stockMap := []; importedCount := 0; reads := 0 |}))).
  { apply forEach_sound. constructor. }
  revert Hs.
  generalize (stockMap (each 0%nat rows
                {| stockMap := []; importedCount := 0; reads := 0 |})).
  induction 1 as [|[k x] m Hx _ IH]; simpl; constructor; auto.
Qed.

Lemma aggregated_symbol_iff rows sym :
  sym ∈ map symbol (aggregated rows)
  <-> exists row, row ∈ rows /\ ok row = true /\ sym_of row = sym.
Proof.
  rewrite aggregated_symbols, forEach_keys. simpl. split.
  - intros [H|H]; [now apply elem_of_nil in H | exact H].
  - intros H. now right.
Qed.

(** X16.  The import builds one position for each symbol of the rows that
    pass its tests, and no other: the symbols of the positions are the
    symbols of these rows, they are distinct, also up to case, none is empty
    and every position holds a positive number of shares. *)
Theorem imported_positions_are_well_formed (rows : list (list Cell)) :
  (forall sym, sym ∈ map symbol (aggregated rows)
     <-> exists row, row ∈ rows /\ ok row = true /\ sym_of row = sym)
  /\ distinctSymbols (aggregated rows)
  /\ Forall (fun p => JS.truthy (symbol p) = true
                      /\ JS.gt (shares p) JS.zero = true) (aggregated rows).
Proof.
  split; [|split].
  - apply aggregated_symbol_iff.
  - unfold distinctSymbols.
    assert (Heq : map ticker (aggregated rows) = map symbol (aggregated rows)).
    { pose proof (aggregated_sound rows) as Hs.
      induction Hs as [|p l (_ & Hp & _) _ IH]; simpl; [reflexivity|].
      unfold ticker at 1. now rewrite Hp, IH. }
    rewrite Heq, aggregated_symbols.
    apply forEach_wellKeyed. split; [apply NoDup_nil_2 | constructor].
  - eapply Forall_impl; [apply aggregated_sound|].
    intros p (H1 & _ & H3). auto.
Qed.

(** X17.  An import either replaces the whole portfolio or changes nothing:
    when some row passes its tests, the portfolio becomes the positions built
    from the sheet, which are not empty, and nothing of the earlier portfolio
    is kept; when none does, the ledger stays as it was.  The liquid cash is
    never touched. *)
Theorem import_replaces_or_keeps (rows : list (list Cell)) (st : App.State) :
  let st' :=
    Wiring.importSheet StringToNumber NumberToString randomId isoNow Date_getTime
      rows st in
  App.liquidCash st' = App.liquidCash st
  /\ if existsb ok rows
     then App.portfolio st' = aggregated rows /\ aggregated rows <> []
     else st' = st.
Proof.
  intros st'. subst st'. unfold Wiring.importSheet, handleFileUpload.
  assert (Hne : aggregated rows <> [] <-> existsb ok rows = true).
  { rewrite existsb_exists. split.
    - intros H. destruct (aggregated rows) as [|p l] eqn:E; [congruence|].
      destruct (proj1 (aggregated_symbol_iff rows (symbol p))) as (row & Hin & Hok & _).
      { rewrite E. apply list_elem_of_here. }
      exists row. split; [now apply list_elem_of_In | exact Hok].
    - intros (row & Hin & Hok) E.
      assert (H : sym_of row ∈ map symbol (aggregated rows)).
      { apply aggregated_symbol_iff. exists row.
        split; [now apply list_elem_of_In | auto]. }
      rewrite E in H. now apply elem_of_nil in H. }
  destruct (existsb ok rows) eqn:Hex;
    destruct (aggregated rows) as [|p l] eqn:E; simpl.
  - exfalso. now apply (proj2 Hne).
  - split; [reflexivity|]. split; [reflexivity | discriminate].
  - auto.
  - exfalso. assert (false = true) by (apply Hne; discriminate). discriminate.
Qed.

End ImportTotals.

(** ** The forms of the ledger view *)

Section FormFacts.

Import LedgerForms.

Variable StringToNumber : string -> number.
Variable Date_getTime : string -> number.

(** What [addStock] does to the portfolio: one position, that of the symbol,
    takes the purchase at the head of its history. *)
Lemma addStock_records now_ms now_iso stock prev :
  exists i p txs,
    App.addStock now_ms now_iso stock prev !! i = Some p
    /\ ticker p = ticker stock
    /\ transactions p
       = Some ({| tx_id := now_ms; tx_type := BUY; tx_shares := shares stock;
                  tx_price := avgBuyPrice stock; tx_date := now_iso |} :: txs)
    /\ (forall j, j <> i -> App.addStock now_ms now_iso stock prev !! j = prev !! j)
    /\ (List.length (App.addStock now_ms now_iso stock prev) <= S (List.length prev))%nat.
Proof.
  unfold App.addStock.
  destruct (App.findIndex _ prev) as [i|] eqn:E.
  - destruct (findIndex_Some _ _ _ E) as (existing & Hi & Hp). simpl in Hp.
    apply String.eqb_eq in Hp. rewrite Hi.
    eexists i, _, _. split.
    { apply list_lookup_insert_eq. now apply lookup_lt_Some in Hi. }
    split; [exact Hp|]. split; [reflexivity|]. split.
    + intros j Hj. now apply list_lookup_insert_ne.
    + rewrite length_insert. lia.
  - eexists (List.length prev), _, _. split.
    { apply list_lookup_middle. reflexivity. }
    split; [reflexivity|]. split; [reflexivity|]. split.
    + intros j Hj. destruct (Nat.lt_ge_cases j (List.length prev)) as [Hlt|Hge].
      * now apply lookup_app_l.
      * rewrite lookup_ge_None_2 by (rewrite length_app; simpl; lia).
        symmetry. now apply lookup_ge_None_2.
    + rewrite length_app. simpl. lia.
Qed.

(** X18.  A purchase entered in the add-stock form is recorded once: with
    the three inputs filled, exactly one position, one whose symbol is the
    entered symbol up to case, takes the BUY of the entered shares at the
    entered price at the head of its history; every other position stays as
    it was and at most one position is new.  With an input left empty the
    ledger does not change. *)
Theorem form_purchase_is_recorded_once (newStock : NewStock)
    (form_ms now_ms now_iso : string) (st : App.State) :
  let st' := Wiring.submitAdd StringToNumber newStock form_ms now_ms now_iso st in
  if JS.truthy (new_symbol newStock) && JS.truthy (new_shares newStock)
     && JS.truthy (new_price newStock)
  then
    exists i p txs,
      App.portfolio st' !! i = Some p
      /\ ticker p = JS.toUpperCase (new_symbol newStock)
      /\ transactions p
         = Some ({| tx_id := now_ms; tx_type := BUY;
                    tx_shares := StringToNumber (new_shares newStock);
                    tx_price := StringToNumber (new_price newStock);
                    tx_date := now_iso |} :: txs)
      /\ (forall j, j <> i -> App.portfolio st' !! j = App.portfolio st !! j)
      /\ (List.length (App.portfolio st') <= S (List.length (App.portfolio st)))%nat
  else st' = st.
Proof.
  intros st'. subst st'. unfold Wiring.submitAdd, handleAdd.
  destruct (JS.truthy (new_symbol newStock)), (JS.truthy (new_shares newStock)),
    (JS.truthy (new_price newStock)); cbn [negb orb andb]; try reflexivity.
  destruct (addStock_records now_ms now_iso
              {| id := form_ms;
                 symbol := JS.toUpperCase (new_symbol newStock);
                 shares := StringToNumber (new_shares newStock);
                 avgBuyPrice := StringToNumber (new_price newStock);
                 currentPrice := Some (StringToNumber (new_price newStock));
                 companyName := None; sector := None;
                 transactions := Some [] |} (App.portfolio st))
    as (i & p & txs & H1 & H2 & H3 & H4 & H5).
  exists i, p, txs. cbn [App.portfolio App.handleAddStock App.commit App.setPortfolio].
  split; [exact H1|]. split.
  { rewrite H2. unfold ticker. cbn [symbol]. apply toUpperCase_idem. }
  split; [exact H3|]. split; [exact H4 | exact H5].
Qed.

Lemma sub_not_greater (q owned : Qc) :
  JS.gt (Fin q) (Fin owned) = false ->
  JS.Math_max JS.zero (JS.sub (Fin owned) (Fin q)) = Fin (owned - q)
  /\ 0 <= owned - q.
Proof.
  unfold JS.gt. cbn. intros H.
  assert (Hle : q <= owned).
  { apply Qcnot_lt_le. intros Hlt. apply Qc_ltb_lt in Hlt. congruence. }
  assert (Hpos : 0 <= owned - q).
  { unfold Qcminus. apply (Qcplus_le_mono_r _ _ q). ring_simplify. exact Hle. }
  split; [|exact Hpos].
  destruct (JS.Qc_ltb 0 (owned + - q)) eqn:E; [reflexivity|].
  f_equal. apply Qcle_antisym; [exact Hpos|].
  apply Qcnot_lt_le. intros Hlt. apply Qc_ltb_lt in Hlt. unfold Qcminus in *. congruence.
Qed.

(** X19.  The transaction form refuses the sale of more shares than the
    selected position holds and changes nothing then; a sale that it lets
    through, for a position that still holds what the form saw, leaves the
    shares held minus the shares sold, which is not negative, and adds the
    proceeds to the liquid cash. *)
Theorem form_sale_is_never_clamped (selectedStock : StockPosition)
    (newTransaction : NewTransaction) (now_ms now_iso : string) (st : App.State)
    (i : nat) (p : StockPosition) (owned q : Qc) :
  new_type newTransaction = SELL ->
  JS.truthy (new_tx_shares newTransaction) = true ->
  JS.truthy (new_tx_price newTransaction) = true ->
  StringToNumber (new_tx_shares newTransaction) = Fin q ->
  App.portfolio st !! i = Some p ->
  id p = id selectedStock ->
  shares p = Fin owned ->
  shares selectedStock = Fin owned ->
  let st' :=
    Wiring.submitTransaction StringToNumber Date_getTime (Some selectedStock)
      newTransaction now_ms now_iso st in
  if JS.Qc_ltb owned q then st' = st
  else
    exists p',
      App.portfolio st' !! i = Some p'
      /\ shares p' = Fin (owned - q) /\ 0 <= owned - q
      /\ App.liquidCash st'
         = JS.add (App.liquidCash st)
             (JS.mul (Fin q) (StringToNumber (new_tx_price newTransaction))).
Proof.
  intros Ht Hs Hpr Hq Hp Hid Hsh Hsel st'. subst st'.
  unfold Wiring.submitTransaction, handleAddTransactionSubmit.
  rewrite Hs, Hpr, Ht, Hq, Hsel. cbn [negb orb andb].
  change (JS.gt (Fin q) (Fin owned)) with (JS.Qc_ltb owned q).
  destruct (JS.Qc_ltb owned q) eqn:E; [reflexivity|].
  destruct (sub_not_greater q owned E) as [Hmax Hpos].
  eexists. split.
  { cbn [App.portfolio App.handleTransaction App.commit App.setPortfolio
         App.setLiquidCash].
    apply (transact_lookup_hit Date_getTime); [exact Hp | exact Hid]. }
  unfold App.applyTransaction. cbn [tx_type tx_shares shares].
  rewrite Hsh, Hmax. split; [reflexivity|]. split; [exact Hpos|].
  reflexivity.
Qed.

End FormFacts.

(** ** The advisor view *)

Section ScoreFacts.

Import JSMath AdvisorView.

Lemma floor_le (q : Qc) : Qc_of_Z (Qfloor q) <= q.
Proof. apply Qfloor_le. Qed.

Lemma lt_floor (q : Qc) : q < Qc_of_Z (Qfloor q + 1).
Proof. apply Qlt_floor. Qed.

Lemma floor_nonneg (q : Qc) : 0 <= q -> (0 <= Qfloor q)%Z.
Proof.
  intros H. change 0%Z with (Qfloor 0). now apply Qfloor_resp_le.
Qed.

Lemma floor_le_Z (q : Qc) (n : Z) : q <= Qc_of_Z n -> (Qfloor q <= n)%Z.
Proof.
  intros H. rewrite <- (Qfloor_Z n). now apply Qfloor_resp_le.
Qed.

(** The rounding of a rational between two integers. *)
Lemma round_between (q : Qc) (lo hi : Z) :
  Qc_of_Z lo <= q -> q <= Qc_of_Z hi ->
  exists n : Z,
    Math_round (Fin q) = Fin (Qc_of_Z n)
    /\ (lo <= n <= hi)%Z
    /\ Qc_of_Z n - Q2Qc (1 # 2) <= q /\ q < Qc_of_Z n + Q2Qc (1 # 2).
Proof.
  intros Hlo Hhi. exists (Qfloor (q + Q2Qc (1 # 2))%Qc).
  split; [reflexivity|].
  pose proof (floor_le (q + Q2Qc (1 # 2))) as H1.
  pose proof (lt_floor (q + Q2Qc (1 # 2))) as H2.
  rewrite Z2Qc_inj_add, Z2Qc_inj_1 in H2.
  set (n := Qfloor (q + Q2Qc (1 # 2))%Qc) in *.
  assert (Hl : Qc_of_Z n - Q2Qc (1 # 2) <= q).
  { apply (Qcplus_le_mono_r _ _ (Q2Qc (1 # 2))).
    revert H1. generalize (Q2Qc (1 # 2)). intros h Hh.
    replace (Qc_of_Z n - h + h) with (Qc_of_Z n) by ring. exact Hh. }
  assert (Hu : q < Qc_of_Z n + Q2Qc (1 # 2)).
  { apply (Qcplus_lt_mono_r _ _ (Q2Qc (1 # 2))).
    replace (Qc_of_Z n + Q2Qc (1 # 2) + Q2Qc (1 # 2)) with (Qc_of_Z n + 1)
      by (rewrite <- Qcplus_assoc; f_equal; now apply Qc_is_canon).
    exact H2. }
  split; [|split; [exact Hl | exact Hu]].
  split.
  - (* lo <= n *)
    apply Z.lt_succ_r, Z2Qc_inj_lt.
    unfold Z.succ. rewrite Z2Qc_inj_add, Z2Qc_inj_1.
    apply Qcle_lt_trans with q; [exact Hlo|].
    apply Qclt_le_trans with (Qc_of_Z n + Q2Qc (1 # 2)); [exact Hu|].
    apply Qcplus_le_mono_l. now apply Qcle_alt.
  - (* n <= hi *)
    apply Z.lt_succ_r, Z2Qc_inj_lt.
    unfold Z.succ. rewrite Z2Qc_inj_add, Z2Qc_inj_1.
    apply Qcle_lt_trans with (q + Q2Qc (1 # 2)); [exact H1|].
    apply Qcle_lt_trans with (Qc_of_Z hi + Q2Qc (1 # 2)).
    + now apply Qcplus_le_mono_r.
    + apply Qcplus_lt_mono_l. now apply Qclt_alt.
Qed.

(** X20.  [sanitizeScore] shows a score between 0 and 100 as a whole number
    between 0 and 100; for a score of 0 or above 1 it is the nearest one to
    the score, a tie going up. *)
Theorem sanitized_score_is_a_percentage (s : Qc) :
  0 <= s -> s <= Qc_of_Z 100 ->
  exists n : Z,
    sanitizeScore (Fin s) = Fin (Qc_of_Z n)
    /\ (0 <= n <= 100)%Z
    /\ (s = 0 \/ 1 < s ->
        Qc_of_Z n - Q2Qc (1 # 2) <= s /\ s < Qc_of_Z n + Q2Qc (1 # 2)).
Proof.
  intros H0 H100. unfold sanitizeScore.
  change (JS.le (Fin s) (JS.of_Z 1)) with (negb (JS.Qc_ltb 1 s)).
  change (JS.gt (Fin s) JS.zero) with (JS.Qc_ltb 0 s).
  rewrite (andb_comm (negb _)).
  destruct (JS.Qc_ltb 0 s && negb (JS.Qc_ltb 1 s)) eqn:E.
  - apply andb_true_iff in E as [Hpos Hle1]. apply negb_true_iff in Hle1.
    assert (Hs1 : s <= 1).
    { apply Qcnot_lt_le. intros H. apply Qc_ltb_lt in H. congruence. }
    destruct (round_between (s * Qc_of_Z 100) 0 100) as (n & Hn & Hr & _).
    + apply Qcmult_nonneg_nonneg; [exact H0 | now apply Qcle_alt].
    + rewrite <- (Qcmult_1_l (Qc_of_Z 100)) at 2.
      apply Qcmult_le_compat_r; [exact Hs1 | now apply Qcle_alt].
    + exists n. split; [exact Hn|]. split; [exact Hr|].
      intros [->|H1]; [discriminate Hpos|].
      apply Qc_ltb_lt in H1. congruence.
  - destruct (round_between s 0 100 H0 H100) as (n & Hn & Hr & Hb).
    exists n. split; [exact Hn|]. split; [exact Hr|]. intros _. exact Hb.
Qed.

End ScoreFacts.

(** ** The rebalancing *)

Section RebalancingFacts.

Import JSMath AdvisorView.

Variable StringToNumber : string -> number.

Lemma sumOf_from {A} (f : A -> number) (l : list A) (a : Qc) :
  Forall (fun x => JS.isFinite (f x) = true) l ->
  foldl (fun acc x => JS.add acc (f x)) (Fin a) l
  = Fin (a + sumQc (map (fun x => finite (f x)) l)).
Proof.
  intros H. revert a. induction H as [|x l Hx _ IH]; intros a; simpl.
  - f_equal. unfold sumQc. simpl. ring.
  - rewrite (finite_Fin _ Hx). cbn [JS.add]. rewrite IH. f_equal.
    cbn [finite]. unfold sumQc. simpl. ring.
Qed.

Lemma sumOf_finite {A} (f : A -> number) (l : list A) :
  Forall (fun x => JS.isFinite (f x) = true) l ->
  sumOf f l = Fin (sumQc (map (fun x => finite (f x)) l)).
Proof.
  intros H. unfold sumOf, JS.zero. rewrite (sumOf_from f l 0 H). f_equal. ring.
Qed.

Lemma sumQc_nonneg (l : list Qc) : Forall (fun x => 0 <= x) l -> 0 <= sumQc l.
Proof.
  induction 1 as [|x l Hx _ IH]; simpl; [apply Qcle_refl|].
  now apply Qcplus_nonneg_nonneg.
Qed.

Lemma max_zero_finite (x : Qc) :
  exists d, JS.Math_max JS.zero (Fin x) = Fin d /\ 0 <= d.
Proof.
  cbn. destruct (JS.Qc_ltb 0 x) eqn:E.
  - exists x. split; [reflexivity|]. apply Qclt_le_weak. now apply Qc_ltb_lt.
  - exists 0. split; [reflexivity | apply Qcle_refl].
Qed.

Lemma hundred_nonzero : Qc_of_Z 100 <> 0.
Proof. rewrite <- Z2Qc_inj_0. intros H. now apply Z2Qc_inj in H. Qed.

Lemma detail_finite p :
  finitePosition p = true ->
  forall s, s ∈ stockDetails [p] ->
    JS.isFinite (value s) = true /\ JS.isFinite (price s) = true.
Proof.
  unfold finitePosition. rewrite !andb_true_iff. intros [[Hs Ha] Hc] s Hin.
  apply list_elem_of_singleton in Hin as ->. cbn [value price].
  assert (Hp : JS.isFinite
                 match currentPrice p with
                 | Some c => orElse c (avgBuyPrice p)
                 | None => avgBuyPrice p
                 end = true).
  { destruct (currentPrice p) as [c|]; [|exact Ha].
    unfold orElse. now destruct (truthy c). }
  split; [|exact Hp].
  rewrite (finite_Fin _ Hp), (finite_Fin _ Hs). reflexivity.
Qed.

Lemma details_finite portfolio :
  Forall (fun p => finitePosition p = true) portfolio ->
  Forall (fun s => JS.isFinite (value s) = true /\ JS.isFinite (price s) = true)
         (stockDetails portfolio).
Proof.
  induction 1 as [|p l Hp _ IH]; [constructor|].
  change (stockDetails (p :: l)) with (stockDetails [p] ++ stockDetails l).
  apply Forall_app. split; [|exact IH].
  apply Forall_forall. intros s Hs. now apply (detail_finite p).
Qed.

Lemma project_finite ideals total newTotal s :
  Forall (fun i => JS.isFinite (idealWeight i) = true) ideals ->
  JS.isFinite newTotal = true ->
  JS.isFinite (value s) = true -> JS.isFinite (price s) = true ->
  (exists d, deficit (project ideals total newTotal s) = Fin d /\ 0 <= d)
  /\ proj_price (project ideals total newTotal s) = price s
  /\ proj_symbol (project ideals total newTotal s) = symbol (stock s).
Proof.
  intros Hw Hn Hv Hp. split; [|split; reflexivity].
  unfold project. cbn [deficit].
  assert (Hweight : exists w,
            match List.find (fun i => String.eqb (ideal_symbol i) (symbol (stock s)))
                    ideals with
            | Some ideal => JS.div (idealWeight ideal) (JS.of_Z 100)
            | None => JS.zero
            end = Fin w).
  { destruct (List.find _ ideals) as [ideal|] eqn:E; [|now exists 0].
    apply List.find_some in E as [Hin _]. apply list_elem_of_In in Hin.
    rewrite Forall_forall in Hw. rewrite (finite_Fin _ (Hw _ Hin)).
    unfold JS.of_Z. rewrite (div_finite _ _ hundred_nonzero). eauto. }
  destruct Hweight as [w ->].
  rewrite (finite_Fin _ Hn), (finite_Fin _ Hv). cbn [JS.mul JS.sub JS.neg JS.add].
  apply max_zero_finite.
Qed.

Lemma sumQc_member_le (l : list Qc) (x : Qc) :
  Forall (fun y => 0 <= y) l -> x ∈ l -> x <= sumQc l.
Proof.
  induction 1 as [|y l Hy Hl IH]; intros Hin; [now apply elem_of_nil in Hin|].
  apply elem_of_cons in Hin as [->|Hin]; simpl.
  - rewrite <- (Qcplus_0_r y) at 1. apply Qcplus_le_compat; [apply Qcle_refl|].
    now apply sumQc_nonneg.
  - rewrite <- (Qcplus_0_l x). apply Qcplus_le_compat; [exact Hy | now apply IH].
Qed.

(** Sorting by a key, largest first. *)
Section ByKey.

Context {A : Type} (key : A -> number).

Abbreviation keyDesc := (fun a b : A => JS.sub (key b) (key a)).

Lemma keyDesc_spec a b :
  JS.isFinite (key a) = true -> JS.isFinite (key b) = true ->
  JS.gt (keyDesc a b) JS.zero = negb (JS.le (key b) (key a)).
Proof.
  cbv beta.
  destruct (key a) as [x| | |]; try discriminate.
  destruct (key b) as [y| | |]; try discriminate.
  intros _ _. cbn. rewrite negb_involutive.
  destruct (JS.Qc_ltb x y) eqn:E.
  - apply Qc_ltb_lt. apply Qc_ltb_lt in E.
    apply (Qcplus_lt_mono_r _ _ x). ring_simplify. exact E.
  - destruct (JS.Qc_ltb 0 (y + - x)) eqn:E'; [|reflexivity].
    apply Qc_ltb_lt in E'. apply (Qcplus_lt_mono_r _ _ x) in E'.
    ring_simplify in E'. apply Qc_ltb_lt in E'. congruence.
Qed.

Lemma key_le_trans a b c :
  JS.isFinite (key a) = true -> JS.isFinite (key b) = true ->
  JS.isFinite (key c) = true ->
  JS.le (key b) (key a) = true -> JS.le (key c) (key b) = true ->
  JS.le (key c) (key a) = true.
Proof.
  destruct (key a) as [x| | |]; try discriminate.
  destruct (key b) as [y| | |]; try discriminate.
  destruct (key c) as [z| | |]; try discriminate.
  intros _ _ _. cbn. rewrite !negb_true_iff. intros H1 H2.
  destruct (JS.Qc_ltb x z) eqn:E; [|reflexivity].
  apply Qc_ltb_lt in E.
  assert (Hyx : y <= x).
  { apply Qcnot_lt_le. intros H. apply Qc_ltb_lt in H. congruence. }
  assert (Hzy : z <= y).
  { apply Qcnot_lt_le. intros H. apply Qc_ltb_lt in H. congruence. }
  exfalso. apply (Qclt_not_le _ _ E). now apply Qcle_trans with y.
Qed.

Lemma key_le_total a b :
  JS.isFinite (key a) = true -> JS.isFinite (key b) = true ->
  JS.le (key b) (key a) = false -> JS.le (key a) (key b) = true.
Proof.
  destruct (key a) as [x| | |]; try discriminate.
  destruct (key b) as [y| | |]; try discriminate.
  intros _ _. cbn. rewrite negb_false_iff, negb_true_iff. intros H.
  apply Qc_ltb_lt in H.
  destruct (JS.Qc_ltb y x) eqn:E; [|reflexivity].
  apply Qc_ltb_lt in E. exfalso. apply (Qclt_not_le _ _ E), Qclt_le_weak, H.
Qed.

Lemma sort_insert_by_key x l :
  Forall (fun a => JS.isFinite (key a) = true) (x :: l) ->
  StronglySorted (fun a b => JS.le (key b) (key a) = true) l ->
  StronglySorted (fun a b => JS.le (key b) (key a) = true)
                 (App.sort_insert keyDesc x l).
Proof.
  intros Hd Hs. apply Forall_cons in Hd as [Hx Hd].
  induction Hs as [|y l Hs IH Hy]; cbn [App.sort_insert].
  { constructor; constructor. }
  apply Forall_cons in Hd as [Hy' Hd].
  rewrite (keyDesc_spec x y Hx Hy').
  destruct (JS.le _ _) eqn:E; simpl.
  - constructor; [now constructor|]. constructor; [exact E|].
    rewrite Forall_forall in Hy, Hd. apply Forall_forall. intros z Hz.
    apply (key_le_trans x y z); auto.
  - constructor; [now apply IH|].
    apply Forall_sort_insert; [|exact Hy].
    now apply key_le_total.
Qed.

Lemma sort_by_key l :
  Forall (fun a => JS.isFinite (key a) = true) l ->
  StronglySorted (fun a b => JS.le (key b) (key a) = true) (App.sort keyDesc l).
Proof.
  unfold App.sort. induction l as [|x l IH]; intros Hd; simpl; [constructor|].
  pose proof Hd as Hd'. apply Forall_cons in Hd' as [Hx Hl].
  apply sort_insert_by_key; [|now apply IH].
  constructor; [exact Hx|].
  fold (App.sort keyDesc l). now rewrite sort_perm.
Qed.

End ByKey.

Lemma project_weight_finite ideals total newTotal s :
  Forall (fun i => JS.isFinite (idealWeight i) = true) ideals ->
  JS.isFinite (proj_idealWeight (project ideals total newTotal s)) = true.
Proof.
  intros Hw. unfold project. cbn [proj_idealWeight].
  destruct (List.find _ ideals) as [ideal|] eqn:E; [|reflexivity].
  apply List.find_some in E as [Hin _]. apply list_elem_of_In in Hin.
  rewrite Forall_forall in Hw. rewrite (finite_Fin _ (Hw _ Hin)).
  unfold JS.of_Z. now rewrite (div_finite _ _ hundred_nonzero).
Qed.

Lemma suggest_within (a D d : Qc) p :
  0 <= a -> 0 <= d -> d <= D ->
  deficit p = Fin d -> JS.isFinite (proj_price p) = true ->
  withinInflow a (suggest (Fin a) (Fin D) p).
Proof.
  intros Ha Hd HdD Hp Hpr. unfold suggest, withinInflow.
  cbn [allocateAmount buyShares projection].
  change (JS.gt (Fin D) JS.zero) with (JS.Qc_ltb 0 D). rewrite Hp.
  rewrite (finite_Fin _ Hpr).
  set (pr := finite (proj_price p)).
  change (JS.gt (Fin pr) JS.zero) with (JS.Qc_ltb 0 pr).
  assert (Hx : exists x,
            (if JS.Qc_ltb 0 D then JS.mul (Fin a) (JS.div (Fin d) (Fin D)) else JS.zero)
            = Fin x
            /\ 0 <= x /\ x <= a /\ (d = 0 -> x = 0)).
  { destruct (JS.Qc_ltb 0 D) eqn:E.
    - apply Qc_ltb_lt in E.
      assert (HD0 : D <> 0) by (apply not_eq_sym; now apply Qclt_not_eq).
      rewrite (div_finite _ _ HD0). cbn [JS.mul].
      eexists. split; [reflexivity|].
      assert (Hr0 : 0 <= d / D).
      { unfold Qcdiv. apply Qcmult_nonneg_nonneg; [exact Hd|].
        apply Qclt_le_weak. now apply Qcinv_pos. }
      assert (Hr1 : d / D <= 1).
      { replace 1 with (D / D) by (field; exact HD0).
        unfold Qcdiv. apply Qcmult_le_compat_r; [exact HdD|].
        apply Qclt_le_weak. now apply Qcinv_pos. }
      split; [now apply Qcmult_nonneg_nonneg|]. split.
      + rewrite <- (Qcmult_1_r a) at 2.
        rewrite (Qcmult_comm a (d / D)), (Qcmult_comm a 1).
        now apply Qcmult_le_compat_r.
      + intros ->. unfold Qcdiv. ring.
    - exists 0. split; [reflexivity|]. split; [apply Qcle_refl|].
      split; [exact Ha | reflexivity]. }
  destruct Hx as (x & -> & Hx0 & Hxa & Hxd).
  destruct (JS.Qc_ltb 0 pr) eqn:E.
  - apply Qc_ltb_lt in E.
    assert (Hpr0 : pr <> 0) by (apply not_eq_sym; now apply Qclt_not_eq).
    rewrite (div_finite _ _ Hpr0). cbn [Math_floor].
    exists x, (Qfloor (x / pr)%Qc).
    split; [reflexivity|]. split; [exact Hx0|]. split; [exact Hxa|].
    split; [reflexivity|].
    assert (Hq : 0 <= x / pr).
    { unfold Qcdiv. apply Qcmult_nonneg_nonneg; [exact Hx0|].
      apply Qclt_le_weak. now apply Qcinv_pos. }
    split; [now apply floor_nonneg|].
    split.
    { intros Hz. apply Hxd. unfold JS.zero in Hz. congruence. }
    split.
    { intros ->. unfold Qcdiv. rewrite Qcmult_0_l. reflexivity. }
    split; [discriminate|]. intros _.
    cbn [JS.le JS.lt]. apply negb_true_iff.
    destruct (JS.Qc_ltb (x / pr) (Qc_of_Z (Qfloor (x / pr)%Qc))) eqn:E'; [|reflexivity].
    apply Qc_ltb_lt in E'. exfalso.
    apply (Qclt_not_le _ _ E'), floor_le.
  - exists x, 0%Z.
    split; [reflexivity|]. split; [exact Hx0|]. split; [exact Hxa|].
    split; [unfold JS.zero; now rewrite Z2Qc_inj_0|]. split; [lia|].
    split.
    { intros Hz. apply Hxd. unfold JS.zero in Hz. congruence. }
    split; [reflexivity|]. split; [reflexivity | discriminate].
Qed.

(** X21.  The rebalancing gives no position more than the inflow.  For a
    portfolio and ideal weights of finite numbers and an inflow that is not
    negative, it makes one suggestion for each position, the largest ideal
    weight first; each allocates an amount between zero and the inflow,
    nothing to a position without deficit, and buys a whole number of shares
    that is not negative, not above the amount over the price, and zero when
    nothing is allocated or the price is not positive. *)
Theorem rebalancing_stays_within_the_inflow (ideals : list IdealAllocation)
    (portfolio : list StockPosition) (rebalanceInflow : Inflow) (a : Qc) :
  Forall (fun p => finitePosition p = true) portfolio ->
  Forall (fun i => JS.isFinite (idealWeight i) = true) ideals ->
  inflowOf StringToNumber rebalanceInflow = Fin a ->
  0 <= a ->
  exists suggestions,
    rebalancingData StringToNumber (Some ideals) portfolio rebalanceInflow
    = Some suggestions
    /\ map (fun s => proj_symbol (projection s)) suggestions ≡ₚ map symbol portfolio
    /\ Forall (withinInflow a) suggestions
    /\ largestWeightFirst suggestions.
Proof.
  intros Hport Hideal Hin Ha. unfold rebalancingData. rewrite Hin.
  eexists. split; [reflexivity|].
  set (details := stockDetails portfolio).
  pose proof (details_finite portfolio Hport) as Hdet. fold details in Hdet.
  assert (Htotal : exists T, sumOf value details = Fin T).
  { eexists. apply sumOf_finite. eapply Forall_impl; [exact Hdet|]. now intros s []. }
  destruct Htotal as [T ->]. cbn [JS.add].
  set (projections := map (project ideals (Fin T) (Fin (T + a))) details).
  assert (Hproj : Forall (fun p => (exists d, deficit p = Fin d /\ 0 <= d)
                                   /\ JS.isFinite (proj_price p) = true
                                   /\ JS.isFinite (proj_idealWeight p) = true)
                         projections).
  { subst projections. apply Forall_fmap. eapply Forall_impl; [exact Hdet|].
    intros s [Hv Hp]. unfold compose.
    destruct (project_finite ideals (Fin T) (Fin (T + a)) s Hideal eq_refl Hv Hp)
      as (Hd & Hpr & _).
    split; [exact Hd|]. split; [now rewrite Hpr|].
    now apply project_weight_finite. }
  assert (HD : sumOf deficit projections
               = Fin (sumQc (map (fun p => finite (deficit p)) projections))).
  { apply sumOf_finite. eapply Forall_impl; [exact Hproj|].
    intros p [(d & Hd & _) _]. cbv beta. now rewrite Hd. }
  rewrite HD. set (D := sumQc (map (fun p => finite (deficit p)) projections)).
  assert (Hnn : Forall (fun y => 0 <= y) (map (fun p => finite (deficit p)) projections)).
  { apply Forall_fmap. eapply Forall_impl; [exact Hproj|].
    intros p [(d & Hd & Hd0) _]. unfold compose. now rewrite Hd. }
  set (suggestions := map (suggest (Fin a) (Fin D)) projections).
  assert (Hsug : Forall (fun s => withinInflow a s
                   /\ JS.isFinite (proj_idealWeight (projection s)) = true)
                  suggestions).
  { subst suggestions. apply Forall_fmap. apply Forall_forall. intros p Hp.
    unfold compose. rewrite Forall_forall in Hproj.
    destruct (Hproj p Hp) as ((d & Hd & Hd0) & Hpr & Hw).
    split; [|exact Hw].
    apply (suggest_within a D d p Ha Hd0); [|exact Hd|exact Hpr].
    subst D. apply sumQc_member_le; [exact Hnn|].
    apply list_elem_of_fmap. exists p. split; [now rewrite Hd | exact Hp]. }
  pose proof (sort_perm
                (fun a0 b : Suggestion =>
                   JS.sub (proj_idealWeight (projection b))
                          (proj_idealWeight (projection a0))) suggestions) as Hperm.
  split.
  { rewrite (fmap_Permutation _ _ _ Hperm). subst suggestions projections details.
    unfold stockDetails. rewrite <- !list_fmap_compose. reflexivity. }
  split.
  { rewrite Hperm. eapply Forall_impl; [exact Hsug|]. now intros s []. }
  apply (sort_by_key (fun s : Suggestion => proj_idealWeight (projection s))).
  eapply Forall_impl; [exact Hsug|]. now intros s [].
Qed.

End RebalancingFacts.

(** ** The overview *)

Section DashboardFacts.

Import JSMath Dashboard.

Lemma addTo_names sector v acc :
  (sector ∈ map name acc /\ map name (addTo sector v acc) = map name acc)
  \/ ((sector ∉ map name acc)
      /\ map name (addTo sector v acc) = map name acc ++ [sector]).
Proof.
  induction acc as [|i acc IH]; cbn [addTo map].
  - right. split; [apply not_elem_of_nil | reflexivity].
  - destruct (String.eqb_spec (name i) sector) as [<-|Hne]; cbn [map name].
    + left. split; [apply list_elem_of_here | reflexivity].
    + destruct IH as [[Hin Heq]|[Hnot Heq]].
      * left. split; [now apply list_elem_of_further | now rewrite Heq].
      * right. split; [|now rewrite Heq].
        intros H. apply elem_of_cons in H as [H|H]; [congruence | contradiction].
Qed.

Lemma addTo_elem sec v acc i' :
  NoDup (map name acc) ->
  i' ∈ addTo sec v acc ->
  (i' ∈ acc /\ name i' <> sec)
  \/ (exists i, i ∈ acc /\ name i = sec
                /\ i' = {| name := name i; value := JS.add (value i) v |})
  \/ ((sec ∉ map name acc) /\ i' = {| name := sec; value := v |}).
Proof.
  induction acc as [|i acc IH]; cbn [addTo map]; intros Hnd Hin.
  - apply list_elem_of_singleton in Hin. right. right.
    split; [apply not_elem_of_nil | exact Hin].
  - apply NoDup_cons in Hnd as [Hi Hnd].
    destruct (String.eqb_spec (name i) sec) as [Heq|Hne].
    + apply elem_of_cons in Hin as [->|Hin].
      * right. left. exists i. split; [apply list_elem_of_here|]. now split.
      * left. split; [now apply list_elem_of_further|].
        intros E. apply Hi. rewrite Heq, <- E.
        apply list_elem_of_fmap. now exists i'.
    + apply elem_of_cons in Hin as [->|Hin].
      * left. split; [apply list_elem_of_here | exact Hne].
      * destruct (IH Hnd Hin) as [[H1 H2]|[(i0 & H1 & H2 & H3)|[H1 H2]]].
        -- left. split; [now apply list_elem_of_further | exact H2].
        -- right. left. exists i0. split; [now apply list_elem_of_further|].
           now split.
        -- right. right. split; [|exact H2].
           intros H. apply elem_of_cons in H as [H|H]; [congruence | contradiction].
Qed.

Lemma sectorValue_snoc_other sec done p :
  sectorOf p <> sec -> sectorValue sec (done ++ [p]) = sectorValue sec done.
Proof.
  intros Hne. unfold sectorValue. rewrite List.filter_app. cbn [List.filter].
  apply String.eqb_neq in Hne. rewrite Hne. now rewrite app_nil_r.
Qed.

Lemma sectorValue_snoc_same done p :
  sectorValue (sectorOf p) (done ++ [p])
  = Some match sectorValue (sectorOf p) done with
         | Some v => JS.add v (JS.mul (marketPrice p) (shares p))
         | None => JS.mul (marketPrice p) (shares p)
         end.
Proof.
  unfold sectorValue. rewrite List.filter_app. cbn [List.filter].
  rewrite String.eqb_refl.
  destruct (List.filter _ done) as [|q rest]; [reflexivity|].
  cbn [app]. now rewrite foldl_app.
Qed.

Lemma sectorValue_None sec done :
  sec ∉ map sectorOf done -> sectorValue sec done = None.
Proof.
  intros Hnot. unfold sectorValue.
  destruct (List.filter _ done) as [|q rest] eqn:E; [reflexivity|].
  exfalso. apply Hnot.
  assert (Hq : List.In q (List.filter (fun p => String.eqb (sectorOf p) sec) done))
    by (rewrite E; now left).
  apply List.filter_In in Hq as [Hin Heq]. apply String.eqb_eq in Heq.
  apply list_elem_of_fmap. exists q. split; [now rewrite Heq|].
  now apply list_elem_of_In.
Qed.

Lemma addTo_grouped done acc p :
  grouped done acc ->
  grouped (done ++ [p])
          (addTo (sectorOf p) (JS.mul (marketPrice p) (shares p)) acc).
Proof.
  intros (Hnd & Hnames & Hval).
  set (v := JS.mul (marketPrice p) (shares p)).
  split; [|split].
  - destruct (addTo_names (sectorOf p) v acc) as [[_ ->]|[E ->]]; [exact Hnd|].
    apply NoDup_app. split; [exact Hnd|]. split; [|apply NoDup_singleton].
    intros x Hx Hx'. apply list_elem_of_singleton in Hx'. now subst x.
  - intros n. rewrite fmap_app, elem_of_app. cbn [fmap list_fmap].
    rewrite list_elem_of_singleton, <- Hnames.
    destruct (addTo_names (sectorOf p) v acc) as [[E ->]|[E ->]].
    + split; [now left|]. intros [H | ->]; [exact H | exact E].
    + now rewrite elem_of_app, list_elem_of_singleton.
  - intros i' Hin.
    destruct (addTo_elem _ _ _ _ Hnd Hin)
      as [[H1 H2] | [(i & H1 & H2 & Heq) | [H1 Heq] ] ]; try subst i'; cbn [name value].
    + rewrite sectorValue_snoc_other by congruence. now apply Hval.
    + rewrite H2, sectorValue_snoc_same. rewrite <- H2, (Hval i H1). reflexivity.
    + rewrite sectorValue_snoc_same, sectorValue_None; [reflexivity|].
      intros H. now apply H1, Hnames.
Qed.

Lemma bySector_grouped portfolio : forall done acc,
  grouped done acc ->
  grouped (done ++ portfolio)
          (foldl (fun acc stock =>
                    addTo (sectorOf stock)
                          (JS.mul (marketPrice stock) (shares stock)) acc)
                 acc portfolio).
Proof.
  induction portfolio as [|p l IH]; intros done acc H; cbn [foldl].
  - now rewrite app_nil_r.
  - replace (done ++ p :: l) with ((done ++ [p]) ++ l)
      by now rewrite <- app_assoc.
    apply IH. now apply addTo_grouped.
Qed.

(** X22.  The allocation chart groups the positions by sector.  It has one
    slice for each sector of the portfolio ([Uncategorized] for a missing or
    empty sector), whose value is the market values of the positions of the
    sector added in the order of the portfolio; a slice for the liquid cash
    follows them when the cash is positive, and only then. *)
Theorem sector_chart_groups_the_positions (portfolio : list StockPosition)
    (liquidCash : number) :
  NoDup (map name (bySector portfolio))
  /\ (forall n, n ∈ map name (bySector portfolio) <-> n ∈ map sectorOf portfolio)
  /\ (forall i, i ∈ bySector portfolio ->
        sectorValue (name i) portfolio = Some (value i))
  /\ sectorData portfolio liquidCash
     = bySector portfolio
       ++ (if JS.gt liquidCash JS.zero
           then [{| name := "Liquid Cash"; value := liquidCash |}] else []).
Proof.
  assert (H0 : grouped [] []).
  { split; [apply NoDup_nil_2|]. split; [reflexivity|].
    intros i Hi. now apply elem_of_nil in Hi. }
  destruct (bySector_grouped portfolio [] [] H0) as (Hnd & Hnames & Hval).
  fold (bySector portfolio) in Hnd, Hnames, Hval. cbn [app] in Hnames, Hval.
  split; [exact Hnd|]. split; [exact Hnames|]. split; [exact Hval|].
  unfold sectorData. destruct (JS.gt liquidCash JS.zero); [reflexivity|].
  now rewrite app_nil_r.
Qed.

Lemma lt_asym x y : JS.lt x y = true -> JS.lt y x = false.
Proof.
  destruct x as [a| | |], y as [b| | |]; simpl; try discriminate; try reflexivity.
  intros H. apply Qc_ltb_lt in H.
  destruct (JS.Qc_ltb b a) eqn:E; [|reflexivity].
  apply Qc_ltb_lt in E. exfalso. apply (Qclt_not_le _ _ H), Qclt_le_weak, E.
Qed.

(** X23.  The overview counts no position both as a winner and as a loser:
    the two counts together never exceed the number of positions. *)
Theorem winners_and_losers_are_apart (portfolio : list StockPosition) :
  (winners portfolio + losers portfolio <= List.length portfolio)%nat.
Proof.
  unfold winners, losers. induction portfolio as [|p l IH]; simpl; [lia|].
  unfold JS.gt at 1.
  destruct (JS.lt (avgBuyPrice p) (marketPrice p)) eqn:E.
  - rewrite (lt_asym _ _ E). simpl. lia.
  - destruct (JS.lt (marketPrice p) (avgBuyPrice p)); simpl; lia.
Qed.

End DashboardFacts.

(** ** The simulation of an addition *)

Section SimulationFacts.

Import Gemini Simulation.

Variable API_KEY : option string.
Variable generateContent : nat -> string -> Response + Error.
Variable JSON_parse : string -> option json.
Variable StringToNumber : string -> number.
Variable simulationPrompt : list StockPosition -> string -> number -> number -> string.
Variable simulationSchema : string.

Abbreviation simulate :=
  (handleSimulate API_KEY generateContent JSON_parse StringToNumber
     simulationPrompt simulationSchema).

(** X24.  [handleSimulate] always settles, after at most three requests, and
    a failed simulation keeps the result of the last one: with an input left
    empty nothing happens; otherwise the flag is lowered at the end, and the
    result is the data of the answer when the wrapper returns and the result
    that was there when it throws, as it does without an API key. *)
Theorem simulation_failure_keeps_the_last_result (portfolio : list StockPosition)
    (simStock : SimStock) (st : State) (w : World) :
  exists st' tl,
    simulate portfolio simStock st w = (st', w ++ tl)
    /\ (requests tl <= 3)%nat
    /\ if JS.truthy (sim_symbol simStock) && JS.truthy (sim_shares simStock)
          && JS.truthy (sim_price simStock)
       then
         isSimulating st' = false
         /\ match
              fst (fetchGeminiResponse API_KEY generateContent JSON_parse
                     (simulationPrompt portfolio
                        (JS.toUpperCase (sim_symbol simStock))
                        (StringToNumber (sim_shares simStock))
                        (StringToNumber (sim_price simStock)))
                     simulationSchema w)
            with
            | Returned r => simulationResult st' = Some r.1
            | _ => simulationResult st' = simulationResult st
            end
         /\ (configured API_KEY = false ->
             simulationResult st' = simulationResult st /\ requests tl = 0%nat)
       else st' = st /\ tl = [].
Proof.
  unfold handleSimulate, simulatePortfolioAddition.
  destruct (JS.truthy (sim_symbol simStock)), (JS.truthy (sim_shares simStock)),
    (JS.truthy (sim_price simStock)); cbn [negb orb andb];
    try (exists st, []; rewrite app_nil_r;
         split; [reflexivity|]; split; [cbn; lia|]; split; reflexivity).
  destruct (fetch_effects API_KEY generateContent JSON_parse
              (simulationPrompt portfolio (JS.toUpperCase (sim_symbol simStock))
                 (StringToNumber (sim_shares simStock))
                 (StringToNumber (sim_price simStock))) simulationSchema w)
    as (out & tl & Hf & Hnf & Hr & _ & _ & _ & Hk).
  unfold bind. rewrite Hf. cbn [fst].
  destruct out as [r|e|]; [| |congruence].
  - unfold ret. eexists _, tl. split; [reflexivity|]. split; [exact Hr|].
    split; [reflexivity|]. split; [reflexivity|].
    intros Hkey. exfalso.
    unfold fetchGeminiResponse, bind in Hf.
    rewrite (getAiClient_missing API_KEY w Hkey) in Hf. discriminate.
  - eexists _, (tl ++ [ConsoleError (default "" (message e))]).
    rewrite <- app_assoc. split; [reflexivity|]. split.
    { rewrite requests_app.
      change (requests [ConsoleError (default "" (message e))]) with 0%nat. lia. }
    split; [reflexivity|]. split; [reflexivity|].
    intros Hkey. split; [reflexivity|].
    rewrite (Hk Hkey). reflexivity.
Qed.

End SimulationFacts.

(** ** The keyboard navigation *)

Section NavigationFacts.

Import Navigation.

(** X25.  The arrow keys move between neighbouring tabs and never wrap
    around: a key pressed in an input or a text area changes nothing; the
    down arrow does nothing on the last tab and the up arrow undoes it
    everywhere else; the up arrow does nothing on the first tab and the down
    arrow undoes it everywhere else. *)
Theorem arrow_keys_never_wrap (tab : TabView) (tagName : string) :
  (forall key, press "INPUT" key tab = Some tab /\ press "TEXTAREA" key tab = Some tab)
  /\ (String.eqb tagName "INPUT" || String.eqb tagName "TEXTAREA" = false ->
      exists down up,
        press tagName ArrowDown tab = Some down
        /\ press tagName ArrowUp tab = Some up
        /\ (if TabView_eqb tab market then down = tab
            else down <> tab /\ press tagName ArrowUp down = Some tab)
        /\ (if TabView_eqb tab dashboard then up = tab
            else up <> tab /\ press tagName ArrowDown up = Some tab)).
Proof.
  split; [intros key; split; reflexivity|].
  intros Htag. unfold press, handleKeyDown. rewrite Htag.
  destruct tab; eexists _, _; (split; [reflexivity|]); (split; [reflexivity|]);
    cbn; repeat split; discriminate.
Qed.

End NavigationFacts.

(** ** The entry of a run, as the advisor view reads it *)

Section EntryFacts.

Import Gemini AppAnalysis.

Variable API_KEY : option string.
Variable generateContent : nat -> string -> Response + Error.
Variable JSON_parse : string -> option json.
Variable prompt1 prompt2 : list StockPosition -> number -> string.
Variable schema1 schema2 : string.

Lemma newEntry_size newId timestamp : size (newEntry newId timestamp) = 2%nat.
Proof.
  unfold newEntry.
  rewrite map_size_insert_None
    by (rewrite lookup_insert_ne by discriminate; apply lookup_empty).
  rewrite map_size_insert_None by apply lookup_empty.
  now rewrite map_size_empty.
Qed.

Lemma filled_size newId entry ps : (size entry <= size (filled newId entry ps))%nat.
Proof.
  revert entry. induction ps as [|p ps IH]; intros entry; simpl; [lia|].
  destruct (hasId newId entry); [|apply IH].
  etransitivity; [|apply IH].
  rewrite <- !size_dom. apply subseteq_size. rewrite dom_union. set_solver.
Qed.

(** X26.  The entry of a run counts as data from the start, whatever the
    service answers: when there is something to analyse and no entry of the
    history carries the new id, the entry put at the head of the history has
    at least two keys, so [hasAnyData] holds of it; without an API key the
    run ends with this entry on display, holding its id and timestamp only,
    with [hasAnyData] true and no error set. *)
Theorem failed_analysis_still_counts_as_data (newId : string) (timestamp : number)
    (ledger : App.State) (st : State) (w : World) :
  nothingToAnalyse ledger = false ->
  Forall (fun item => hasId newId item = false) (analysisHistory st) ->
  exists st' tl entry,
    handleRunAnalysis API_KEY generateContent JSON_parse prompt1 prompt2
      schema1 schema2 newId timestamp ledger st w = (st', w ++ tl)
    /\ head (analysisHistory st') = Some entry
    /\ AdvisorView.hasAnyData (Some entry) = true
    /\ (configured API_KEY = false ->
        currentAnalysis st' = Some entry
        /\ entry = newEntry newId timestamp
        /\ AdvisorView.hasAnyData (currentAnalysis st') = true
        /\ isAnalyzing st' = false
        /\ analysisError st' = "").
Proof.
  intros Hg Hold.
  destruct (runAnalysis_unfolded API_KEY generateContent JSON_parse
              prompt1 prompt2 schema1 schema2 newId timestamp ledger st w Hg)
    as (tl & _ & _ & Hk & H).
  destruct (merged_history newId (newEntry newId timestamp) (analysisHistory st)
              (mkState (newEntry newId timestamp :: analysisHistory st)
                       (Some newId) true "") (updates tl) eq_refl Hold)
    as (H1 & H2 & H3 & H4).
  assert (Hsize : AdvisorView.hasAnyData
                    (Some (filled newId (newEntry newId timestamp) (updates tl)))
                  = true).
  { unfold AdvisorView.hasAnyData. apply Nat.ltb_lt.
    pose proof (filled_size newId (newEntry newId timestamp) (updates tl)) as Hle.
    rewrite newEntry_size in Hle. lia. }
  eexists _, tl, (filled newId (newEntry newId timestamp) (updates tl)).
  split; [exact H|]. cbn [analysisHistory setIsAnalyzing]. rewrite H1.
  split; [reflexivity|]. split; [exact Hsize|].
  intros Hkey.
  assert (Hcur : currentAnalysis
                   (setIsAnalyzing false
                      (foldl (fun st p => setAnalysisHistory (merge newId p) st)
                             (mkState (newEntry newId timestamp :: analysisHistory st)
                                      (Some newId) true "") (updates tl)))
                 = Some (filled newId (newEntry newId timestamp) (updates tl))).
  { unfold currentAnalysis.
    cbn [viewingAnalysisId analysisHistory setIsAnalyzing]. rewrite H1, H2.
    cbn [viewingAnalysisId]. destruct (JS.truthy newId); [|reflexivity].
    cbn [List.find]. rewrite (Hk Hkey). cbn [filled foldl].
    now rewrite newEntry_hasId. }
  rewrite Hcur. split; [reflexivity|]. split; [now rewrite (Hk Hkey)|].
  split; [exact Hsize|]. split; [reflexivity|].
  cbn [analysisError setIsAnalyzing]. now rewrite H4.
Qed.

End EntryFacts.

(** * Instances *)

Section Instances.

Import Sample.

Lemma Fin_eq (a b : Qc) : (this a == this b)%Q -> Fin a = Fin b.
Proof. intros H. f_equal. now apply Qc_is_canon. Qed.

(** A purchase of no share into a position without shares divides zero by
    zero. *)
Example zero_share_buy_gives_NaN :
  avgBuyPrice (App.applyTransaction sameInstant buy0at5 soldOut) = NaN.
Proof. reflexivity. Qed.

(** The clean-up on texts without a braced part, and on braces in the wrong
    order, where [substring] swaps its bounds. *)
Example extractJson_absent_text : Gemini.extractJson None = "{}".
Proof. reflexivity. Qed.

Example extractJson_no_brace : Gemini.extractJson (Some " no data ") = "no data".
Proof. reflexivity. Qed.

Example extractJson_swapped : Gemini.extractJson (Some "} {") = " ".
Proof. reflexivity. Qed.

Example isRateLimit_by_text :
  Gemini.isRateLimit (Gemini.new_Error "You exceeded your current quota") = true.
Proof. reflexivity. Qed.




Lemma buys_average_follows_witness :
  exists p',
    App.portfolio
      (App.run sameInstant
         [App.Transact "1" buy10at200; App.AddStock "5" "2024-01-04" moreEngro]
         ledger) !! 0%nat = Some p'
    /\ id p' = "1" /\ symbol p' = "ENGRO"
    /\ shares p' = JS.of_Z 40
    /\ avgBuyPrice p' = JS.of_Z 150.
Proof.
  destruct (buys_average_follows_each_purchase sameInstant ledger 0 engro
              [App.Transact "1" buy10at200; App.AddStock "5" "2024-01-04" moreEngro])
    as (p' & Hp & Hid & Hsym & Hheld & _).
  - reflexivity.
  - intros j q Hj. lia.
  - repeat constructor.
  - exists p'. split; [exact Hp|]. split; [exact Hid|]. split; [exact Hsym|].
    apply pair_equal_spec in Hheld as [Hs Ha]. split.
    + rewrite Hs. now apply Fin_eq.
    + rewrite Ha. now apply Fin_eq.
Defined.

(** The claim C1 as stated fails: after a purchase of no share for a position
    without shares and a purchase of ten shares at 100, both BUY transactions
    for the position, its average cost is not a number, while the cost of
    all buys over the shares bought is 100. *)
Lemma zero_share_buy_spoils_the_average :
  Forall (buyFor soldOut) [App.Transact "9" buy0at5; App.Transact "9" buy10at100]
  /\ (avgBuyPrice <$>
        App.portfolio
          (App.run sameInstant
             [App.Transact "9" buy0at5; App.Transact "9" buy10at100] emptied)
        !! 0%nat) = Some NaN
  /\ JS.div (JS.add (JS.mul (tx_shares buy0at5) (tx_price buy0at5))
                    (JS.mul (tx_shares buy10at100) (tx_price buy10at100)))
            (JS.add (tx_shares buy0at5) (tx_shares buy10at100))
     = JS.of_Z 100.
Proof.
  split; [repeat constructor|]. split; [reflexivity|].
  now apply Fin_eq.
Qed.

(** The claim C3 as stated fails without an API key: the wrapper throws
    although no attempt has been made. *)
Lemma missing_key_throws_before_any_attempt :
  ~ (forall e w',
       Gemini.fetchGeminiResponse None failsOnce parse "prices" "{}" []
         = (Gemini.Thrown e, w') ->
       Gemini.requests w' = 3%nat).
Proof.
  intros H.
  specialize (H (Gemini.new_Error "API Key not found") [] eq_refl).
  discriminate H.
Qed.

Lemma wrapper_attempts_witness :
  Gemini.fetchGeminiResponse (Some "key") failsOnce parse "prices" "{}" []
    = (Gemini.Returned (Gemini.JObject [], emptyAnswer),
       snd (Gemini.fetchGeminiResponse (Some "key") failsOnce parse "prices" "{}" []))
  /\ Gemini.requests
       (snd (Gemini.fetchGeminiResponse (Some "key") failsOnce parse "prices" "{}" []))
     = 2%nat.
Proof.
  destruct (wrapper_attempts_at_most_three (Some "key") failsOnce parse
              "prices" "{}" []) as [H _].
  destruct (H eq_refl _ _ (surjective_pairing _)) as (_ & _ & _ & Hok).
  destruct (Hok 1%nat (Gemini.JObject [], emptyAnswer)) as [Hout Hn].
  - lia.
  - intros j Hj. assert (j = 0%nat) as -> by lia. now exists serverError.
  - reflexivity.
  - split; [|exact Hn].
    rewrite (surjective_pairing (Gemini.fetchGeminiResponse _ _ _ _ _ _)).
    now rewrite Hout.
Defined.



Lemma fenced_json_is_parsed_witness :
  Gemini.extractJson (Gemini.text notedAnswer)
  = "{" +:+ stripFences noteBody +:+ "}"
  /\ JS.includes (Gemini.extractJson (Gemini.text notedAnswer)) "```" = false
  /\ Gemini.fetchGeminiResponse (Some "key") answersNoted parseNote "analyse" "{}" []
     = (Gemini.Returned
          (Gemini.JObject [("note", Gemini.JString "no  fence")], notedAnswer),
        [Gemini.Request (Gemini.detailedPrompt "analyse" "{}")]).
Proof.
  destruct (fenced_json_is_parsed (Some "key") answersNoted parseNote "analyse" "{}" []
              notedAnswer "```json " noteBody " ```")
    as (H1 & H2 & _ & H3); try reflexivity.
  split; [exact H1|]. split; [exact H2|].
  apply H3. reflexivity.
Defined.

Lemma partial_analysis_is_kept_witness :
  exists res2,
    Gemini.generatePortfolioAnalysis (Some "key") lateAnswer parse
      "phase 1" "{}" "phase 2" "{}" []
    = (Gemini.Returned tt,
       snd (Gemini.generatePortfolioAnalysis (Some "key") lateAnswer parse
              "phase 1" "{}" "phase 2" "{}" []))
    /\ updates
         (snd (Gemini.generatePortfolioAnalysis (Some "key") lateAnswer parse
                 "phase 1" "{}" "phase 2" "{}" [])) = [res2]
    /\ res2 !! "score" = Some (Gemini.JNumber (JS.of_Z 85)).
Proof.
  destruct (partial_analysis_is_kept (Some "key") lateAnswer parse
              "phase 1" "{}" "phase 2" "{}" [])
    as (out1 & t1 & mark1 & out2 & t2 & mark2 & H1 & H2 & H3 & _ & H4).
  rewrite H3. cbn [snd app].
  vm_compute in H1. injection H1 as <- <-.
  vm_compute in H2. injection H2 as <- <-.
  cbv iota beta in H4. destruct H4 as (res2 & -> & Hu & Hk).
  exists res2. split; [reflexivity|]. split; [exact Hu|].
  apply (Hk "score" [("score", Gemini.JNumber (JS.of_Z 85))]); [discriminate|].
  reflexivity.
Defined.

Lemma two_rows_one_position_witness :
  exists p,
    List.filter (fun p => String.eqb (symbol p) "ENGRO")
      (PortfolioView.aggregate noNumber noText ids dates sameInstant sheet) = [p]
    /\ shares p = JS.of_Z 20
    /\ avgBuyPrice p = JS.of_Z 150.
Proof.
  destruct (two_rows_one_position noNumber noText ids dates sameInstant sheet "ENGRO"
              (Qc_of_Z 10) (Qc_of_Z 100) (Qc_of_Z 10) (Qc_of_Z 200))
    as (p & Hp & Hs & Ha).
  - reflexivity.
  - intros row [<-|[<-|[<-|[]]]] Hc; [discriminate Hc | reflexivity | reflexivity].
  - exists p. split; [exact Hp|]. split.
    + rewrite Hs. now apply Fin_eq.
    + rewrite Ha. now apply Fin_eq.
Defined.

Lemma invalid_row_is_excluded_witness :
  PortfolioView.aggregate noNumber noText ids dates sameInstant (sheet ++ badRow :: [])
  = PortfolioView.aggregate noNumber noText ids dates sameInstant (sheet ++ []).
Proof.
  destruct (invalid_row_is_excluded noNumber noText ids dates sameInstant
              sheet [] badRow) as (_ & H & _).
  - left. reflexivity.
  - exact H.
Defined.

(** The claim C8 as stated fails: a row whose quantity is the boolean [true],
    and a row whose cost is [null], hold no number in these columns, yet
    each contributes a position, with one share and with a cost of zero. *)
Lemma coerced_cells_are_imported :
  map (fun p => (symbol p, shares p, avgBuyPrice p))
      (PortfolioView.aggregate noNumber noText ids dates sameInstant coercedRows)
  = [("OGDC", JS.of_Z 1, JS.of_Z 3); ("PSX", JS.of_Z 3, JS.zero)].
Proof. reflexivity. Qed.


End Instances.

(** ** Further instances *)

Section MoreInstances.

Import Sample Scenario.

Lemma refresh_never_blanks_witness :
  exists updated w' p,
    GeminiService.updateStockPrices (Some "key") fenced parse "" [engro] []
    = (Gemini.Returned updated, w')
    /\ updated !! 0%nat = Some p
    /\ sameOrBetterDetails engro p.
Proof.
  apply (refresh_never_blanks_a_detail (Some "key") fenced parse "" [engro] []
           0%nat engro).
  reflexivity.
Defined.

Lemma refresh_failure_witness :
  fst (GeminiService.updateStockPrices None fenced parse "" [engro] [])
  = Gemini.Returned (map GeminiService.unchanged [engro])
  /\ fst (GeminiService.updateStockPrices (Some "key") answersNameless parseStocks ""
            [engro] [])
     = Gemini.Returned (map GeminiService.unchanged [engro]).
Proof.
  split.
  - apply (refresh_failure_returns_the_portfolio None fenced parse "" [engro] []).
    left. eexists. reflexivity.
  - apply (refresh_failure_returns_the_portfolio (Some "key") answersNameless
             parseStocks "" [engro] []).
    right. eexists. eexists. split; [vm_compute; reflexivity|].
    right. right. eexists. eexists. eexists.
    split; [reflexivity|]. split; [reflexivity|]. exact I.
Defined.

Lemma symbols_stay_distinct_witness :
  distinctSymbols
    (App.portfolio
       (App.run sameInstant
          [App.AddStock "5" "2024-01-04T00:00:00.000Z" moreEngro; App.RemoveStock "9"]
          ledger)).
Proof.
  apply (symbols_stay_distinct sameInstant).
  - apply NoDup_singleton.
  - repeat constructor.
Defined.

Lemma added_stock_witness :
  App.portfolio
    (App.handleRemoveStock (id luck)
       (App.handleAddStock "5" "2024-01-04T00:00:00.000Z" luck ledger))
  = App.portfolio ledger.
Proof.
  apply (added_stock_can_be_removed "5" "2024-01-04T00:00:00.000Z" luck ledger).
  - repeat constructor. vm_compute. intros H. discriminate H.
  - repeat constructor. vm_compute. intros H. discriminate H.
Defined.

Lemma history_witness :
  exists p' history,
    App.portfolio (App.handleTransaction sameInstant "1" buy10at200 ledger) !! 0%nat
    = Some p'
    /\ transactions p' = Some history
    /\ history ≡ₚ default [] (transactions engro) ++ [buy10at200]
    /\ (dated sameInstant (default [] (transactions engro) ++ [buy10at200]) ->
        newestFirst sameInstant history).
Proof.
  apply (history_is_kept_newest_first sameInstant "1" buy10at200 ledger 0%nat engro).
  - reflexivity.
  - reflexivity.
Defined.

Lemma settled_refresh_witness :
  App.portfolio
    (App.handleRefreshPrices_resume (Some [engroRepriced])
       (App.run sameInstant [App.Transact "1" buy10at200]
          (App.handleRefreshPrices_begin ledger)))
  = [engroRepriced]
  /\ App.portfolioRef
       (App.handleRefreshPrices_resume (Some [engroRepriced])
          (App.run sameInstant [App.Transact "1" buy10at200]
             (App.handleRefreshPrices_begin ledger)))
     = [engroRepriced]
  /\ App.isRefreshing
       (App.handleRefreshPrices_resume (Some [engroRepriced])
          (App.run sameInstant [App.Transact "1" buy10at200]
             (App.handleRefreshPrices_begin ledger)))
     = false
  /\ App.liquidCash
       (App.handleRefreshPrices_resume (Some [engroRepriced])
          (App.run sameInstant [App.Transact "1" buy10at200]
             (App.handleRefreshPrices_begin ledger)))
     = App.liquidCash
         (App.run sameInstant [App.Transact "1" buy10at200]
            (App.handleRefreshPrices_begin ledger)).
Proof.
  apply (settled_refresh_overwrites sameInstant ledger
           [App.Transact "1" buy10at200] [engroRepriced]).
  - reflexivity.
  - simpl. intros H. discriminate H.
Defined.

Lemma analysis_run_witness :
  exists st' tl entry,
    AppAnalysis.handleRunAnalysis None fenced parse noPrompt noPrompt "" ""
      "1700000000000" (JS.of_Z 1700000000000) ledger noAnalysis []
    = (st', [] ++ tl)
    /\ AppAnalysis.analysisHistory st'
       = entry :: AppAnalysis.analysisHistory noAnalysis
    /\ (configured None = false ->
        entry = AppAnalysis.newEntry "1700000000000" (JS.of_Z 1700000000000)
        /\ AppAnalysis.analysisError st' = "")
    /\ (Forall (fun p : Gemini.AnalysisResult => p !! "id" = None) (updates tl) ->
        entry !! "id" = Some (Gemini.JString "1700000000000")
        /\ AppAnalysis.currentAnalysis st' = Some entry
        /\ forall p, last (updates tl) = Some p -> p ⊆ entry).
Proof.
  apply (analysis_run_fills_one_entry None fenced parse noPrompt noPrompt "" ""
           "1700000000000" (JS.of_Z 1700000000000) ledger noAnalysis []).
  - reflexivity.
  - constructor.
Defined.

Lemma form_sale_witness :
  if JS.Qc_ltb (Qc_of_Z 10) (Qc_of_Z 4)
  then Wiring.submitTransaction wholeNumber sameInstant (Some engro) sellFour
         "6" "2024-01-06T00:00:00.000Z" ledger = ledger
  else
    exists p',
      App.portfolio
        (Wiring.submitTransaction wholeNumber sameInstant (Some engro) sellFour
           "6" "2024-01-06T00:00:00.000Z" ledger) !! 0%nat = Some p'
      /\ shares p' = Fin (Qc_of_Z 10 - Qc_of_Z 4)
      /\ 0 <= Qc_of_Z 10 - Qc_of_Z 4
      /\ App.liquidCash
           (Wiring.submitTransaction wholeNumber sameInstant (Some engro) sellFour
              "6" "2024-01-06T00:00:00.000Z" ledger)
         = JS.add (App.liquidCash ledger)
             (JS.mul (Fin (Qc_of_Z 4))
                (wholeNumber (LedgerForms.new_tx_price sellFour))).
Proof.
  apply (form_sale_is_never_clamped wholeNumber sameInstant engro sellFour
           "6" "2024-01-06T00:00:00.000Z" ledger 0%nat engro
           (Qc_of_Z 10) (Qc_of_Z 4)); reflexivity.
Defined.

Lemma sanitized_score_witness :
  exists n : Z,
    AdvisorView.sanitizeScore (Fin (Qc_of_Z 85)) = Fin (Qc_of_Z n)
    /\ (0 <= n <= 100)%Z
    /\ (Qc_of_Z 85 = 0 \/ 1 < Qc_of_Z 85 ->
        Qc_of_Z n - Q2Qc (1 # 2) <= Qc_of_Z 85
        /\ Qc_of_Z 85 < Qc_of_Z n + Q2Qc (1 # 2)).
Proof.
  apply (sanitized_score_is_a_percentage (Qc_of_Z 85)).
  - vm_compute. intros H. discriminate H.
  - vm_compute. intros H. discriminate H.
Defined.

Lemma rebalancing_witness :
  exists suggestions,
    AdvisorView.rebalancingData noNumber (Some [sixtyPercent]) [engro; luck]
      (AdvisorView.InflowNumber (JS.of_Z 1000))
    = Some suggestions
    /\ map (fun s => AdvisorView.proj_symbol (AdvisorView.projection s)) suggestions
       ≡ₚ map symbol [engro; luck]
    /\ Forall (withinInflow (Qc_of_Z 1000)) suggestions
    /\ largestWeightFirst suggestions.
Proof.
  apply (rebalancing_stays_within_the_inflow noNumber [sixtyPercent] [engro; luck]
           (AdvisorView.InflowNumber (JS.of_Z 1000)) (Qc_of_Z 1000)).
  - repeat constructor.
  - repeat constructor.
  - reflexivity.
  - vm_compute. intros H. discriminate H.
Defined.

Lemma failed_analysis_witness :
  exists st' tl entry,
    AppAnalysis.handleRunAnalysis None fenced parse noPrompt noPrompt "" ""
      "1700000000000" (JS.of_Z 1700000000000) ledger noAnalysis []
    = (st', [] ++ tl)
    /\ head (AppAnalysis.analysisHistory st') = Some entry
    /\ AdvisorView.hasAnyData (Some entry) = true
    /\ (configured None = false ->
        AppAnalysis.currentAnalysis st' = Some entry
        /\ entry = AppAnalysis.newEntry "1700000000000" (JS.of_Z 1700000000000)
        /\ AdvisorView.hasAnyData (AppAnalysis.currentAnalysis st') = true
        /\ AppAnalysis.isAnalyzing st' = false
        /\ AppAnalysis.analysisError st' = "").
Proof.
  apply (failed_analysis_still_counts_as_data None fenced parse noPrompt noPrompt
           "" "" "1700000000000" (JS.of_Z 1700000000000) ledger noAnalysis []).
  - reflexivity.
  - constructor.
Defined.

End MoreInstances.
